(** * The article store of the Kolkata Chronicle demo site (data.js)

    A shallow embedding of [Validators], [StorageUtils] and [DATA_STORE],
    and of the two functions of [DataManager] (home.js) that compute on
    what the store returns.

    JavaScript objects and arrays live in a heap and are handed around by
    reference, so that aliasing between the store, its callers and the
    bundled seed data is visible.  Exceptions are an explicit outcome
    ([Throw]); every public operation keeps its [try]/[catch].

    Numbers are integers, with [NaN] a value of its own: arithmetic on them
    is exact, so that the rounding of a double beyond 2^53 and its printing in
    exponent notation beyond 10^21 are outside the model; what is proved of
    an id given from outside is stated for the safe integers, on which the
    model and a double agree.  A string holds the UTF-8 bytes of its text.
    Reads of the clock, of the random generator, the success of
    [localStorage.setItem] and of [localStorage.removeItem] and the answer to
    [confirm] are arguments of the operation that performs them; the case
    mapping and the trimming of text are arguments of [getUserByEmail].  The
    text kept by [localStorage] is represented by the document it parses to,
    an object by its members whatever their order.  What is written to the
    console is left out.  [getAuthorStats] divides and rounds what may be
    text and is left out. *)

From stdpp Require Import base option list strings gmap fin_maps.
From stdpp Require Import pretty.
From Stdlib Require Import ZArith Lia.
From Stdlib Require Import Ascii.

Open Scope Z_scope.

(** ** Values, heap cells, exceptions *)

Definition loc := nat.

Inductive value :=
  | VUndef
  | VNull
  | VBool (b : bool)
  | VNum (z : Z)
  | VNaN
  | VStr (s : string)
  | VRef (l : loc).

Global Instance value_eq_dec : EqDecision value.
Proof. solve_decision. Defined.

(** A plain object (own properties by name) or an array. *)
Inductive cell :=
  | CObj (fields : gmap string value)
  | CArr (elems : list value).

Global Instance cell_eq_dec : EqDecision cell.
Proof. solve_decision. Defined.

(** The outcome of an expression that may raise. *)
Inductive res (A : Type) :=
  | Ret (a : A)
  | Throw.
Arguments Ret {A} a.
Arguments Throw {A}.

Global Instance res_eq_dec {A} `{EqDecision A} : EqDecision (res A).
Proof. solve_decision. Defined.

Definition bind {A B} (m : res A) (k : A → res B) : res B :=
  match m with
  | Ret a => k a
  | Throw => Throw
  end.

Notation "'do' x <- m 'in' k" := (bind m (fun x => k))
  (at level 10, x name, m at level 100, k at level 200).

(** [try { m } catch (e) { d }] *)
Definition catch {A} (m : res A) (d : A) : A :=
  match m with
  | Ret a => a
  | Throw => d
  end.

(** ** Coercions of the language *)

(** [!!v] *)
Definition truthy (v : value) : bool :=
  match v with
  | VUndef | VNull | VNaN => false
  | VBool b => b
  | VNum z => negb (z =? 0)
  | VStr s => negb (String.eqb s EmptyString)
  | VRef _ => true
  end.

(** [typeof v === 'object'] *)
Definition typeof_object (v : value) : bool :=
  match v with
  | VNull | VRef _ => true
  | _ => false
  end.

(** [typeof v === 'number'] *)
Definition typeof_number (v : value) : bool :=
  match v with
  | VNum _ | VNaN => true
  | _ => false
  end.

(** [xs.includes(v)]: SameValueZero, under which [NaN] equals itself and
    references are compared by identity. *)
Definition includes (v : value) (xs : list value) : bool :=
  existsb (λ x, bool_decide (x = v)) xs.

(** [v.k] for a property name [k] that no prototype defines. *)
Definition getProp (h : gmap loc cell) (v : value) (k : string) : res value :=
  match v with
  | VUndef | VNull => Throw
  | VRef l =>
      match h !! l with
      | Some (CObj f) => Ret (default VUndef (f !! k))
      | _ => Ret VUndef
      end
  | _ => Ret VUndef
  end.

(** [v.k = x] on an object. *)
Definition setProp (h : gmap loc cell) (l : loc) (k : string) (x : value)
  : gmap loc cell :=
  match h !! l with
  | Some (CObj f) => <[l := CObj (<[k := x]> f)]> h
  | _ => h
  end.

(** [v.hasOwnProperty(k)] for a name [k] other than an array index or
    [length]: the method comes from [Object.prototype] unless the object
    carries an own property of that name, which then is not callable. *)
Definition hasOwnProperty (h : gmap loc cell) (v : value) (k : string)
  : res bool :=
  match v with
  | VUndef | VNull => Throw
  | VRef l =>
      match h !! l with
      | Some (CObj f) =>
          match f !! "hasOwnProperty" with
          | Some _ => Throw
          | None => Ret (bool_decide (is_Some (f !! k)))
          end
      | _ => Ret false
      end
  | _ => Ret false
  end.

(** [xs.every(p)], [xs.find(p)], [xs.findIndex(p)], [xs.map(f)] with a
    callback that may raise. *)
Fixpoint every (p : value → res bool) (xs : list value) : res bool :=
  match xs with
  | [] => Ret true
  | x :: xs' => do b <- p x in if b then every p xs' else Ret false
  end.

Fixpoint find (p : value → res bool) (xs : list value) : res value :=
  match xs with
  | [] => Ret VUndef
  | x :: xs' => do b <- p x in if b then Ret x else find p xs'
  end.

Fixpoint findIndex (p : value → res bool) (xs : list value) : res (option nat) :=
  match xs with
  | [] => Ret None
  | x :: xs' =>
      do b <- p x in
      if b then Ret (Some 0%nat)
      else do i <- findIndex p xs' in Ret (S <$> i)
  end.

Fixpoint mapR (f : value → res value) (xs : list value) : res (list value) :=
  match xs with
  | [] => Ret []
  | x :: xs' => do y <- f x in do ys <- mapR f xs' in Ret (y :: ys)
  end.

(** [xs.filter(p)] and [xs.reduce(f, init)]. *)
Fixpoint filterR (p : value → res bool) (xs : list value) : res (list value) :=
  match xs with
  | [] => Ret []
  | x :: xs' =>
      do b <- p x in
      do ys <- filterR p xs' in
      Ret (if b then x :: ys else ys)
  end.

Fixpoint reduce (f : value → value → res value) (xs : list value) (init : value)
  : res value :=
  match xs with
  | [] => Ret init
  | x :: xs' => do acc <- f init x in reduce f xs' acc
  end.

(** [a === b]: [NaN] differs from itself, references are compared by
    identity. *)
Definition strict_equal (a b : value) : bool :=
  match a, b with
  | VNaN, _ | _, VNaN => false
  | _, _ => bool_decide (a = b)
  end.


(** ** Conversion to text *)

(** [xs.join(",")] given the text of an element. *)
Fixpoint joinR (f : value → res string) (xs : list value) : res string :=
  match xs with
  | [] => Ret EmptyString
  | x :: xs' =>
      do s <- f x in
      match xs' with
      | [] => Ret s
      | _ => do r <- joinR f xs' in Ret (s +:+ "," +:+ r)
      end
  end.

(** [String(v)].  A plain object prints as "[object Object]" unless an own
    property hides [toString], which then is not callable; an array prints
    its elements joined by commas, [null] and [undefined] as nothing, and
    an array met again while it is being joined as nothing, as browsers
    do.  [joining] lists the arrays being joined: they are distinct cells
    of the heap, so that the fuel of [toString] is never used up. *)
Fixpoint toString_fuel (fuel : nat) (h : gmap loc cell) (joining : list loc)
    (v : value) : res string :=
  match v with
  | VUndef => Ret "undefined"
  | VNull => Ret "null"
  | VBool b => Ret (if b then "true" else "false")
  | VNum z => Ret (pretty z)
  | VNaN => Ret "NaN"
  | VStr s => Ret s
  | VRef l =>
      match h !! l with
      | Some (CObj f) =>
          match f !! "toString" with
          | Some _ => Throw
          | None => Ret "[object Object]"
          end
      | Some (CArr xs) =>
          if bool_decide (l ∈ joining) then Ret EmptyString
          else
            match fuel with
            | O => Throw
            | S fuel' =>
                joinR (λ x, match x with
                            | VUndef | VNull => Ret EmptyString
                            | _ => toString_fuel fuel' h (l :: joining) x
                            end) xs
            end
      | None => Throw
      end
  end.

Definition toString (h : gmap loc cell) (v : value) : res string :=
  toString_fuel (S (size h)) h [] v.

(** ** parseInt *)

(** The white space that [parseInt] skips.  A string holds the UTF-8 bytes
    of its text.  The characters of one byte are TAB, LF, VT, FF, CR and the
    space. *)
Definition is_space (c : ascii) : bool :=
  let n := nat_of_ascii c in
  (Nat.eqb n 32 || (Nat.leb 9 n && Nat.leb n 13))%bool.

(** U+00A0, the one white space character of two bytes. *)
Definition is_space2 (a b : ascii) : bool :=
  (Nat.eqb (nat_of_ascii a) 194 && Nat.eqb (nat_of_ascii b) 160)%bool.

(** The white space characters of three bytes: U+1680, U+2000 to U+200A,
    U+2028, U+2029, U+202F, U+205F, U+3000 and U+FEFF. *)
Definition is_space3 (a b c : ascii) : bool :=
  let x := nat_of_ascii a in
  let y := nat_of_ascii b in
  let z := nat_of_ascii c in
  ((Nat.eqb x 225 && Nat.eqb y 154 && Nat.eqb z 128)
   || (Nat.eqb x 226 && Nat.eqb y 128
       && ((Nat.leb 128 z && Nat.leb z 138) || Nat.eqb z 168 || Nat.eqb z 169
           || Nat.eqb z 175))
   || (Nat.eqb x 226 && Nat.eqb y 129 && Nat.eqb z 159)
   || (Nat.eqb x 227 && Nat.eqb y 128 && Nat.eqb z 128)
   || (Nat.eqb x 239 && Nat.eqb y 187 && Nat.eqb z 191))%bool.

Fixpoint skip_spaces (s : string) : string :=
  match s with
  | String a s1 =>
      if is_space a then skip_spaces s1
      else
        match s1 with
        | String b s2 =>
            if is_space2 a b then skip_spaces s2
            else
              match s2 with
              | String c s3 => if is_space3 a b c then skip_spaces s3 else s
              | EmptyString => s
              end
        | EmptyString => s
        end
  | EmptyString => s
  end.

(** The value of a digit in the given radix, if it is one. *)
Definition digit_val (radix : Z) (c : ascii) : option Z :=
  let n := Z.of_nat (nat_of_ascii c) in
  let d :=
    if (48 <=? n) && (n <=? 57) then Some (n - 48)
    else if (97 <=? n) && (n <=? 122) then Some (n - 87)
    else if (65 <=? n) && (n <=? 90) then Some (n - 55)
    else None in
  match d with
  | Some k => if k <? radix then Some k else None
  | None => None
  end.

(** The longest prefix of digits, read from the left; [None] while no digit
    has been seen. *)
Fixpoint read_digits (radix : Z) (acc : option Z) (s : string) : option Z :=
  match s with
  | String c s' =>
      match digit_val radix c with
      | Some d => read_digits radix (Some (default 0 acc * radix + d)) s'
      | None => acc
      end
  | EmptyString => acc
  end.

Definition strip_hex (s : string) : option string :=
  match s with
  | String "0" (String "x" s') | String "0" (String "X" s') => Some s'
  | _ => None
  end.

(** [parseInt(s)] for a string; [None] is [NaN]. *)
Definition parseInt_string (s : string) : option Z :=
  let s1 := skip_spaces s in
  let '(sign, s2) :=
    match s1 with
    | String "-" r => (-1, r)
    | String "+" r => (1, r)
    | _ => (1, s1)
    end in
  let mag :=
    match strip_hex s2 with
    | Some s3 => read_digits 16 None s3
    | None => read_digits 10 None s2
    end in
  (λ m, sign * m) <$> mag.

(** [parseInt(v)] converts its argument to text and reads the integer the
    text starts with.  [None] stands for both ways in which the callers get
    no integer: the result [NaN], and the TypeError that the conversion
    raises, which every caller catches with the same answer as for [NaN].
    A number below 10^21 in magnitude prints as its digits, which are read
    back; the model takes this for every number (from 10^21 on the text has
    an exponent), and the properties of the lookups are stated for safe
    integers. *)
Definition parseInt (h : gmap loc cell) (v : value) : option Z :=
  match v with
  | VNum z => Some z
  | _ =>
      match toString h v with
      | Ret s => parseInt_string s
      | Throw => None
      end
  end.

(** ** The operator [+] *)

(** The primitive value an operand of [+] stands for. *)
Definition toPrimitive (h : gmap loc cell) (v : value) : res value :=
  match v with
  | VRef _ => do s <- toString h v in Ret (VStr s)
  | _ => Ret v
  end.

(** The number a primitive value other than a string stands for; [None]
    is [NaN]. *)
Definition toNumber (v : value) : option Z :=
  match v with
  | VNull => Some 0
  | VBool b => Some (if b then 1 else 0)
  | VNum z => Some z
  | _ => None
  end.

(** [a + b]: concatenation as soon as one operand is text, addition of
    numbers otherwise. *)
Definition plus (h : gmap loc cell) (a b : value) : res value :=
  do pa <- toPrimitive h a in
  do pb <- toPrimitive h b in
  match pa, pb with
  | VStr _, _ | _, VStr _ =>
      do sa <- toString h pa in
      do sb <- toString h pb in
      Ret (VStr (sa +:+ sb))
  | _, _ =>
      Ret (match toNumber pa, toNumber pb with
           | Some x, Some y => VNum (x + y)
           | _, _ => VNaN
           end)
  end.

(** ** JSON documents *)

#[warnings="-register-all"]
Inductive json :=
  | JNull
  | JBool (b : bool)
  | JNum (z : Z)
  | JStr (s : string)
  | JArr (xs : list json)
  | JObj (kvs : list (string * json)).

(** What [localStorage] holds under a key: text that [JSON.parse] accepts,
    kept as the document it denotes, or text that it rejects (the empty
    string included, which [safeLocalStorageGet] never parses). *)
Inductive item :=
  | Parses (j : json)
  | Garbled.

Fixpoint mapJ {A} (f : A → res json) (xs : list A) : res (list json) :=
  match xs with
  | [] => Ret []
  | x :: xs' => do y <- f x in do ys <- mapJ f xs' in Ret (y :: ys)
  end.

Fixpoint fieldsJ (f : value → res (option json)) (kvs : list (string * value))
  : res (list (string * json)) :=
  match kvs with
  | [] => Ret []
  | (k, v) :: kvs' =>
      do j <- f v in
      do js <- fieldsJ f kvs' in
      Ret (match j with Some j' => (k, j') :: js | None => js end)
  end.

(** [JSON.stringify(v)]: [Ret None] is the result [undefined], [Throw] the
    TypeError raised on a cyclic structure.  A path of more references than
    the heap has cells passes through one of them twice. *)
Fixpoint stringify_fuel (fuel : nat) (h : gmap loc cell) (v : value)
  : res (option json) :=
  match v with
  | VUndef => Ret None
  | VNull | VNaN => Ret (Some JNull)
  | VBool b => Ret (Some (JBool b))
  | VNum z => Ret (Some (JNum z))
  | VStr s => Ret (Some (JStr s))
  | VRef l =>
      match fuel with
      | O => Throw
      | S fuel' =>
          match h !! l with
          | Some (CArr xs) =>
              do js <- mapJ (λ x, do j <- stringify_fuel fuel' h x in
                                  Ret (default JNull j)) xs in
              Ret (Some (JArr js))
          | Some (CObj f) =>
              do kvs <- fieldsJ (stringify_fuel fuel' h) (map_to_list f) in
              Ret (Some (JObj kvs))
          | None => Throw
          end
      end
  end.

Definition stringify (h : gmap loc cell) (v : value) : res (option json) :=
  stringify_fuel (S (size h)) h v.

(** [JSON.parse]: the document is built in the heap, every array and object
    in a cell of its own; of two members with one name the later stays. *)
Section parse_lists.
Variable parse_value : json → gmap loc cell → gmap loc cell * value.

Fixpoint parse_elems (js : list json) (h : gmap loc cell)
  : gmap loc cell * list value :=
  match js with
  | [] => (h, [])
  | j :: js' =>
      let '(h1, v) := parse_value j h in
      let '(h2, vs) := parse_elems js' h1 in
      (h2, v :: vs)
  end.

Fixpoint parse_members (kvs : list (string * json)) (h : gmap loc cell)
    (f : gmap string value) : gmap loc cell * gmap string value :=
  match kvs with
  | [] => (h, f)
  | (k, j) :: kvs' =>
      let '(h1, v) := parse_value j h in
      parse_members kvs' h1 (<[k := v]> f)
  end.
End parse_lists.

Fixpoint parse (j : json) (h : gmap loc cell) : gmap loc cell * value :=
  match j with
  | JNull => (h, VNull)
  | JBool b => (h, VBool b)
  | JNum z => (h, VNum z)
  | JStr s => (h, VStr s)
  | JArr js =>
      let '(h1, vs) := parse_elems parse js h in
      let l := fresh (dom h1) in
      (<[l := CArr vs]> h1, VRef l)
  | JObj kvs =>
      let '(h1, f) := parse_members parse kvs h ∅ in
      let l := fresh (dom h1) in
      (<[l := CObj f]> h1, VRef l)
  end.

(** ** Dates *)

(** What [new Date()] reads off the clock, in UTC: the month is counted
    from 1 to 12 and the day from 1 to 31. *)
Record Date := {
  year : Z;
  month : Z;
  day : Z;
  hours : Z;
  minutes : Z;
  seconds : Z;
  milliseconds : Z
}.

Definition digit (n : Z) : ascii := ascii_of_nat (48 + Z.to_nat (n mod 10)).

Definition pad2 (n : Z) : string :=
  String (digit (n / 10)) (String (digit n) EmptyString).

Definition pad3 (n : Z) : string := String (digit (n / 100)) (pad2 n).

Definition pad4 (n : Z) : string := String (digit (n / 1000)) (pad3 n).

Definition pad6 (n : Z) : string :=
  String (digit (n / 100000)) (String (digit (n / 10000)) (pad4 n)).

(** Four digits for the years 0 to 9999, a sign and six digits otherwise. *)
Definition year_string (y : Z) : string :=
  if (0 <=? y) && (y <=? 9999) then pad4 y
  else (if y <? 0 then "-" else "+") +:+ pad6 (Z.abs y).

Definition date_string (d : Date) : string :=
  year_string (year d) +:+ "-" +:+ pad2 (month d) +:+ "-" +:+ pad2 (day d).

(** [d.toISOString()] *)
Definition toISOString (d : Date) : string :=
  date_string d +:+ "T" +:+ pad2 (hours d) +:+ ":" +:+ pad2 (minutes d) +:+ ":"
  +:+ pad2 (seconds d) +:+ "." +:+ pad3 (milliseconds d) +:+ "Z".

(** [s.split(c)[0]] *)
Fixpoint split_head (c : ascii) (s : string) : string :=
  match s with
  | String a s' =>
      if Ascii.eqb a c then EmptyString else String a (split_head c s')
  | EmptyString => EmptyString
  end.

(** No character of [s] is [c]. *)
Fixpoint free_of (c : ascii) (s : string) : bool :=
  match s with
  | String a s' => negb (Ascii.eqb a c) && free_of c s'
  | EmptyString => true
  end.

(** What an operation reads from outside the store while it runs. *)
Record env := {
  now : Z;                  (* Date.now() *)
  random : Z;               (* Math.floor(Math.random() * 10000) *)
  clock : Date;             (* new Date() *)
  setItem_ok : string → bool; (* whether localStorage.setItem(key, _) returns *)
  removeItem_ok : string → bool (* whether localStorage.removeItem(key) returns *)
}.

(** ** Constants *)

Module STORAGE_KEYS.
Definition ARTICLES : string := "kcc_articles".
Definition USERS : string := "kcc_users".
End STORAGE_KEYS.

Module ARTICLE_STATUS.
Definition DRAFT : string := "draft".
Definition REVIEW : string := "review".
Definition PUBLISHED : string := "published".
(** [Object.values(ARTICLE_STATUS)] *)
Definition values : list value := [VStr DRAFT; VStr REVIEW; VStr PUBLISHED].
End ARTICLE_STATUS.

Module USER_ROLES.
Definition ADMIN : string := "admin".
Definition AUTHOR : string := "author".
Definition EDITOR : string := "editor".
Definition READER : string := "reader".
(** [Object.values(USER_ROLES)] *)
Definition values : list value :=
  [VStr ADMIN; VStr AUTHOR; VStr EDITOR; VStr READER].
End USER_ROLES.

(** ** Heap access used by the store *)

(** The elements of the array at [l]. *)
Definition arr (h : gmap loc cell) (l : loc) : list value :=
  match h !! l with
  | Some (CArr xs) => xs
  | _ => []
  end.

(** The own properties of the object [v], as a spread [{...v}] copies them. *)
Definition fields_of (h : gmap loc cell) (v : value) : gmap string value :=
  match v with
  | VRef l =>
      match h !! l with
      | Some (CObj f) => f
      | _ => ∅
      end
  | _ => ∅
  end.

(** [Array.isArray(v)], returning the array's location. *)
Definition isArray (h : gmap loc cell) (v : value) : option loc :=
  match v with
  | VRef l =>
      match h !! l with
      | Some (CArr _) => Some l
      | _ => None
      end
  | _ => None
  end.

(** [Object.assign(target, src)] on the object at [l]. *)
Definition assign (h : gmap loc cell) (l : loc) (src : gmap string value)
  : gmap loc cell :=
  match h !! l with
  | Some (CObj f) => <[l := CObj (src ∪ f)]> h
  | _ => h
  end.

(** [a.push(x)], [a.pop()], [a.splice(i, 1)], [a.splice(i, 0, x)] on the array
    at [l]. *)
Definition push (h : gmap loc cell) (l : loc) (x : value) : gmap loc cell :=
  <[l := CArr (arr h l ++ [x])]> h.

Definition pop (h : gmap loc cell) (l : loc) : gmap loc cell :=
  <[l := CArr (removelast (arr h l))]> h.

Definition splice_out (h : gmap loc cell) (l : loc) (i : nat) : gmap loc cell :=
  <[l := CArr (delete i (arr h l))]> h.

Definition splice_in (h : gmap loc cell) (l : loc) (i : nat) (x : value)
  : gmap loc cell :=
  <[l := CArr (take i (arr h l) ++ x :: drop i (arr h l))]> h.

(** [[...a]]: a new array with the elements of the one at [l]. *)
Definition copy_array (h : gmap loc cell) (l : loc) : gmap loc cell * loc :=
  let l' := fresh (dom h) in
  (<[l' := CArr (arr h l)]> h, l').

(** ** Validators *)

Module Validators.

Definition article_required : list string :=
  ["title"; "category"; "summary"; "content"; "author"; "authorId"; "status"].

Definition user_required : list string := ["id"; "name"; "email"; "role"].

(** [required.every(field => o.hasOwnProperty(field))] *)
Fixpoint hasRequired (h : gmap loc cell) (o : value) (required : list string)
  : res bool :=
  match required with
  | [] => Ret true
  | field :: rest =>
      do b <- hasOwnProperty h o field in
      if b then hasRequired h o rest else Ret false
  end.

Definition isValidArticle (h : gmap loc cell) (article : value) : res bool :=
  if negb (truthy article) || negb (typeof_object article) then Ret false
  else
    do hasReq <- hasRequired h article article_required in
    if negb hasReq then Ret false
    else
      do status <- getProp h article "status" in
      if negb (includes status ARTICLE_STATUS.values) then Ret false
      else
        do authorId <- getProp h article "authorId" in
        if negb (typeof_number authorId) then Ret false
        else Ret true.

Definition isValidUser (h : gmap loc cell) (user : value) : res bool :=
  if negb (truthy user) || negb (typeof_object user) then Ret false
  else
    do hasReq <- hasRequired h user user_required in
    if negb hasReq then Ret false
    else
      do role <- getProp h user "role" in
      if negb (includes role USER_ROLES.values) then Ret false
      else
        do id <- getProp h user "id" in
        if negb (typeof_number id) then Ret false
        else Ret true.

Definition allowed : list string :=
  ["title"; "category"; "image"; "summary"; "content";
   "status"; "views"; "engagement"; "publishDate"].

(** The loop of [sanitizeArticleUpdates] over the allow-list. *)
Fixpoint sanitize_loop (h : gmap loc cell) (updates : value)
    (keys : list string) (sanitized : gmap string value)
  : res (gmap string value) :=
  match keys with
  | [] => Ret sanitized
  | key :: rest =>
      do own <- hasOwnProperty h updates key in
      if own then
        do x <- getProp h updates key in
        sanitize_loop h updates rest (<[key := x]> sanitized)
      else sanitize_loop h updates rest sanitized
  end.

Definition sanitizeArticleUpdates (h : gmap loc cell) (updates : value)
  : res (gmap string value) :=
  sanitize_loop h updates allowed ∅.

End Validators.

(** ** StorageUtils *)

Module StorageUtils.

(** [safeLocalStorageGet(key, fallback)]: the fallback when the key is
    absent, holds the empty string or does not parse. *)
Definition safeLocalStorageGet (ls : gmap string item) (h : gmap loc cell)
    (key : string) (fallback : value) : gmap loc cell * value :=
  match ls !! key with
  | Some (Parses j) => parse j h
  | Some Garbled | None => (h, fallback)
  end.

(** [safeLocalStorageSet(key, value)]; [ok] tells whether [setItem]
    returns rather than raising. *)
Definition safeLocalStorageSet (ls : gmap string item) (h : gmap loc cell)
    (key : string) (v : value) (ok : bool) : gmap string item * bool :=
  match stringify h v with
  | Ret text =>
      if ok then
        (<[key := match text with Some j => Parses j | None => Garbled end]> ls,
         true)
      else (ls, false)
  | Throw => (ls, false)
  end.

(** The loop [while (existingIds.includes(newId)) newId++], which over the
    integers stops after at most as many rounds as there are ids.  The
    model is exact: on a double beyond 2^53 the sum is rounded and the
    increment can leave [newId] as it is. *)
Fixpoint bump (fuel : nat) (existingIds : list value) (newId : Z) : Z :=
  match fuel with
  | O => newId
  | S fuel' =>
      if includes (VNum newId) existingIds
      then bump fuel' existingIds (newId + 1)
      else newId
  end.

Definition generateUniqueId (timestamp random : Z) (existingIds : list value)
  : Z :=
  bump (List.length existingIds) existingIds (timestamp * 10000 + random).

End StorageUtils.

(** ** The bundled seed data *)

Module INITIAL_DATA.

Definition user (id : Z) (name email role avatar bio : string) (followers : Z)
  : cell :=
  CObj (list_to_map
    [("id", VNum id); ("name", VStr name); ("email", VStr email);
     ("role", VStr role); ("avatar", VStr avatar); ("bio", VStr bio);
     ("followers", VNum followers)]).

Definition article (id : Z) (title category image summary content author : string)
    (authorId : Z) (status publishDate : string) (views engagement : Z) : cell :=
  CObj (list_to_map
    [("id", VNum id); ("title", VStr title); ("category", VStr category);
     ("image", VStr image); ("summary", VStr summary);
     ("content", VStr content); ("author", VStr author);
     ("authorId", VNum authorId); ("status", VStr status);
     ("publishDate", VStr publishDate); ("views", VNum views);
     ("engagement", VNum engagement)]).

Definition lorem : string :=
  "Lorem ipsum dolor sit amet, consectetur adipiscing elit...".

(** Where the two arrays [INITIAL_DATA.users] and [INITIAL_DATA.articles]
    live. *)
Definition users : loc := 11%nat.
Definition articles : loc := 12%nat.

(** The heap once the script has evaluated the literal. *)
Definition cells : gmap loc cell :=
  list_to_map
    [(0%nat, user 1 "Priya Chatterjee" "priya@kcc.in" USER_ROLES.AUTHOR
               "https://i.pravatar.cc/150?img=1"
               "Covering Kolkata's heritage & urban development" 1243);
     (1%nat, user 2 "Arnab Sen" "arnab@kcc.in" USER_ROLES.AUTHOR
               "https://i.pravatar.cc/150?img=2"
               "Political correspondent & investigative journalist" 2156);
     (2%nat, user 3 "Moumita Roy" "moumita@kcc.in" USER_ROLES.EDITOR
               "https://i.pravatar.cc/150?img=3"
               "Managing Editor focusing on arts & culture" 876);
     (3%nat, user 4 "Arijit Mukherjee" "arijit@kcc.in" USER_ROLES.AUTHOR
               "https://i.pravatar.cc/150?img=4"
               "Food critic & cultural commentator" 3421);
     (4%nat, user 5 "Shreya Das" "shreya@kcc.in" USER_ROLES.AUTHOR
               "https://i.pravatar.cc/150?img=5"
               "Metro correspondent covering local governance" 987);
     (5%nat, user 6 "Rahul Bose" "rahul@kcc.in" USER_ROLES.AUTHOR
               "https://i.pravatar.cc/150?img=6"
               "Culinary economist analyzing food culture & business" 512);
     (6%nat, user 7 "Admin User" "admin@kcc.in" USER_ROLES.ADMIN
               "https://i.pravatar.cc/150?img=7" "Administrator" 0);
     (7%nat, article 1
               "The Resurrection of Park Street's Colonial Architecture"
               "Heritage"
               "https://images.unsplash.com/photo-1582510003544-4d00b7f74220?w=800"
               "How conservation efforts are bringing new life to Kolkata's iconic colonial buildings while preserving their historical essence."
               lorem "Priya Chatterjee" 1 ARTICLE_STATUS.PUBLISHED
               "2024-10-15" 1234 89);
     (8%nat, article 2
               "আড্ডা in the Digital Age: Can WhatsApp Replace the Chai Shop?"
               "আড্ডা"
               "https://images.unsplash.com/photo-1559827260-dc66d52bef19?w=800"
               "Exploring how Kolkata's beloved tradition of casual conversation is adapting to modern technology."
               lorem "Arnab Sen" 2 ARTICLE_STATUS.PUBLISHED
               "2024-10-14" 2156 234);
     (9%nat, article 3
               "Metro Extension Blues: Why South Kolkata Remains Underserved"
               "Metro" "/metro.png"
               "An investigation into the delays and challenges facing Kolkata's metro expansion plans."
               lorem "Rahul Bose" 6 ARTICLE_STATUS.PUBLISHED
               "2024-10-13" 876 156);
     (10%nat, article 4
               "মাছ-ভাত: The Soul Food Renaissance"
               "মাছ-ভাত"
               "https://images.unsplash.com/photo-1606491956689-2ea866880c84?w=800"
               "How young chefs are reinventing traditional Bengali fish and rice dishes for a new generation."
               lorem "Arijit Mukherjee" 4 ARTICLE_STATUS.PUBLISHED
               "2024-10-12" 3421 298);
     (users, CArr (VRef <$> [0; 1; 2; 3; 4; 5; 6]%nat));
     (articles, CArr (VRef <$> [7; 8; 9; 10]%nat))].

End INITIAL_DATA.

(** ** DATA_STORE *)

(** The object's two properties, the heap they point into, and the
    browser's [localStorage]. *)
Record store := {
  heap : gmap loc cell;
  articles : loc;                   (* this.articles *)
  users : loc;                      (* this.users *)
  localStorage : gmap string item
}.

Definition set_heap (st : store) (h : gmap loc cell) : store :=
  {| heap := h; articles := articles st; users := users st;
     localStorage := localStorage st |}.

Module DATA_STORE.

(** The object as the literal creates it, with two empty arrays. *)
Definition created (ls : gmap string item) : store :=
  {| heap := <[14%nat := CArr []]> (<[13%nat := CArr []]> INITIAL_DATA.cells);
     articles := 13%nat;
     users := 14%nat;
     localStorage := ls |}.

(** Both keys are written, whatever the outcome of the first write. *)
Definition saveToLocalStorage (st : store) (e : env) : store * bool :=
  let '(ls1, articlesSuccess) :=
    StorageUtils.safeLocalStorageSet (localStorage st) (heap st)
      STORAGE_KEYS.ARTICLES (VRef (articles st))
      (setItem_ok e STORAGE_KEYS.ARTICLES) in
  let '(ls2, usersSuccess) :=
    StorageUtils.safeLocalStorageSet ls1 (heap st)
      STORAGE_KEYS.USERS (VRef (users st))
      (setItem_ok e STORAGE_KEYS.USERS) in
  ({| heap := heap st; articles := articles st; users := users st;
      localStorage := ls2 |},
   articlesSuccess && usersSuccess).

(** What was loaded is kept if it is an array, and replaced by the seed
    array otherwise. *)
Definition loadFromLocalStorage (st : store) : store :=
  let '(h1, loadedArticles) :=
    StorageUtils.safeLocalStorageGet (localStorage st) (heap st)
      STORAGE_KEYS.ARTICLES (VRef INITIAL_DATA.articles) in
  let '(h2, loadedUsers) :=
    StorageUtils.safeLocalStorageGet (localStorage st) h1
      STORAGE_KEYS.USERS (VRef INITIAL_DATA.users) in
  {| heap := h2;
     articles := default INITIAL_DATA.articles (isArray h2 loadedArticles);
     users := default INITIAL_DATA.users (isArray h2 loadedUsers);
     localStorage := localStorage st |}.

(** Nothing in [loadFromLocalStorage] escapes its own handler, so the
    handler of [init] is never entered. *)
Definition init (st : store) : store := loadFromLocalStorage st.

Definition getArticles (st : store) : store * value :=
  let '(h, l) := copy_array (heap st) (articles st) in
  (set_heap st h, VRef l).

Definition getUsers (st : store) : store * value :=
  let '(h, l) := copy_array (heap st) (users st) in
  (set_heap st h, VRef l).

(** [a => a.id === n] *)
Definition id_is (h : gmap loc cell) (n : Z) (a : value) : res bool :=
  do i <- getProp h a "id" in Ret (bool_decide (i = VNum n)).

Definition getArticleById (st : store) (id : value) : value :=
  catch
    (match parseInt (heap st) id with
     | None => Ret VNull
     | Some articleId =>
         do found <- find (id_is (heap st) articleId)
                          (arr (heap st) (articles st)) in
         Ret (if truthy found then found else VNull)
     end)
    VNull.

(** [a => a.k === x] *)
Definition field_is (h : gmap loc cell) (k : string) (x : value) (a : value)
  : res bool :=
  do i <- getProp h a k in Ret (strict_equal i x).

(** The array a [filter] or the literal [[]] creates. *)
Definition new_array (st : store) (xs : list value) : store * value :=
  let l := fresh (dom (heap st)) in
  (set_heap st (<[l := CArr xs]> (heap st)), VRef l).

Definition getArticlesByAuthor (st : store) (authorId : value) : store * value :=
  new_array st
    (catch
       (match parseInt (heap st) authorId with
        | None => Ret []
        | Some parsedId =>
            filterR (field_is (heap st) "authorId" (VNum parsedId))
              (arr (heap st) (articles st))
        end)
       []).

Definition getArticlesByStatus (st : store) (status : value) : store * value :=
  new_array st
    (if negb (includes status ARTICLE_STATUS.values) then []
     else
       catch
         (filterR (field_is (heap st) "status" status)
            (arr (heap st) (articles st)))
         []).

Definition getUserById (st : store) (id : value) : value :=
  catch
    (match parseInt (heap st) id with
     | None => Ret VNull
     | Some userId =>
         do found <- find (id_is (heap st) userId) (arr (heap st) (users st)) in
         Ret (if truthy found then found else VNull)
     end)
    VNull.

(** The case mapping and the trimming of the language are taken as they
    are: two functions on text. *)
Section getUserByEmail.
Variable toLowerCase : string → string.
Variable trim : string → string.

(** [u => u.email.toLowerCase() === normalizedEmail]: only text has the
    method. *)
Definition email_is (h : gmap loc cell) (normalizedEmail : string) (u : value)
  : res bool :=
  do email <- getProp h u "email" in
  match email with
  | VStr s => Ret (String.eqb (toLowerCase s) normalizedEmail)
  | _ => Throw
  end.

Definition getUserByEmail (st : store) (email : value) : value :=
  match email with
  | VStr s =>
      if negb (truthy email) then VNull
      else
        let normalizedEmail := trim (toLowerCase s) in
        catch
          (do found <- find (email_is (heap st) normalizedEmail)
                         (arr (heap st) (users st)) in
           Ret (if truthy found then found else VNull))
          VNull
  | _ => VNull
  end.

End getUserByEmail.

(** The literal [{id, views: 0, engagement: 0, publishDate: null,
    ...articleData, createdAt}]: later members replace earlier ones. *)
Definition newArticle (newId : Z) (articleData : gmap string value)
    (createdAt : string) : gmap string value :=
  <["createdAt" := VStr createdAt]>
    (articleData ∪
       <["publishDate" := VNull]>
         (<["engagement" := VNum 0]>
            (<["views" := VNum 0]> {["id" := VNum newId]}))).

(** Returns the new record, or [null]; whatever raises does so before the
    store is touched. *)
Definition addArticle (st : store) (e : env) (articleData : value)
  : store * value :=
  match Validators.isValidArticle (heap st) articleData with
  | Throw | Ret false => (st, VNull)
  | Ret true =>
      match mapR (λ a, getProp (heap st) a "id") (arr (heap st) (articles st)) with
      | Throw => (st, VNull)
      | Ret existingIds =>
          let newId :=
            StorageUtils.generateUniqueId (now e) (random e) existingIds in
          let l := fresh (dom (heap st)) in
          let h1 :=
            <[l := CObj (newArticle newId (fields_of (heap st) articleData)
                           (toISOString (clock e)))]> (heap st) in
          let h2 := push h1 (articles st) (VRef l) in
          let '(st', saved) := saveToLocalStorage (set_heap st h2) e in
          if saved then (st', VRef l)
          else (set_heap st' (pop (heap st') (articles st')), VNull)
      end
  end.

(** The article that [getArticleById] returns is an object or [null].  When
    the check of the updated record raises, the handler returns [false] and
    the record stays as assigned. *)
Definition updateArticle (st : store) (e : env) (articleId updates : value)
  : store * bool :=
  match parseInt (heap st) articleId with
  | None => (st, false)
  | Some parsedId =>
      match getArticleById st (VNum parsedId) with
      | VRef l =>
          match Validators.sanitizeArticleUpdates (heap st) updates with
          | Throw => (st, false)
          | Ret sanitizedUpdates =>
              let backup := fields_of (heap st) (VRef l) in
              let h1 :=
                assign (assign (heap st) l sanitizedUpdates) l
                  {["updatedAt" := VStr (toISOString (clock e))]} in
              match Validators.isValidArticle h1 (VRef l) with
              | Throw => (set_heap st h1, false)
              | Ret false => (set_heap st (assign h1 l backup), false)
              | Ret true =>
                  let '(st', saved) := saveToLocalStorage (set_heap st h1) e in
                  if saved then (st', true)
                  else (set_heap st' (assign (heap st') l backup), false)
              end
          end
      | _ => (st, false)
      end
  end.

(** The message logged after a successful save is left out; building it
    converts the id and the old status to text, which raises only for an
    object that hides [toString]. *)
Definition updateArticleStatus (st : store) (e : env)
    (articleId newStatus : value) : store * bool :=
  if negb (includes newStatus ARTICLE_STATUS.values) then (st, false)
  else
    match getArticleById st articleId with
    | VRef l =>
        let oldStatus := catch (getProp (heap st) (VRef l) "status") VUndef in
        let h1 := setProp (heap st) l "status" newStatus in
        let h2 :=
          if bool_decide (newStatus = VStr ARTICLE_STATUS.PUBLISHED)
             && negb (truthy (catch (getProp h1 (VRef l) "publishDate") VUndef))
          then setProp h1 l "publishDate"
                 (VStr (split_head "T" (toISOString (clock e))))
          else h1 in
        let '(st', saved) := saveToLocalStorage (set_heap st h2) e in
        if saved then (st', true)
        else (set_heap st' (setProp (heap st') l "status" oldStatus), false)
    | _ => (st, false)
    end.

Definition deleteArticle (st : store) (e : env) (articleId : value)
  : store * bool :=
  match parseInt (heap st) articleId with
  | None => (st, false)
  | Some parsedId =>
      match findIndex (id_is (heap st) parsedId) (arr (heap st) (articles st)) with
      | Throw | Ret None => (st, false)
      | Ret (Some index) =>
          let deletedArticle :=
            default VUndef (arr (heap st) (articles st) !! index) in
          let h1 := splice_out (heap st) (articles st) index in
          let '(st', saved) := saveToLocalStorage (set_heap st h1) e in
          if saved then (st', true)
          else
            (set_heap st'
               (splice_in (heap st') (articles st') index deletedArticle),
             false)
      end
  end.

(** [xs.filter(a => a.k === x).length] *)
Definition count (h : gmap loc cell) (k : string) (x : value) (xs : list value)
  : res value :=
  do ys <- filterR (field_is h k x) xs in Ret (VNum (Z.of_nat (List.length ys))).

(** [xs.reduce((sum, a) => sum + (a.k || 0), 0)] *)
Definition total (h : gmap loc cell) (k : string) (xs : list value) : res value :=
  reduce (λ sum a, do x <- getProp h a k in
                   plus h sum (if truthy x then x else VNum 0))
    xs (VNum 0).

Definition zero_stats : gmap string value :=
  list_to_map
    [("totalArticles", VNum 0); ("published", VNum 0); ("review", VNum 0);
     ("draft", VNum 0); ("totalViews", VNum 0); ("totalEngagement", VNum 0);
     ("totalAuthors", VNum 0)].

(** The members of the literal are evaluated in order; the first that
    raises discards them all. *)
Definition getStats (st : store) : store * value :=
  let h := heap st in
  let stored := arr h (articles st) in
  let stats :=
    catch
      (do published <- count h "status" (VStr ARTICLE_STATUS.PUBLISHED) stored in
       do review <- count h "status" (VStr ARTICLE_STATUS.REVIEW) stored in
       do draft <- count h "status" (VStr ARTICLE_STATUS.DRAFT) stored in
       do totalViews <- total h "views" stored in
       do totalEngagement <- total h "engagement" stored in
       do totalAuthors <-
         count h "role" (VStr USER_ROLES.AUTHOR) (arr h (users st)) in
       Ret (list_to_map
              [("totalArticles", VNum (Z.of_nat (List.length stored)));
               ("published", published); ("review", review); ("draft", draft);
               ("totalViews", totalViews);
               ("totalEngagement", totalEngagement);
               ("totalAuthors", totalAuthors)]))
      zero_stats in
  let l := fresh (dom h) in
  (set_heap st (<[l := CObj stats]> h), VRef l).

(** [confirmed] is the answer to the dialog.  The two removals are inside
    the [try]: when one of them raises, the [catch] answers [false] with the
    collections as they are, and a key removed before stays removed.  The
    outcome of saving is not looked at. *)
Definition clearAllData (st : store) (e : env) (confirmed : bool)
  : store * bool :=
  if negb confirmed then (st, false)
  else if negb (removeItem_ok e STORAGE_KEYS.ARTICLES) then (st, false)
  else if negb (removeItem_ok e STORAGE_KEYS.USERS) then
    ({| heap := heap st; articles := articles st; users := users st;
        localStorage := delete STORAGE_KEYS.ARTICLES (localStorage st) |},
     false)
  else
    let ls :=
      delete STORAGE_KEYS.USERS
        (delete STORAGE_KEYS.ARTICLES (localStorage st)) in
    let '(h1, newArticles) := copy_array (heap st) INITIAL_DATA.articles in
    let '(h2, newUsers) := copy_array h1 INITIAL_DATA.users in
    let '(st', _) :=
      saveToLocalStorage
        {| heap := h2; articles := newArticles; users := newUsers;
           localStorage := ls |} e in
    (st', true).

Definition exportData (st : store) (e : env) : store * value :=
  let l := fresh (dom (heap st)) in
  (set_heap st
     (<[l := CObj (list_to_map
              [("articles", VRef (articles st));
               ("users", VRef (users st));
               ("exportedAt", VStr (toISOString (clock e)));
               ("version", VStr "1.0")])]> (heap st)),
   VRef l).

(** [xs.every(p)] for a value that may not be an array, in which case the
    call raises. *)
Definition every_of (h : gmap loc cell) (p : value → res bool) (xs : value)
  : res bool :=
  match isArray h xs with
  | Some l => every p (arr h l)
  | None => Throw
  end.

(** The two backups are new arrays; the imported arrays are the caller's
    own. *)
Definition importData (st : store) (e : env) (data : value) : store * bool :=
  let h := heap st in
  let dataArticles := catch (getProp h data "articles") VUndef in
  let dataUsers := catch (getProp h data "users") VUndef in
  if negb (truthy data) || negb (truthy dataArticles) || negb (truthy dataUsers)
  then (st, false)
  else
    match every_of h (Validators.isValidArticle h) dataArticles with
    | Throw => (st, false)
    | Ret articlesValid =>
        match every_of h (Validators.isValidUser h) dataUsers with
        | Throw => (st, false)
        | Ret usersValid =>
            if negb articlesValid || negb usersValid then (st, false)
            else
              let '(h1, backupArticles) := copy_array h (articles st) in
              let '(h2, backupUsers) := copy_array h1 (users st) in
              let imported :=
                {| heap := h2;
                   articles := default (articles st) (isArray h dataArticles);
                   users := default (users st) (isArray h dataUsers);
                   localStorage := localStorage st |} in
              let '(st', saved) := saveToLocalStorage imported e in
              if saved then (st', true)
              else
                ({| heap := heap st'; articles := backupArticles;
                    users := backupUsers; localStorage := localStorage st' |},
                 false)
        end
    end.

End DATA_STORE.

(** ** DataManager (home.js), as far as it reads the store *)

Module DataManager.

Definition default_avatar : string := "https://i.pravatar.cc/150?img=1".

(** [user?.avatar || default] *)
Definition getUserAvatar (st : store) (authorId : value) : value :=
  let user := DATA_STORE.getUserById st authorId in
  catch
    (do avatar <-
       match user with
       | VUndef | VNull => Ret VUndef
       | _ => getProp (heap st) user "avatar"
       end in
     Ret (if truthy avatar then avatar else VStr default_avatar))
    (VStr default_avatar).


End DataManager.

(** ** The write operations as calls *)

Inductive call :=
  | AddArticle (articleData : value)
  | UpdateArticle (articleId updates : value)
  | UpdateArticleStatus (articleId newStatus : value)
  | DeleteArticle (articleId : value)
  | ImportData (data : value).

(** The state a call leaves and whether it reports success ([addArticle]
    reports it by returning the record rather than [null]). *)
Definition run (st : store) (e : env) (c : call) : store * bool :=
  match c with
  | AddArticle articleData =>
      let '(st', r) := DATA_STORE.addArticle st e articleData in (st', truthy r)
  | UpdateArticle articleId updates =>
      DATA_STORE.updateArticle st e articleId updates
  | UpdateArticleStatus articleId newStatus =>
      DATA_STORE.updateArticleStatus st e articleId newStatus
  | DeleteArticle articleId => DATA_STORE.deleteArticle st e articleId
  | ImportData data => DATA_STORE.importData st e data
  end.

(** The calls that change a record where it lies, rather than the
    membership of a collection. *)
Definition edits_in_place (c : call) : bool :=
  match c with
  | UpdateArticle _ _ | UpdateArticleStatus _ _ => true
  | _ => false
  end.

(** The states the store can be in: after its start on any content of
    [localStorage], and after any write operation from there. *)
Inductive reachable : store → Prop :=
  | reachable_init ls : reachable (DATA_STORE.init (DATA_STORE.created ls))
  | reachable_run st e c : reachable st → reachable (run st e c).1.

(** ** Notions used to state the properties *)

Definition is_array (h : gmap loc cell) (l : loc) : Prop :=
  ∃ xs, h !! l = Some (CArr xs).

(** Both properties of the store point to arrays. *)
Definition store_wf (st : store) : Prop :=
  is_array (heap st) (articles st) ∧ is_array (heap st) (users st).

(** The text under [key] is the serialization of the array at [l]. *)
Definition persisted (st : store) (key : string) (l : loc) : Prop :=
  ∃ j, stringify (heap st) (VRef l) = Ret (Some j)
       ∧ localStorage st !! key = Some (Parses j).

(** The in-memory collections and the persisted collections agree. *)
Definition in_sync (st : store) : Prop :=
  persisted st STORAGE_KEYS.ARTICLES (articles st)
  ∧ persisted st STORAGE_KEYS.USERS (users st).

(** Every cell that existed in [st] is unchanged in [st'] and both
    collections are arrays of the same elements. *)
Definition same_collections (st st' : store) : Prop :=
  heap st ⊆ heap st'
  ∧ heap st' !! articles st' = heap st !! articles st
  ∧ heap st' !! users st' = heap st !! users st.

(** Both collections are arrays and every stored article passes the shape
    check. *)
Definition articles_valid (st : store) : Prop :=
  store_wf st
  ∧ Forall (λ a, Validators.isValidArticle (heap st) a = Ret true)
      (arr (heap st) (articles st)).

(** The ids at or above [n], which is what the loop of [generateUniqueId]
    has yet to step over. *)
Definition id_from (n : Z) (v : value) : bool :=
  match v with
  | VNum z => n <=? z
  | _ => false
  end.

(** The condition under which [updateArticleStatus] fills in the date. *)
Definition auto_publishes (newStatus : value) (f : gmap string value) : bool :=
  bool_decide (newStatus = VStr ARTICLE_STATUS.PUBLISHED)
  && negb (truthy (default VUndef (f !! "publishDate"))).

(** The record [updateArticleStatus] leaves, given what it found and whether
    saving succeeded. *)
Definition status_result (newStatus : value) (f : gmap string value)
    (today : string) (saved : bool) : gmap string value :=
  let f1 :=
    if auto_publishes newStatus f
    then <["publishDate" := VStr today]> (<["status" := newStatus]> f)
    else <["status" := newStatus]> f in
  if saved then f1 else <["status" := default VUndef (f !! "status")]> f1.

(** The shape check on the own properties of a record. *)
Definition article_fields_valid (f : gmap string value) : res bool :=
  match f !! "hasOwnProperty" with
  | Some _ => Throw
  | None =>
      Ret (forallb (λ k, bool_decide (is_Some (f !! k)))
             Validators.article_required
           && includes (default VUndef (f !! "status")) ARTICLE_STATUS.values
           && typeof_number (default VUndef (f !! "authorId")))
  end.

(** The record after [Object.assign(article, sanitizedUpdates, {updatedAt})]. *)
Definition update_applied (f sanitized : gmap string value) (updatedAt : string)
  : gmap string value :=
  {["updatedAt" := VStr updatedAt]} ∪ (sanitized ∪ f).

Definition is_digit (c : ascii) : bool :=
  (Nat.leb 48 (nat_of_ascii c) && Nat.leb (nat_of_ascii c) 57)%bool.

(** The form YYYY-MM-DD. *)
Definition is_YYYY_MM_DD (s : string) : bool :=
  match s with
  | String y1 (String y2 (String y3 (String y4 (String "-"
      (String m1 (String m2 (String "-" (String d1 (String d2 EmptyString)))))))))
    => is_digit y1 && is_digit y2 && is_digit y3 && is_digit y4
       && is_digit m1 && is_digit m2 && is_digit d1 && is_digit d2
  | _ => false
  end.

(** The number a digit stands for. *)
Definition digit_of (c : ascii) : Z := Z.of_nat (nat_of_ascii c) - 48.

(** The year, the month and the day that a text of the form YYYY-MM-DD
    names; no other text names a date. *)
Definition read_YYYY_MM_DD (s : string) : option (Z * Z * Z) :=
  match s with
  | String y1 (String y2 (String y3 (String y4 (String _
      (String m1 (String m2 (String _ (String d1 (String d2 _)))))))))
    => if is_YYYY_MM_DD s then
         Some (1000 * digit_of y1 + 100 * digit_of y2 + 10 * digit_of y3
               + digit_of y4,
               10 * digit_of m1 + digit_of m2,
               10 * digit_of d1 + digit_of d2)
       else None
  | _ => None
  end.

(** The integers that a number of the program holds exactly, each with a
    text of digits of its own: [Number.MIN_SAFE_INTEGER] to
    [Number.MAX_SAFE_INTEGER]. *)
Definition safe_integer (n : Z) : Prop := - (2 ^ 53 - 1) ≤ n ≤ 2 ^ 53 - 1.

(** ** Notions used to state the properties of the readers *)

(** The first element of [xs] whose [id] is the number [n] is the record
    at [l]. *)
Definition first_with_id (h : gmap loc cell) (xs : list value) (n : Z) (l : loc)
  : Prop :=
  ∃ i f, xs !! i = Some (VRef l) ∧ h !! l = Some (CObj f)
         ∧ f !! "id" = Some (VNum n)
         ∧ ∀ j y, (j < i)%nat → xs !! j = Some y →
                  DATA_STORE.id_is h n y = Ret false.

(** What [getArticleById] and [getUserById] compute on their collection. *)
Definition lookup_result (st : store) (xs : list value) (id : value) : value :=
  catch
    (match parseInt (heap st) id with
     | None => Ret VNull
     | Some n =>
         do found <- find (DATA_STORE.id_is (heap st) n) xs in
         Ret (if truthy found then found else VNull)
     end)
    VNull.

(** The articles in [xs] all yield an [id], and no two the same. *)
Definition ids_distinct (h : gmap loc cell) (xs : list value) : Prop :=
  ∃ ids, mapR (λ a, getProp h a "id") xs = Ret ids ∧ NoDup ids.

(** [v] is a plain object with the own properties [f]. *)
Definition plain_object (h : gmap loc cell) (v : value) (f : gmap string value)
  : Prop :=
  ∃ l, v = VRef l ∧ h !! l = Some (CObj f).

(** The values that JSON text carries as they are. *)
Definition json_stable (v : value) : bool :=
  match v with
  | VNull | VBool _ | VNum _ | VStr _ => true
  | _ => false
  end.

(** A record all of whose properties hold such values. *)
Definition flat_record (h : gmap loc cell) (v : value) : Prop :=
  ∃ f, plain_object h v f ∧ map_Forall (λ _ x, json_stable x = true) f.

(** [v'] in [h'] is a record with the properties of [v] in [h]. *)
Definition same_record (h h' : gmap loc cell) (v v' : value) : Prop :=
  ∃ f, plain_object h v f ∧ plain_object h' v' f.

(** The document of a value that JSON carries as it is. *)
Definition to_json (v : value) : json :=
  match v with
  | VBool b => JBool b
  | VNum z => JNum z
  | VStr s => JStr s
  | _ => JNull
  end.

(** The document of a record of such values. *)
Definition record_json (f : gmap string value) : json :=
  JObj (prod_map id to_json <$> map_to_list f).

(** [ys] are the elements of [xs] whose property [k] is [x], in their
    order; all of them once no element of [xs] is [null] or [undefined]. *)
Definition selects (h : gmap loc cell) (k : string) (x : value)
    (xs ys : list value) : Prop :=
  ys `sublist_of` xs
  ∧ Forall (λ y, getProp h y k = Ret x) ys
  ∧ (Forall (λ a, a ≠ VUndef ∧ a ≠ VNull) xs →
     ys = filter (λ a, getProp h a k = Ret x) xs).

(** The call [r] on [st] returned a new array holding [ys] and changed
    nothing else. *)
Definition returns_new_array (st : store) (r : store * value)
    (ys : list value) : Prop :=
  ∃ l, r = (set_heap st (<[l := CArr ys]> (heap st)), VRef l)
       ∧ heap st !! l = None.



(** The object [getStats] returns. *)
Definition stats_of (st : store) : gmap string value :=
  fields_of (heap (DATA_STORE.getStats st).1) (DATA_STORE.getStats st).2.

(** How many elements of [xs] have [x] as their property [k]. *)
Definition count_of (h : gmap loc cell) (k : string) (x : value)
    (xs : list value) : Z :=
  Z.of_nat (List.length (filter (λ a, getProp h a k = Ret x) xs)).

(** The two arrays of the seed data exist. *)
Definition seed_present (h : gmap loc cell) : Prop :=
  is_array h INITIAL_DATA.articles ∧ is_array h INITIAL_DATA.users.

(** Every stored user passes the shape check. *)
Definition users_valid (st : store) : Prop :=
  Forall (λ u, Validators.isValidUser (heap st) u = Ret true)
    (arr (heap st) (users st)).

(** A value other than an object or an array. *)
Definition is_primitive (v : value) : bool :=
  match v with
  | VRef _ => false
  | _ => true
  end.

(** Text other than the empty string. *)
Definition is_text (v : value) : bool :=
  match v with
  | VStr s => negb (String.eqb s EmptyString)
  | _ => false
  end.

(** ** Concrete runs *)

Module Scenario.

(** The store after its first start in a browser with empty storage. *)
Definition first_run : store := DATA_STORE.init (DATA_STORE.created ∅).

(** A caller evaluating an object literal. *)
Definition literal (st : store) (f : gmap string value) : store * value :=
  let l := fresh (dom (heap st)) in
  (set_heap st (<[l := CObj f]> (heap st)), VRef l).

Definition noon : Date :=
  {| year := 2024; month := 10; day := 20; hours := 12; minutes := 0;
     seconds := 0; milliseconds := 0 |}.

Definition env_with (t : Z) (ok : string → bool) : env :=
  {| now := t; random := 4712; clock := noon; setItem_ok := ok;
     removeItem_ok := λ _, true |}.

(** Three moments a minute apart: both writes succeed; only the articles
    write succeeds; none does. *)
Definition all_ok : env := env_with 1729425600000 (λ _, true).
Definition users_full : env :=
  env_with 1729425660000 (λ k, bool_decide (k = STORAGE_KEYS.ARTICLES)).
Definition full : env := env_with 1729425720000 (λ _, false).


(** Storage that lets nothing be removed, and storage that lets only the
    articles key be removed; writes succeed. *)
Definition no_removal : env :=
  {| now := 1729425780000; random := 4712; clock := noon;
     setItem_ok := λ _, true; removeItem_ok := λ _, false |}.
Definition one_removal : env :=
  {| now := 1729425840000; random := 4712; clock := noon;
     setItem_ok := λ _, true;
     removeItem_ok := λ k, bool_decide (k = STORAGE_KEYS.ARTICLES) |}.


(** The text of the digit 2 after a no-break space (U+00A0). *)
Definition nbsp_2 : string := String "194" (String "160" "2").

(** A caller's array [[2, {toString: 1}]]: the object in it has no text. *)
Definition with_pair : store :=
  let '(st, hidden) := literal first_run {[ "toString" := VNum 1 ]} in
  set_heap st (<[fresh (dom (heap st)) := CArr [VNum 2; hidden]]> (heap st)).
Definition pair_ref : value :=
  VRef (fresh (dom (heap (literal first_run {[ "toString" := VNum 1 ]}).1))).

Definition draft : gmap string value :=
  list_to_map
    [("title", VStr "Tram lines"); ("category", VStr "Metro");
     ("summary", VStr "A short history"); ("content", VStr "...");
     ("author", VStr "Shreya Das"); ("authorId", VNum 5);
     ("status", VStr "draft")].

(** The caller's draft, and the store once it has been added with both
    writes succeeding. *)
Definition with_draft : store := (literal first_run draft).1.
Definition draft_ref : value := (literal first_run draft).2.
Definition synced : store := (run with_draft all_ok (AddArticle draft_ref)).1.

(** Storage left behind with an article that has only a title. *)
Definition stale_storage : gmap string item :=
  {[ STORAGE_KEYS.ARTICLES :=
       Parses (JArr [JObj [("title", JStr "Untitled")]]) ]}.
Definition stale_run : store := DATA_STORE.init (DATA_STORE.created stale_storage).

(** A caller's article that brings an id, a view count and a creation
    time of its own. *)
Definition forged : gmap string value :=
  <["id" := VNum 1]>
    (<["views" := VNum 5]> (<["createdAt" := VStr "1999-01-01"]> draft)).
Definition with_forged : store := (literal first_run forged).1.
Definition forged_ref : value := (literal first_run forged).2.

(** An import whose second article has no content. *)
Definition incomplete : gmap string value := delete "content" draft.
Definition payload_cells : gmap loc cell :=
  <[19%nat := CObj (list_to_map
               [("articles", VRef 17%nat); ("users", VRef 18%nat)])]>
    (<[18%nat := CArr [VRef 0%nat]]>
       (<[17%nat := CArr [VRef 7%nat; VRef 16%nat]]>
          (<[16%nat := CObj incomplete]> (heap with_draft)))).
Definition with_payload : store := set_heap with_draft payload_cells.
Definition payload_ref : value := VRef 19%nat.

(** The caller of the sanitization example of the specification. *)
Definition updates : gmap string value :=
  list_to_map [("id", VNum 999); ("evil", VStr "x"); ("title", VStr "New")].
Definition with_updates : store := (literal first_run updates).1.
Definition updates_ref : value := (literal first_run updates).2.

(** A caller changing the title and attaching an image to the draft. *)
Definition retitle : gmap string value :=
  list_to_map [("title", VStr "New"); ("image", VStr "/tram.png")].
Definition with_retitle : store := (literal synced retitle).1.
Definition retitle_ref : value := (literal synced retitle).2.

(** The id the draft received and the cell it was stored in. *)
Definition draft_id : Z := 17294256000004712.
Definition draft_loc : loc := 16%nat.

(** Storage left behind with [null] where an article should be. *)
Definition null_storage : gmap string item :=
  {[ STORAGE_KEYS.ARTICLES := Parses (JArr [JNull]) ]}.
Definition null_run : store := DATA_STORE.init (DATA_STORE.created null_storage).

(** What [exportData] hands out, to be given back to [importData]. *)
Definition exported : store * value := DATA_STORE.exportData synced all_ok.

(** Storage left behind with a view count that is text. *)
Definition text_storage : gmap string item :=
  {[ STORAGE_KEYS.ARTICLES :=
       Parses (JArr [JObj [("views", JStr "12")]; JObj [("views", JNum 3)]]) ]}.
Definition text_run : store := DATA_STORE.init (DATA_STORE.created text_storage).

End Scenario.

(** * Properties *)

(** ** The heap helpers *)

Lemma arr_insert_eq (h : gmap loc cell) l xs : arr (<[l := CArr xs]> h) l = xs.
Proof. unfold arr. by rewrite lookup_insert_eq. Qed.

Lemma arr_insert_ne (h : gmap loc cell) l l' c :
  l ≠ l' → arr (<[l := c]> h) l' = arr h l'.
Proof. intros. unfold arr. by rewrite lookup_insert_ne. Qed.

Lemma arr_is_array (h : gmap loc cell) l xs :
  h !! l = Some (CArr xs) → arr h l = xs.
Proof. intros H. unfold arr. by rewrite H. Qed.

Lemma fresh_not_allocated (h : gmap loc cell) : h !! fresh (dom h) = None.
Proof. apply not_elem_of_dom, is_fresh. Qed.

Lemma fresh_ne (h : gmap loc cell) l c : h !! l = Some c → fresh (dom h) ≠ l.
Proof. intros H E. rewrite <- E, fresh_not_allocated in H. discriminate. Qed.

Lemma insert_fresh_subseteq (h : gmap loc cell) c :
  h ⊆ <[fresh (dom h) := c]> h.
Proof. apply insert_subseteq, fresh_not_allocated. Qed.

Lemma removelast_snoc {A} (xs : list A) x : removelast (xs ++ [x]) = xs.
Proof. apply removelast_last. Qed.

Lemma splice_roundtrip {A} (xs : list A) i x :
  xs !! i = Some x → take i (delete i xs) ++ x :: drop i (delete i xs) = xs.
Proof.
  revert i. induction xs as [|y ys IH]; intros [|i] H; simplify_eq/=.
  - reflexivity.
  - f_equal. by apply IH.
Qed.

(** ** Persisting *)

Lemma stringify_ref h l t : stringify h (VRef l) = Ret t → ∃ j, t = Some j.
Proof.
  unfold stringify. simpl. destruct (h !! l) as [[f|xs]|]; [| |done].
  - destruct (fieldsJ _ _); simpl; intros; simplify_eq; eauto.
  - destruct (mapJ _ _); simpl; intros; simplify_eq; eauto.
Qed.

Lemma save_success st e st' :
  DATA_STORE.saveToLocalStorage st e = (st', true) → in_sync st'.
Proof.
  unfold DATA_STORE.saveToLocalStorage, StorageUtils.safeLocalStorageSet.
  destruct (stringify (heap st) (VRef (articles st))) as [ta|] eqn:Ha;
    destruct (stringify (heap st) (VRef (users st))) as [tu|] eqn:Hu;
    destruct (setItem_ok e STORAGE_KEYS.ARTICLES),
             (setItem_ok e STORAGE_KEYS.USERS);
    simpl; intros; simplify_eq.
  destruct (stringify_ref _ _ _ Ha) as [ja ->].
  destruct (stringify_ref _ _ _ Hu) as [ju ->].
  split.
  - exists ja. split; [done|]. cbn [localStorage].
    rewrite lookup_insert_ne; [|done]. apply lookup_insert_eq.
  - exists ju. split; [done|]. cbn [localStorage]. apply lookup_insert_eq.
Qed.

Lemma save_nothing_written st e :
  setItem_ok e STORAGE_KEYS.ARTICLES = false →
  setItem_ok e STORAGE_KEYS.USERS = false →
  localStorage (DATA_STORE.saveToLocalStorage st e).1 = localStorage st.
Proof.
  intros Ha Hu.
  unfold DATA_STORE.saveToLocalStorage, StorageUtils.safeLocalStorageSet.
  rewrite Ha, Hu.
  by destruct (stringify _ (VRef (articles st))), (stringify _ (VRef (users st))).
Qed.

Lemma save_shape st e :
  ∃ ls b, DATA_STORE.saveToLocalStorage st e =
          ({| heap := heap st; articles := articles st; users := users st;
              localStorage := ls |}, b).
Proof.
  unfold DATA_STORE.saveToLocalStorage.
  destruct (StorageUtils.safeLocalStorageSet _ _ _ _ _) as [ls1 b1].
  destruct (StorageUtils.safeLocalStorageSet _ _ _ _ _) as [ls2 b2].
  eauto.
Qed.

(** ** Success commits, and nothing is written when both writes fail *)

Lemma run_success_in_sync st e c st' :
  run st e c = (st', true) → in_sync st'.
Proof.
  destruct c; simpl;
    unfold DATA_STORE.addArticle, DATA_STORE.updateArticle,
      DATA_STORE.updateArticleStatus, DATA_STORE.deleteArticle,
      DATA_STORE.importData;
    repeat case_match; try (intros; simplify_eq/=; fail);
    intros; simplify_eq/=;
    match goal with
    | H : DATA_STORE.saveToLocalStorage _ _ = (_, true) |- _ =>
        exact (save_success _ _ _ H)
    end.
Qed.

Lemma run_nothing_written st e c :
  setItem_ok e STORAGE_KEYS.ARTICLES = false →
  setItem_ok e STORAGE_KEYS.USERS = false →
  localStorage (run st e c).1 = localStorage st.
Proof.
  intros Ha Hu.
  destruct c; simpl;
    unfold DATA_STORE.addArticle, DATA_STORE.updateArticle,
      DATA_STORE.updateArticleStatus, DATA_STORE.deleteArticle,
      DATA_STORE.importData;
    repeat case_match; simplify_eq/=; try reflexivity;
    match goal with
    | H : DATA_STORE.saveToLocalStorage ?s e = (?s', _) |- _ =>
        pose proof (save_nothing_written s e Ha Hu) as Hw;
        rewrite H in Hw; exact Hw
    end.
Qed.

(** ** Failure restores the collections *)

Lemma same_collections_refl st : same_collections st st.
Proof. by repeat split. Qed.

Lemma findIndex_Some p xs i :
  findIndex p xs = Ret (Some i) → ∃ x, xs !! i = Some x ∧ p x = Ret true.
Proof.
  revert i. induction xs as [|x xs IH]; intros i; simpl; [done|].
  destruct (p x) as [[|]|] eqn:Hp; simpl; [| |done].
  - intros [= <-]. eauto.
  - destruct (findIndex p xs) as [[j|]|]; simpl; intros; simplify_eq.
    destruct (IH j eq_refl) as (y & ? & ?). eauto.
Qed.

Lemma pop_push_fresh (h : gmap loc cell) a es c x :
  h !! a = Some (CArr es) →
  pop (push (<[fresh (dom h) := c]> h) a x) a = <[fresh (dom h) := c]> h.
Proof.
  intros Ha. pose proof (fresh_ne _ _ _ Ha) as Hne.
  unfold pop, push. rewrite arr_insert_eq, removelast_snoc, insert_insert_eq.
  rewrite arr_insert_ne by done. rewrite (arr_is_array _ _ _ Ha).
  apply insert_id. by rewrite lookup_insert_ne.
Qed.

Lemma add_failure_restores st e d st' :
  store_wf st → DATA_STORE.addArticle st e d = (st', VNull) →
  same_collections st st'.
Proof.
  intros [[es Ha] [us Hu]]. unfold DATA_STORE.addArticle.
  repeat case_match; intros; simplify_eq/=; try apply same_collections_refl.
  match goal with H : DATA_STORE.saveToLocalStorage ?s e = _ |- _ =>
    destruct (save_shape s e) as (ls & b & Hs); rewrite Hs in H;
    simplify_eq/= end.
  unfold same_collections. cbn [heap articles users set_heap].
  rewrite (pop_push_fresh _ _ _ _ _ Ha).
  pose proof (fresh_ne _ _ _ Ha). pose proof (fresh_ne _ _ _ Hu).
  split; [apply insert_fresh_subseteq|].
  by rewrite !lookup_insert_ne.
Qed.

Lemma delete_failure_restores st e x st' :
  store_wf st → DATA_STORE.deleteArticle st e x = (st', false) →
  same_collections st st'.
Proof.
  intros [[es Ha] _]. unfold DATA_STORE.deleteArticle.
  repeat case_match; intros; simplify_eq/=; try apply same_collections_refl.
  match goal with H : DATA_STORE.saveToLocalStorage ?s e = _ |- _ =>
    destruct (save_shape s e) as (ls & b & Hs); rewrite Hs in H;
    simplify_eq/= end.
  match goal with H : findIndex _ _ = Ret (Some _) |- _ =>
    apply findIndex_Some in H; destruct H as (y & Hy & _) end.
  assert (Hh : splice_in (splice_out (heap st) (articles st) n) (articles st) n
                 (default VUndef (arr (heap st) (articles st) !! n)) = heap st).
  { unfold splice_in, splice_out. rewrite arr_insert_eq, insert_insert_eq.
    rewrite Hy. simpl. rewrite (splice_roundtrip _ _ _ Hy).
    apply insert_id. by rewrite <- (arr_is_array _ _ _ Ha) in Ha. }
  unfold same_collections. cbn [heap articles users set_heap]. by rewrite Hh.
Qed.

Lemma import_failure_restores st e x st' :
  store_wf st → DATA_STORE.importData st e x = (st', false) →
  same_collections st st'.
Proof.
  intros [[es Ha] [us Hu]]. unfold DATA_STORE.importData, copy_array.
  repeat case_match; intros; simplify_eq/=; try apply same_collections_refl.
  match goal with H : DATA_STORE.saveToLocalStorage ?s e = _ |- _ =>
    destruct (save_shape s e) as (ls & b & Hs); rewrite Hs in H;
    simplify_eq/= end.
  unfold same_collections. cbn [heap articles users].
  set (l1 := fresh (dom (heap st))).
  set (h1 := <[l1 := CArr (arr (heap st) (articles st))]> (heap st)).
  assert (l1 ≠ users st) by (apply (fresh_ne _ _ _ Hu)).
  assert (Hl1 : h1 !! l1 = Some (CArr (arr (heap st) (articles st))))
    by apply lookup_insert_eq.
  pose proof (fresh_ne _ _ _ Hl1).
  split; [|split].
  - etrans; [apply insert_fresh_subseteq|]. apply insert_fresh_subseteq.
  - rewrite lookup_insert_ne by done. rewrite Hl1, Ha.
    by rewrite (arr_is_array _ _ _ Ha).
  - rewrite lookup_insert_eq. unfold h1. rewrite arr_insert_ne by done.
    by rewrite Hu, (arr_is_array _ _ _ Hu).
Qed.

(** ** Serialization only reads what it reaches *)

Lemma mapJ_mono {A} (f g : A → res json) xs js :
  (∀ x y, f x = Ret y → g x = Ret y) → mapJ f xs = Ret js → mapJ g xs = Ret js.
Proof.
  intros Hfg. revert js. induction xs as [|x xs IH]; intros js; simpl; [done|].
  destruct (f x) as [y|] eqn:Hx; [|done]. rewrite (Hfg _ _ Hx). simpl.
  destruct (mapJ f xs) as [ys|]; [|done]. by rewrite (IH ys eq_refl).
Qed.

Lemma fieldsJ_mono (f g : value → res (option json)) kvs r :
  (∀ v t, f v = Ret t → g v = Ret t) →
  fieldsJ f kvs = Ret r → fieldsJ g kvs = Ret r.
Proof.
  intros Hfg. revert r. induction kvs as [|[k v] kvs IH]; intros r; simpl; [done|].
  destruct (f v) as [t|] eqn:Hv; [|done]. rewrite (Hfg _ _ Hv). simpl.
  destruct (fieldsJ f kvs) as [js|]; [|done]. by rewrite (IH js eq_refl).
Qed.

Lemma stringify_fuel_mono (n m : nat) (h h' : gmap loc cell) v t :
  (n ≤ m)%nat → h ⊆ h' →
  stringify_fuel n h v = Ret t → stringify_fuel m h' v = Ret t.
Proof.
  intros Hle Hsub. revert m v t Hle.
  induction n as [|n IH]; intros m v t Hle; destruct v; simpl;
    try (by destruct m); try done.
  destruct m as [|m]; [lia|]. simpl.
  destruct (h !! l) as [[f|xs]|] eqn:Hl; [| |done];
    rewrite (lookup_weaken _ _ _ _ Hl Hsub).
  - destruct (fieldsJ _ _) as [kvs|] eqn:Hf; [|done].
    rewrite (fieldsJ_mono _ (stringify_fuel m h') _ _
               (λ v t, IH m v t ltac:(lia)) Hf). done.
  - destruct (mapJ _ _) as [js|] eqn:Hm; [|done].
    erewrite mapJ_mono; [done| |exact Hm].
    intros x y. simpl.
    destruct (stringify_fuel n h x) as [j|] eqn:Hx; [|done].
    by rewrite (IH m _ _ ltac:(lia) Hx).
Qed.

Lemma same_collections_in_sync st st' :
  store_wf st → same_collections st st' →
  localStorage st' = localStorage st → in_sync st → in_sync st'.
Proof.
  intros [[es Ha] [us Hu]] (Hsub & Ha' & Hu') Hls [(ja & Hja & Hpa) (ju & Hju & Hpu)].
  pose proof (map_subseteq_size _ _ Hsub) as Hsize.
  rewrite Ha in Ha'. rewrite Hu in Hu'.
  unfold in_sync, persisted. rewrite Hls. split.
  - exists ja. split; [|done]. revert Hja. unfold stringify. simpl.
    rewrite Ha, Ha'.
    destruct (mapJ _ es) as [js|] eqn:Hm; [|done]. intros.
    erewrite mapJ_mono; [done| |exact Hm].
    intros x y. simpl.
    destruct (stringify_fuel (size (heap st)) (heap st) x) as [j|] eqn:Hx; [|done].
    by rewrite (stringify_fuel_mono _ _ _ _ _ _ Hsize Hsub Hx).
  - exists ju. split; [|done]. revert Hju. unfold stringify. simpl.
    rewrite Hu, Hu'.
    destruct (mapJ _ us) as [js|] eqn:Hm; [|done]. intros.
    erewrite mapJ_mono; [done| |exact Hm].
    intros x y. simpl.
    destruct (stringify_fuel (size (heap st)) (heap st) x) as [j|] eqn:Hx; [|done].
    by rewrite (stringify_fuel_mono _ _ _ _ _ _ Hsize Hsub Hx).
Qed.

(** ** C1: commit or roll back *)

Ltac concrete_wf :=
  split; eexists; vm_compute; reflexivity.

Lemma synced_in_sync : in_sync Scenario.synced.
Proof.
  apply (run_success_in_sync Scenario.with_draft Scenario.all_ok
           (AddArticle Scenario.draft_ref)).
  vm_compute. reflexivity.
Qed.

(** C1, as stated, fails: the store and [localStorage] agree, then
    [addArticle] runs with the articles write succeeding and the users write
    failing; the call rolls the array back in memory, while the articles key
    keeps the text with the new record. *)
Lemma C1_partial_write_diverges :
  let st' :=
    (run Scenario.synced Scenario.users_full (AddArticle Scenario.draft_ref)).1 in
  in_sync Scenario.synced
  ∧ (run Scenario.synced Scenario.users_full (AddArticle Scenario.draft_ref)).2
    = false
  ∧ same_collections Scenario.synced st'
  ∧ localStorage st' !! STORAGE_KEYS.ARTICLES
    ≠ localStorage Scenario.synced !! STORAGE_KEYS.ARTICLES
  ∧ ¬ in_sync st'.
Proof.
  intros st'. split; [exact synced_in_sync|].
  split; [vm_compute; reflexivity|]. split; [|split].
  - apply (add_failure_restores Scenario.synced Scenario.users_full
             Scenario.draft_ref); [concrete_wf|].
    vm_compute. reflexivity.
  - intros Hkey.
    apply (f_equal (λ o, match o with
                         | Some (Parses (JArr xs)) => List.length xs
                         | _ => 0%nat
                         end)) in Hkey.
    vm_compute in Hkey. discriminate Hkey.
  - intros [(j & Hmem & Hkey) _].
    apply (f_equal (λ r, match r with
                         | Ret (Some (JArr xs)) => List.length xs
                         | _ => 0%nat
                         end)) in Hmem.
    apply (f_equal (λ o, match o with
                         | Some (Parses (JArr xs)) => List.length xs
                         | _ => 0%nat
                         end)) in Hkey.
    vm_compute in Hmem, Hkey. congruence.
Qed.

(** C1, amended: a write operation that reports success leaves both keys
    holding the serialization of the in-memory collections; one that reports
    failure and is not an in-place edit ([addArticle], [deleteArticle],
    [importData]) leaves every earlier cell and both collections as they
    were; when both key writes fail nothing is written, so for these three
    operations memory and [localStorage] still agree if they did before.
    Nothing is promised when exactly one of the two writes succeeds. *)
Theorem C1_commit_or_rollback (st : store) (e : env) (c : call) :
  store_wf st →
  ((run st e c).2 = true → in_sync (run st e c).1)
  ∧ ((run st e c).2 = false → edits_in_place c = false →
     same_collections st (run st e c).1)
  ∧ (setItem_ok e STORAGE_KEYS.ARTICLES = false →
     setItem_ok e STORAGE_KEYS.USERS = false →
     localStorage (run st e c).1 = localStorage st
     ∧ (edits_in_place c = false → in_sync st → in_sync (run st e c).1)).
Proof.
  intros Hwf.
  assert (Hok : (run st e c).2 = true → in_sync (run st e c).1).
  { destruct (run st e c) as [st' b] eqn:Hr. simpl. intros ->.
    exact (run_success_in_sync _ _ _ _ Hr). }
  assert (Hfail : (run st e c).2 = false → edits_in_place c = false →
                  same_collections st (run st e c).1).
  { destruct c as [d|? ?|? ?|x|d]; simpl; try done; intros Hr _.
    - destruct (DATA_STORE.addArticle st e d) as [st' r] eqn:Ha.
      simpl in *. apply (add_failure_restores st e d); [done|].
      rewrite Ha. f_equal. revert Ha Hr. unfold DATA_STORE.addArticle.
      repeat case_match; intros; simplify_eq/=; done.
    - destruct (DATA_STORE.deleteArticle st e x) as [st' r] eqn:Hd.
      simpl in *. subst r. by apply (delete_failure_restores st e x).
    - destruct (DATA_STORE.importData st e d) as [st' r] eqn:Hi.
      simpl in *. subst r. by apply (import_failure_restores st e d). }
  split; [done|]. split; [done|]. intros Ha Hu.
  pose proof (run_nothing_written st e c Ha Hu) as Hls.
  split; [done|]. intros Hc Hsync.
  destruct ((run st e c).2) eqn:Hb; [by apply Hok|].
  apply (same_collections_in_sync st); auto.
Qed.

Lemma C1_commit_or_rollback_witness :
  store_wf Scenario.synced
  ∧ in_sync
      (run Scenario.synced Scenario.full (AddArticle Scenario.draft_ref)).1.
Proof.
  split; [concrete_wf|].
  apply (C1_commit_or_rollback Scenario.synced Scenario.full
           (AddArticle Scenario.draft_ref));
    [concrete_wf | reflexivity | reflexivity | reflexivity
    | exact synced_in_sync].
Defined.

(** ** Looking an article up *)

Lemma find_Ret p xs x :
  find p xs = Ret x → x = VUndef ∨ (x ∈ xs ∧ p x = Ret true).
Proof.
  induction xs as [|y ys IH]; simpl; [intros [= <-]; by left|].
  destruct (p y) as [[|]|] eqn:Hp; simpl; [| |done].
  - intros [= <-]. right. split; [left|done].
  - intros H. destruct (IH H) as [?|[? ?]]; [by left|right].
    split; [by right|done].
Qed.


Lemma id_is_true h z a :
  DATA_STORE.id_is h z a = Ret true →
  ∃ l f, a = VRef l ∧ h !! l = Some (CObj f) ∧ f !! "id" = Some (VNum z).
Proof.
  unfold DATA_STORE.id_is, getProp.
  destruct a as [| | | | | |l]; simpl; try done;
    try (intros; simplify_eq/=; case_bool_decide; simplify_eq; fail).
  destruct (h !! l) as [[f|xs]|] eqn:Hl; simpl;
    try (intros; simplify_eq/=; case_bool_decide; simplify_eq; fail).
  destruct (f !! "id") as [i|] eqn:Hi; simpl; intros; simplify_eq/=;
    case_bool_decide; simplify_eq. eauto.
Qed.

Lemma getArticleById_found st id l :
  DATA_STORE.getArticleById st id = VRef l →
  ∃ z f, parseInt (heap st) id = Some z
         ∧ VRef l ∈ arr (heap st) (articles st)
         ∧ heap st !! l = Some (CObj f) ∧ f !! "id" = Some (VNum z).
Proof.
  unfold DATA_STORE.getArticleById.
  destruct (parseInt (heap st) id) as [z|]; simpl; [|done].
  destruct (find _ _) as [found|] eqn:Hf; simpl; [|done].
  destruct (truthy found) eqn:Ht; [|done]. intros ->.
  destruct (find_Ret _ _ _ Hf) as [?|[Hin Hp]]; [done|].
  destruct (id_is_true _ _ _ Hp) as (l' & f & ? & ? & ?). simplify_eq. eauto 8.
Qed.

Lemma parseInt_num h z : parseInt h (VNum z) = Some z.
Proof. reflexivity. Qed.

(** The lookup depends on its argument through [parseInt] alone. *)
Lemma getArticleById_coerces st id z :
  parseInt (heap st) id = Some z →
  DATA_STORE.getArticleById st id = DATA_STORE.getArticleById st (VNum z).
Proof.
  intros H. unfold DATA_STORE.getArticleById. by rewrite H, parseInt_num.
Qed.

Lemma getArticleById_NaN st id :
  parseInt (heap st) id = None → DATA_STORE.getArticleById st id = VNull.
Proof. intros H. unfold DATA_STORE.getArticleById. by rewrite H. Qed.

(** ** Dates *)

Lemma digit_mod n : digit n = digit (n mod 10).
Proof. unfold digit. by rewrite Z.mod_mod. Qed.

Lemma mod10_cases n :
  let k := n mod 10 in
  k = 0 ∨ k = 1 ∨ k = 2 ∨ k = 3 ∨ k = 4 ∨ k = 5 ∨ k = 6 ∨ k = 7 ∨ k = 8 ∨ k = 9.
Proof. pose proof (Z.mod_pos_bound n 10 eq_refl). simpl. lia. Qed.

Ltac by_digit n :=
  rewrite (digit_mod n);
  destruct (mod10_cases n) as [-> | [-> | [-> | [-> | [-> | [-> | [-> | [-> | [-> | ->]]]]]]]]];
  reflexivity.

Ltac safe := unfold safe_integer; split; apply Z.leb_le; reflexivity.


Lemma digit_not_T n : Ascii.eqb (digit n) "T" = false.
Proof. by_digit n. Qed.

Lemma free_of_app c s1 s2 :
  free_of c (s1 +:+ s2) = free_of c s1 && free_of c s2.
Proof.
  induction s1 as [|a s1 IH]; simpl; [done|]. rewrite IH. by destruct (Ascii.eqb a c).
Qed.

Lemma split_head_app c s1 s2 :
  free_of c s1 = true → split_head c (s1 +:+ String c s2) = s1.
Proof.
  induction s1 as [|a s1 IH]; simpl.
  - by rewrite Ascii.eqb_refl.
  - destruct (Ascii.eqb a c); simpl; [done|]. intros H. by rewrite IH.
Qed.

Lemma pad2_free n : free_of "T" (pad2 n) = true.
Proof. unfold pad2. cbn [free_of]. rewrite !digit_not_T. reflexivity. Qed.

Lemma year_string_free y : free_of "T" (year_string y) = true.
Proof.
  unfold year_string, pad6, pad4, pad3, pad2.
  destruct (_ && _); [|destruct (y <? 0)];
    rewrite ?free_of_app; cbn [free_of]; rewrite !digit_not_T; reflexivity.
Qed.

Lemma date_string_free d : free_of "T" (date_string d) = true.
Proof.
  unfold date_string. rewrite !free_of_app, year_string_free, !pad2_free. done.
Qed.

(** The date that [updateArticleStatus] stores is the date part of the
    timestamp. *)
Lemma split_toISOString d : split_head "T" (toISOString d) = date_string d.
Proof. unfold toISOString. apply split_head_app, date_string_free. Qed.

(** ** updateArticleStatus *)

Lemma setProp_obj (h : gmap loc cell) l f k x :
  h !! l = Some (CObj f) → setProp h l k x = <[l := CObj (<[k := x]> f)]> h.
Proof. intros H. unfold setProp. by rewrite H. Qed.

Lemma getProp_obj (h : gmap loc cell) l f k :
  h !! l = Some (CObj f) → getProp h (VRef l) k = Ret (default VUndef (f !! k)).
Proof. intros H. unfold getProp. by rewrite H. Qed.

Lemma save_fails st e :
  setItem_ok e STORAGE_KEYS.ARTICLES && setItem_ok e STORAGE_KEYS.USERS = false →
  (DATA_STORE.saveToLocalStorage st e).2 = false.
Proof.
  unfold DATA_STORE.saveToLocalStorage, StorageUtils.safeLocalStorageSet.
  destruct (stringify _ (VRef (articles st))), (stringify _ (VRef (users st)));
    destruct (setItem_ok e STORAGE_KEYS.ARTICLES),
             (setItem_ok e STORAGE_KEYS.USERS); simpl; done.
Qed.

Ltac save_outcome ls b Hb :=
  match goal with |- context [DATA_STORE.saveToLocalStorage ?s ?e] =>
    let Hs := fresh "Hs" in
    pose proof (save_fails s e) as Hb;
    destruct (save_shape s e) as (ls & b & Hs);
    rewrite Hs in Hb |- *; clear Hs; cbn [snd] in Hb
  end.

Lemma updateArticleStatus_spec st e id newStatus l f :
  includes newStatus ARTICLE_STATUS.values = true →
  DATA_STORE.getArticleById st id = VRef l →
  heap st !! l = Some (CObj f) →
  ∃ ls saved,
    DATA_STORE.updateArticleStatus st e id newStatus =
    ({| heap := <[l := CObj (status_result newStatus f (date_string (clock e))
                               saved)]> (heap st);
        articles := articles st; users := users st; localStorage := ls |},
     saved)
    ∧ (setItem_ok e STORAGE_KEYS.ARTICLES && setItem_ok e STORAGE_KEYS.USERS
       = false → saved = false).
Proof.
  intros Hinc Hget Hl. unfold DATA_STORE.updateArticleStatus.
  rewrite Hinc, Hget. cbn [negb].
  rewrite (getProp_obj _ _ _ _ Hl), (setProp_obj _ _ _ _ _ Hl).
  erewrite getProp_obj by apply lookup_insert_eq.
  rewrite lookup_insert_ne by done. rewrite split_toISOString.
  unfold status_result, auto_publishes. cbn [catch].
  destruct (bool_decide _ && negb _).
  - erewrite setProp_obj by apply lookup_insert_eq. rewrite insert_insert_eq.
    save_outcome ls b Hb.
    exists ls, b. split; [|done].
    destruct b; cbn [set_heap heap articles users localStorage]; [done|].
    erewrite setProp_obj by apply lookup_insert_eq. by rewrite insert_insert_eq.
  - save_outcome ls b Hb.
    exists ls, b. split; [|done].
    destruct b; cbn [set_heap heap articles users localStorage]; [done|].
    erewrite setProp_obj by apply lookup_insert_eq. by rewrite insert_insert_eq.
Qed.

Lemma joinR_ext f g xs : (∀ x, f x = g x) → joinR f xs = joinR g xs.
Proof.
  intros E. induction xs as [|x xs IH]; [done|].
  cbn [joinR]. rewrite E. destruct (g x); [|done]. cbn [bind].
  destruct xs; [done|]. by rewrite IH.
Qed.






(** ** C7 and C8: the status transition *)











(** ** Own properties, the shape check and the allow-list *)

Lemma hasOwnProperty_true h u k :
  hasOwnProperty h u k = Ret true →
  ∃ v, fields_of h u !! k = Some v ∧ getProp h u k = Ret v.
Proof.
  unfold hasOwnProperty, fields_of, getProp.
  destruct u as [| | | | | |l]; try done.
  destruct (h !! l) as [[f|xs]|]; try done.
  destruct (f !! "hasOwnProperty"); [done|].
  intros [= Hk]. apply bool_decide_eq_true_1 in Hk as [v Hv].
  exists v. by rewrite Hv.
Qed.

Lemma hasOwnProperty_false h u k :
  hasOwnProperty h u k = Ret false → fields_of h u !! k = None.
Proof.
  unfold hasOwnProperty, fields_of.
  destruct u as [| | | | | |l]; try done.
  destruct (h !! l) as [[f|xs]|]; try done.
  destruct (f !! "hasOwnProperty"); [done|].
  intros [= Hk]. apply bool_decide_eq_false_1 in Hk.
  by apply eq_None_not_Some.
Qed.

Lemma sanitize_loop_lookup h u keys acc s :
  Validators.sanitize_loop h u keys acc = Ret s →
  ∀ k, s !! k = if bool_decide (k ∈ keys)
                then match fields_of h u !! k with
                     | Some v => Some v
                     | None => acc !! k
                     end
                else acc !! k.
Proof.
  revert acc. induction keys as [|key rest IH]; intros acc; cbn [Validators.sanitize_loop].
  - intros [= <-] k. by rewrite bool_decide_eq_false_2 by apply not_elem_of_nil.
  - destruct (hasOwnProperty h u key) as [[|]|] eqn:Hown; cbn [bind]; [| |done].
    + destruct (hasOwnProperty_true _ _ _ Hown) as (v & Hv & ->). cbn [bind].
      intros Hs k. rewrite (IH _ Hs k).
      destruct (decide (k = key)) as [->|Hne].
      * rewrite Hv, lookup_insert_eq.
        rewrite (bool_decide_eq_true_2 (key ∈ key :: rest)) by left.
        by destruct (bool_decide (key ∈ rest)).
      * rewrite lookup_insert_ne by done.
        rewrite (bool_decide_ext (k ∈ key :: rest) (k ∈ rest)); [done|].
        rewrite elem_of_cons. split; [by intros [?|?]|by right].
    + pose proof (hasOwnProperty_false _ _ _ Hown) as Hv.
      intros Hs k. rewrite (IH _ Hs k).
      destruct (decide (k = key)) as [->|Hne].
      * rewrite Hv. rewrite (bool_decide_eq_true_2 (key ∈ key :: rest)) by left.
        by destruct (bool_decide (key ∈ rest)).
      * rewrite (bool_decide_ext (k ∈ key :: rest) (k ∈ rest)); [done|].
        rewrite elem_of_cons. split; [by intros [?|?]|by right].
Qed.

(** What [sanitizeArticleUpdates] returns holds exactly the own properties
    of [updates] that are on the allow-list. *)
Lemma sanitize_lookup h u s :
  Validators.sanitizeArticleUpdates h u = Ret s →
  ∀ k, s !! k = if bool_decide (k ∈ Validators.allowed)
                then fields_of h u !! k else None.
Proof.
  intros Hs k. rewrite (sanitize_loop_lookup _ _ _ _ _ Hs k), lookup_empty.
  case_bool_decide; [|done]. by destruct (fields_of h u !! k).
Qed.

Lemma hasRequired_obj (h : gmap loc cell) l f k ks :
  h !! l = Some (CObj f) →
  Validators.hasRequired h (VRef l) (k :: ks) =
  match f !! "hasOwnProperty" with
  | Some _ => Throw
  | None => Ret (forallb (λ k, bool_decide (is_Some (f !! k))) (k :: ks))
  end.
Proof.
  intros Hl. revert k. induction ks as [|k' ks IH]; intros k.
  - cbn [Validators.hasRequired hasOwnProperty forallb]. rewrite Hl.
    destruct (f !! "hasOwnProperty"); [done|]. cbn [bind].
    by destruct (bool_decide _).
  - change (Validators.hasRequired h (VRef l) (k :: k' :: ks))
      with (bind (hasOwnProperty h (VRef l) k)
              (λ b, if b then Validators.hasRequired h (VRef l) (k' :: ks)
                    else Ret false)).
    rewrite IH. cbn [hasOwnProperty]. rewrite Hl.
    destruct (f !! "hasOwnProperty"); [done|]. cbn [bind].
    change (forallb (λ k0, bool_decide (is_Some (f !! k0))) (k :: k' :: ks))
      with (bool_decide (is_Some (f !! k))
            && forallb (λ k0, bool_decide (is_Some (f !! k0))) (k' :: ks)).
    by destruct (bool_decide (is_Some (f !! k))).
Qed.

Lemma isValidArticle_obj (h : gmap loc cell) l f :
  h !! l = Some (CObj f) →
  Validators.isValidArticle h (VRef l) = article_fields_valid f.
Proof.
  intros Hl. unfold Validators.isValidArticle, article_fields_valid.
  cbn [truthy typeof_object negb orb]. unfold Validators.article_required.
  rewrite (hasRequired_obj _ _ _ _ _ Hl), !(getProp_obj _ _ _ _ Hl).
  destruct (f !! "hasOwnProperty"); [done|]. cbn [bind].
  destruct (forallb _ _); [|done]. cbn [negb andb].
  destruct (includes _ _); [|done]. cbn [negb andb].
  by destruct (typeof_number _).
Qed.

Lemma isValidArticle_true h v :
  Validators.isValidArticle h v = Ret true →
  ∃ l f, v = VRef l ∧ h !! l = Some (CObj f)
         ∧ article_fields_valid f = Ret true.
Proof.
  destruct v as [| | | | | |l];
    try (unfold Validators.isValidArticle; cbn [typeof_object truthy negb];
         by rewrite ?orb_true_r).
  destruct (h !! l) as [[f|xs]|] eqn:Hl.
  - rewrite (isValidArticle_obj _ _ _ Hl). eauto.
  - unfold Validators.isValidArticle, Validators.article_required.
    cbn [truthy typeof_object negb orb Validators.hasRequired hasOwnProperty].
    by rewrite Hl.
  - unfold Validators.isValidArticle, Validators.article_required.
    cbn [truthy typeof_object negb orb Validators.hasRequired hasOwnProperty].
    by rewrite Hl.
Qed.


(** ** updateArticle *)

Lemma assign_obj (h : gmap loc cell) l f src :
  h !! l = Some (CObj f) → assign h l src = <[l := CObj (src ∪ f)]> h.
Proof. intros H. unfold assign. by rewrite H. Qed.

(** Either the call returns [false] before touching anything, or it has
    found a record, applied the sanitized updates and the timestamp to it,
    and then kept or overwritten them with the backup. *)
Lemma updateArticle_cases st e id updates :
  DATA_STORE.updateArticle st e id updates = (st, false)
  ∨ ∃ l f s ls ok g,
      DATA_STORE.getArticleById st id = VRef l
      ∧ heap st !! l = Some (CObj f)
      ∧ Validators.sanitizeArticleUpdates (heap st) updates = Ret s
      ∧ DATA_STORE.updateArticle st e id updates =
        ({| heap := <[l := CObj g]> (heap st); articles := articles st;
            users := users st; localStorage := ls |}, ok)
      ∧ match article_fields_valid
                (update_applied f s (toISOString (clock e))) with
        | Throw => ok = false ∧ g = update_applied f s (toISOString (clock e))
        | Ret false =>
            ok = false ∧ g = f ∪ update_applied f s (toISOString (clock e))
        | Ret true =>
            (ok = true ∧ g = update_applied f s (toISOString (clock e)))
            ∨ (ok = false
               ∧ g = f ∪ update_applied f s (toISOString (clock e)))
        end
      ∧ (setItem_ok e STORAGE_KEYS.ARTICLES && setItem_ok e STORAGE_KEYS.USERS
         = false → ok = false).
Proof.
  unfold DATA_STORE.updateArticle.
  destruct (parseInt (heap st) id) as [z|] eqn:Hp; [|by left].
  rewrite <- (getArticleById_coerces st id z Hp).
  destruct (DATA_STORE.getArticleById st id) as [| | | | | |l] eqn:Hget;
    try by left.
  destruct (getArticleById_found _ _ _ Hget) as (z' & f & _ & _ & Hl & _).
  destruct (Validators.sanitizeArticleUpdates (heap st) updates) as [s|] eqn:Hs;
    [|by left].
  right. exists l, f, s. cbn [fields_of]. rewrite Hl.
  rewrite (assign_obj _ _ _ _ Hl).
  erewrite assign_obj by apply lookup_insert_eq. rewrite insert_insert_eq.
  fold (update_applied f s (toISOString (clock e))).
  set (f1 := update_applied f s (toISOString (clock e))).
  erewrite isValidArticle_obj by apply lookup_insert_eq.
  destruct (article_fields_valid f1) as [[|]|].
  - save_outcome ls b Hb. destruct b.
    + exists ls, true, f1. repeat split; auto.
    + exists ls, false, (f ∪ f1). cbn [set_heap heap articles users localStorage].
      erewrite assign_obj by apply lookup_insert_eq. rewrite insert_insert_eq.
      repeat split; auto.
  - exists (localStorage st), false, (f ∪ f1).
    unfold set_heap. cbn [heap articles users localStorage].
    erewrite assign_obj by apply lookup_insert_eq. rewrite insert_insert_eq.
    repeat split; auto.
  - exists (localStorage st), false, f1. repeat split; auto.
Qed.

Lemma update_applied_frame f s t h u k :
  Validators.sanitizeArticleUpdates h u = Ret s →
  k ∉ Validators.allowed → k ≠ "updatedAt" →
  update_applied f s t !! k = f !! k.
Proof.
  intros Hs Hk Hne. unfold update_applied.
  rewrite lookup_union_r by (by rewrite lookup_singleton_ne).
  rewrite lookup_union_r; [done|].
  rewrite (sanitize_lookup _ _ _ Hs k). by rewrite bool_decide_eq_false_2.
Qed.




(** ** C9: what a successful update may change *)




(** ** C5: the rollback of updateArticle *)

(** C5 fails on the code.  The draft has neither an image nor an
    [updatedAt]; [updateArticle] is called on it with a new title and an
    image while the users write fails.  The call returns [false] and the
    title is the old one again, but the image and the timestamp that the call
    wrote are still on the record. *)
Theorem C5_rollback_keeps_introduced_fields :
  let st := Scenario.with_retitle in
  let article := VRef Scenario.draft_loc in
  let r := DATA_STORE.updateArticle st Scenario.users_full
             (VNum Scenario.draft_id) Scenario.retitle_ref in
  DATA_STORE.getArticleById st (VNum Scenario.draft_id) = article
  ∧ fields_of (heap st) article !! "title" = Some (VStr "Tram lines")
  ∧ fields_of (heap st) article !! "image" = None
  ∧ fields_of (heap st) article !! "updatedAt" = None
  ∧ r.2 = false
  ∧ fields_of (heap r.1) article !! "title" = Some (VStr "Tram lines")
  ∧ fields_of (heap r.1) article !! "image" = Some (VStr "/tram.png")
  ∧ fields_of (heap r.1) article !! "updatedAt"
    = Some (VStr "2024-10-20T12:00:00.000Z").
Proof. vm_compute. repeat split. Qed.

(** In general the rollback restores every property the record had, and
    keeps whatever the update added. *)
Lemma updateArticle_rollback st e id updates st' :
  setItem_ok e STORAGE_KEYS.ARTICLES && setItem_ok e STORAGE_KEYS.USERS = false →
  DATA_STORE.updateArticle st e id updates = (st', false) →
  st' = st
  ∨ ∃ l f s g,
      DATA_STORE.getArticleById st id = VRef l
      ∧ heap st !! l = Some (CObj f)
      ∧ Validators.sanitizeArticleUpdates (heap st) updates = Ret s
      ∧ heap st' = <[l := CObj g]> (heap st)
      ∧ (article_fields_valid (update_applied f s (toISOString (clock e)))
         = Ret true →
         ∀ k, g !! k = match f !! k with
                       | Some v => Some v
                       | None => update_applied f s (toISOString (clock e)) !! k
                       end).
Proof.
  intros Hfail Hcall.
  destruct (updateArticle_cases st e id updates)
    as [Hno|(l & f & s & ls & ok & g & Hget & Hl & Hs & Hr & Hcase & _)].
  { left. rewrite Hno in Hcall. by injection Hcall. }
  right. rewrite Hr in Hcall. injection Hcall as Hst Hok. subst ok st'.
  exists l, f, s, g. do 4 (split; [done|]). intros Hv. rewrite Hv in Hcase.
  destruct Hcase as [[? _]|[_ ->]]; [done|]. intros k.
  rewrite lookup_union. by destruct (f !! k), (update_applied _ _ _ !! k).
Qed.


(** ** The shape check under changes of a record *)

Lemma article_fields_valid_true f :
  article_fields_valid f = Ret true ↔
  f !! "hasOwnProperty" = None
  ∧ (∀ k, k ∈ Validators.article_required → is_Some (f !! k))
  ∧ includes (default VUndef (f !! "status")) ARTICLE_STATUS.values = true
  ∧ typeof_number (default VUndef (f !! "authorId")) = true.
Proof.
  unfold article_fields_valid.
  destruct (f !! "hasOwnProperty"); [split; [done|by intros [? _]]|].
  assert (Hreq : forallb (λ k, bool_decide (is_Some (f !! k)))
                   Validators.article_required = true
                 ↔ ∀ k, k ∈ Validators.article_required → is_Some (f !! k)).
  { rewrite forallb_forall. split; intros H k Hk.
    - apply list_elem_of_In, H in Hk. by apply bool_decide_eq_true in Hk.
    - apply list_elem_of_In in Hk. apply bool_decide_eq_true. by apply H. }
  split.
  - intros [= H]. apply andb_true_iff in H as [H ?].
    apply andb_true_iff in H as [H ?]. by rewrite Hreq in H.
  - intros (_ & H & -> & ->). apply Hreq in H. by rewrite H.
Qed.

Lemma valid_transfer f f' :
  article_fields_valid f = Ret true →
  f' !! "hasOwnProperty" = None →
  (∀ k, is_Some (f !! k) → is_Some (f' !! k)) →
  f' !! "status" = f !! "status" ∨
    includes (default VUndef (f' !! "status")) ARTICLE_STATUS.values = true →
  f' !! "authorId" = f !! "authorId" →
  article_fields_valid f' = Ret true.
Proof.
  rewrite !article_fields_valid_true.
  intros (_ & Hreq & Hst & Hau) Hown Hkeep Hst' Hau'.
  split; [done|]. split; [by intros k Hk; apply Hkeep, Hreq|].
  rewrite Hau'. split; [|done]. by destruct Hst' as [->|?].
Qed.

Lemma valid_has_status f :
  article_fields_valid f = Ret true → is_Some (f !! "status").
Proof.
  rewrite article_fields_valid_true. intros (_ & Hreq & _). apply Hreq.
  apply (bool_decide_unpack _). vm_compute. exact I.
Qed.

Lemma newArticle_createdAt newId f t :
  DATA_STORE.newArticle newId f t !! "createdAt" = Some (VStr t).
Proof. apply lookup_insert_eq. Qed.

Lemma newArticle_from_caller newId f t k v :
  k ≠ "createdAt" → f !! k = Some v →
  DATA_STORE.newArticle newId f t !! k = Some v.
Proof.
  intros Hk Hv. unfold DATA_STORE.newArticle.
  rewrite lookup_insert_ne by done. by apply lookup_union_Some_l.
Qed.

Lemma newArticle_default newId f t k :
  k ≠ "createdAt" → f !! k = None →
  DATA_STORE.newArticle newId f t !! k =
  (<["publishDate" := VNull]>
     (<["engagement" := VNum 0]>
        (<["views" := VNum 0]> {["id" := VNum newId]})) : gmap string value) !! k.
Proof.
  intros Hk Hv. unfold DATA_STORE.newArticle.
  rewrite lookup_insert_ne by done. by apply lookup_union_r.
Qed.

Lemma newArticle_valid newId f t :
  article_fields_valid f = Ret true →
  article_fields_valid (DATA_STORE.newArticle newId f t) = Ret true.
Proof.
  intros Hv. pose proof Hv as Hv'.
  apply article_fields_valid_true in Hv' as (Hown & Hreq & _ & _).
  destruct (Hreq "status") as [s Hs]; [apply (bool_decide_unpack _); by vm_compute|].
  destruct (Hreq "authorId") as [a Ha]; [apply (bool_decide_unpack _); by vm_compute|].
  apply (valid_transfer f); [done| | | |].
  - rewrite newArticle_default by done.
    by rewrite !lookup_insert_ne, lookup_singleton_ne.
  - intros k [v Hk]. destruct (decide (k = "createdAt")) as [->|Hne].
    + by rewrite newArticle_createdAt.
    + by rewrite (newArticle_from_caller _ _ _ _ v).
  - left. by rewrite (newArticle_from_caller _ _ _ _ s), Hs.
  - by rewrite (newArticle_from_caller _ _ _ _ a), Ha.
Qed.

Lemma status_result_valid newStatus f today saved :
  article_fields_valid f = Ret true →
  includes newStatus ARTICLE_STATUS.values = true →
  article_fields_valid (status_result newStatus f today saved) = Ret true.
Proof.
  intros Hv Hinc. destruct (valid_has_status _ Hv) as [old Hold].
  pose proof Hv as Hv'.
  apply article_fields_valid_true in Hv' as (Hown & _ & _ & _).
  unfold status_result.
  apply (valid_transfer f); [done| | | |];
    destruct (auto_publishes newStatus f), saved;
    rewrite ?Hold; cbn [default];
    rewrite ?lookup_insert_eq; rewrite ?lookup_insert_ne by done;
    rewrite ?lookup_insert_eq; rewrite ?lookup_insert_ne by done;
    rewrite ?lookup_insert_eq;
    try done; try (by left); try (by right);
    intros k Hk; rewrite ?lookup_insert_is_Some'; auto.
Qed.

Lemma update_applied_unshadowed f s t h u :
  Validators.sanitizeArticleUpdates h u = Ret s →
  update_applied f s t !! "hasOwnProperty" = f !! "hasOwnProperty".
Proof.
  intros Hs. apply (update_applied_frame _ _ _ _ _ _ Hs); [|done].
  apply (bool_decide_unpack _). by vm_compute.
Qed.

Lemma rollback_valid f f1 :
  article_fields_valid f = Ret true → f1 !! "hasOwnProperty" = None →
  article_fields_valid (f ∪ f1) = Ret true.
Proof.
  intros Hv Hown. destruct (valid_has_status _ Hv) as [s Hs].
  pose proof Hv as Hv'.
  apply article_fields_valid_true in Hv' as (Hown' & Hreq & _ & _).
  destruct (Hreq "authorId") as [a Ha]; [apply (bool_decide_unpack _); by vm_compute|].
  apply (valid_transfer f); [done| | | |].
  - by apply lookup_union_None_2.
  - intros k [v Hk]. exists v. by apply lookup_union_Some_l.
  - left. by rewrite (lookup_union_Some_l _ _ _ _ Hs).
  - by rewrite (lookup_union_Some_l _ _ _ _ Ha).
Qed.


(** ** Validity of the stored articles *)

Lemma valid_kept (h h' : gmap loc cell) x :
  (∀ l f, h !! l = Some (CObj f) → h' !! l = Some (CObj f)) →
  Validators.isValidArticle h x = Ret true →
  Validators.isValidArticle h' x = Ret true.
Proof.
  intros Hkept Hx. destruct (isValidArticle_true _ _ Hx) as (l & f & -> & Hl & Hf).
  by rewrite (isValidArticle_obj _ _ _ (Hkept _ _ Hl)).
Qed.

Lemma same_collections_valid st st' :
  articles_valid st → same_collections st st' → articles_valid st'.
Proof.
  intros [[[es Ha] [us Hu]] Hall] (Hsub & Ha' & Hu').
  rewrite Ha in Ha'. rewrite Hu in Hu'.
  split; [split; by eexists|].
  rewrite (arr_is_array _ _ _ Ha'). rewrite (arr_is_array _ _ _ Ha) in Hall.
  eapply Forall_impl; [exact Hall|]. intros x. apply valid_kept.
  intros l f Hl. by apply (lookup_weaken _ _ _ _ Hl).
Qed.

Lemma every_true p xs :
  every p xs = Ret true → Forall (λ x, p x = Ret true) xs.
Proof.
  induction xs as [|x xs IH]; cbn [every]; [by constructor|].
  destruct (p x) as [[|]|] eqn:Hp; cbn [bind]; try done.
  intros H. constructor; auto.
Qed.

Lemma every_not_true p xs x :
  x ∈ xs → p x ≠ Ret true → every p xs ≠ Ret true.
Proof.
  intros Hin Hx H. apply every_true in H. rewrite Forall_forall in H.
  by apply Hx, H.
Qed.

Lemma addArticle_success st e d st' r :
  DATA_STORE.addArticle st e d = (st', r) → r ≠ VNull →
  ∃ ids ls,
    Validators.isValidArticle (heap st) d = Ret true
    ∧ mapR (λ a, getProp (heap st) a "id") (arr (heap st) (articles st))
      = Ret ids
    ∧ r = VRef (fresh (dom (heap st)))
    ∧ st' =
      {| heap :=
           push (<[fresh (dom (heap st)) :=
                     CObj (DATA_STORE.newArticle
                             (StorageUtils.generateUniqueId (now e) (random e) ids)
                             (fields_of (heap st) d) (toISOString (clock e)))]>
                   (heap st))
             (articles st) (VRef (fresh (dom (heap st))));
         articles := articles st; users := users st; localStorage := ls |}.
Proof.
  unfold DATA_STORE.addArticle.
  destruct (Validators.isValidArticle (heap st) d) as [[|]|];
    [|by intros [= <- <-]..].
  destruct (mapR _ _) as [ids|]; [|by intros [= <- <-]].
  save_outcome ls b Hb. destruct b; [|by intros [= <- <-]].
  intros [= <- <-] _. exists ids, ls. done.
Qed.

Lemma deleteArticle_success st e x st' :
  DATA_STORE.deleteArticle st e x = (st', true) →
  ∃ i ls,
    st' = {| heap := splice_out (heap st) (articles st) i;
             articles := articles st; users := users st; localStorage := ls |}.
Proof.
  unfold DATA_STORE.deleteArticle.
  destruct (parseInt (heap st) x); [|done].
  destruct (findIndex _ _) as [[i|]|]; [|done..].
  save_outcome ls b Hb. destruct b; [|intros Hno; discriminate Hno].
  intros [= <-]. eauto.
Qed.

Lemma importData_success st e d st' :
  DATA_STORE.importData st e d = (st', true) →
  ∃ la lu ls,
    isArray (heap st) (catch (getProp (heap st) d "articles") VUndef) = Some la
    ∧ isArray (heap st) (catch (getProp (heap st) d "users") VUndef) = Some lu
    ∧ every (Validators.isValidArticle (heap st)) (arr (heap st) la) = Ret true
    ∧ every (Validators.isValidUser (heap st)) (arr (heap st) lu) = Ret true
    ∧ st' =
      {| heap := (copy_array (copy_array (heap st) (articles st)).1 (users st)).1;
         articles := la; users := lu; localStorage := ls |}.
Proof.
  unfold DATA_STORE.importData, DATA_STORE.every_of. cbv zeta.
  destruct (negb _ || negb _ || negb _); [done|].
  destruct (isArray (heap st) (catch (getProp (heap st) d "articles") VUndef))
    as [la|] eqn:Hla; [|done].
  destruct (every _ (arr (heap st) la)) as [[|]|] eqn:Hea; [| |done].
  - destruct (isArray (heap st) (catch (getProp (heap st) d "users") VUndef))
      as [lu|] eqn:Hlu; [|done].
    destruct (every _ (arr (heap st) lu)) as [[|]|] eqn:Heu; [|done..].
    cbn [negb orb copy_array default fst snd].
    save_outcome ls b Hb. destruct b; [|intros Hno; discriminate Hno].
    intros [= <-]. exists la, lu, ls. done.
  - destruct (isArray (heap st) (catch (getProp (heap st) d "users") VUndef))
      as [lu|]; [|done].
    by destruct (every _ (arr (heap st) lu)) as [[|]|].
Qed.

Lemma isArray_Some (h : gmap loc cell) v l :
  isArray h v = Some l → v = VRef l ∧ is_array h l.
Proof.
  unfold isArray, is_array. destruct v as [| | | | | |l0]; try done.
  destruct (h !! l0) as [[f|xs]|] eqn:Hl; try done. intros [= ->]. eauto.
Qed.


Lemma cell_update_valid st l f g ls :
  articles_valid st → heap st !! l = Some (CObj f) →
  article_fields_valid g = Ret true →
  articles_valid {| heap := <[l := CObj g]> (heap st); articles := articles st;
                    users := users st; localStorage := ls |}.
Proof.
  intros [[[es Ha] [us Hu]] Hall] Hl Hg.
  assert (l ≠ articles st) by (intros ->; by rewrite Ha in Hl).
  assert (l ≠ users st) by (intros ->; by rewrite Hu in Hl).
  split; [split; [exists es|exists us]; cbn [heap articles users];
          by rewrite lookup_insert_ne|].
  cbn [heap articles]. rewrite arr_insert_ne by done.
  eapply Forall_impl; [exact Hall|]. intros x Hx.
  destruct (isValidArticle_true _ _ Hx) as (lx & fx & -> & Hlx & Hfx).
  destruct (decide (l = lx)) as [->|Hne].
  - by erewrite isValidArticle_obj by apply lookup_insert_eq.
  - by erewrite isValidArticle_obj by (by rewrite lookup_insert_ne).
Qed.

Lemma found_is_valid st id l f :
  articles_valid st → DATA_STORE.getArticleById st id = VRef l →
  heap st !! l = Some (CObj f) → article_fields_valid f = Ret true.
Proof.
  intros [_ Hall] Hget Hl.
  destruct (getArticleById_found _ _ _ Hget) as (z & f' & _ & Hin & _ & _).
  rewrite Forall_forall in Hall. specialize (Hall _ Hin).
  by rewrite (isValidArticle_obj _ _ _ Hl) in Hall.
Qed.

Lemma add_preserves_valid st e d :
  articles_valid st → articles_valid (DATA_STORE.addArticle st e d).1.
Proof.
  intros Hv. destruct (DATA_STORE.addArticle st e d) as [st' r] eqn:Hadd.
  cbn [fst]. destruct (decide (r = VNull)) as [->|Hr].
  { apply (same_collections_valid st); [done|].
    apply (add_failure_restores st e d); [apply Hv|done]. }
  destruct (addArticle_success _ _ _ _ _ Hadd Hr) as (ids & ls & Hd & _ & -> & ->).
  destruct Hv as [[[es Ha] [us Hu]] Hall].
  pose proof (fresh_ne _ _ _ Ha) as Hla. pose proof (fresh_ne _ _ _ Hu) as Hlu.
  set (l := fresh (dom (heap st))) in *.
  destruct (isValidArticle_true _ _ Hd) as (ld & fd & -> & Hld & Hfd).
  unfold push. rewrite arr_insert_ne by done. rewrite (arr_is_array _ _ _ Ha).
  cbn [fields_of]. rewrite Hld.
  split; [split; cbn [heap articles users]|].
  - eexists. apply lookup_insert_eq.
  - destruct (decide (articles st = users st)) as [E|E].
    + eexists. rewrite <- E. apply lookup_insert_eq.
    + exists us. by rewrite !lookup_insert_ne.
  - cbn [heap articles]. rewrite arr_insert_eq. apply Forall_app. split.
    + rewrite (arr_is_array _ _ _ Ha) in Hall.
      eapply Forall_impl; [exact Hall|]. intros x. apply valid_kept.
      intros lo fo Hlo.
      rewrite lookup_insert_ne by (intros <-; by rewrite Ha in Hlo).
      rewrite lookup_insert_ne; [done|].
      intros E. rewrite <- E in Hlo. unfold l in Hlo.
      by rewrite fresh_not_allocated in Hlo.
    + apply Forall_singleton.
      erewrite isValidArticle_obj;
        [|by rewrite lookup_insert_ne, lookup_insert_eq by done].
      by apply newArticle_valid.
Qed.

Lemma update_preserves_valid st e id updates :
  articles_valid st → articles_valid (DATA_STORE.updateArticle st e id updates).1.
Proof.
  intros Hv.
  destruct (updateArticle_cases st e id updates)
    as [->|(l & f & s & ls & ok & g & Hget & Hl & Hs & -> & Hcase & _)]; [done|].
  cbn [fst]. pose proof (found_is_valid _ _ _ _ Hv Hget Hl) as Hf.
  apply (cell_update_valid st l f); [done..|].
  assert (Hown : update_applied f s (toISOString (clock e)) !! "hasOwnProperty"
                 = None).
  { rewrite (update_applied_unshadowed _ _ _ _ _ Hs).
    by apply article_fields_valid_true in Hf as [? _]. }
  destruct (article_fields_valid (update_applied f s (toISOString (clock e))))
    as [[|]|] eqn:Hf1.
  - destruct Hcase as [[_ ->]|[_ ->]]; [done|by apply rollback_valid].
  - destruct Hcase as [_ ->]. by apply rollback_valid.
  - unfold article_fields_valid in Hf1. by rewrite Hown in Hf1.
Qed.

Lemma status_preserves_valid st e id newStatus :
  articles_valid st →
  articles_valid (DATA_STORE.updateArticleStatus st e id newStatus).1.
Proof.
  intros Hv.
  destruct (includes newStatus ARTICLE_STATUS.values) eqn:Hinc;
    [|unfold DATA_STORE.updateArticleStatus; by rewrite Hinc].
  destruct (DATA_STORE.getArticleById st id) as [| | | | | |l] eqn:Hget;
    try (unfold DATA_STORE.updateArticleStatus; by rewrite Hinc, Hget).
  destruct (getArticleById_found _ _ _ Hget) as (z & f & _ & _ & Hl & _).
  destruct (updateArticleStatus_spec st e id newStatus l f Hinc Hget Hl)
    as (ls & saved & -> & _).
  cbn [fst]. apply (cell_update_valid st l f); [done..|].
  apply status_result_valid; [|done]. by apply (found_is_valid st id l).
Qed.

Lemma delete_preserves_valid st e x :
  articles_valid st → articles_valid (DATA_STORE.deleteArticle st e x).1.
Proof.
  intros Hv. destruct (DATA_STORE.deleteArticle st e x) as [st' [|]] eqn:Hdel;
    cbn [fst].
  - destruct (deleteArticle_success _ _ _ _ Hdel) as (i & ls & ->).
    destruct Hv as [[[es Ha] [us Hu]] Hall]. unfold splice_out.
    rewrite (arr_is_array _ _ _ Ha) in *.
    split; [split; cbn [heap articles users]|].
    + eexists. apply lookup_insert_eq.
    + destruct (decide (articles st = users st)) as [E|E].
      * eexists. rewrite <- E. apply lookup_insert_eq.
      * exists us. by rewrite lookup_insert_ne.
    + cbn [heap articles]. rewrite arr_insert_eq.
      apply Forall_delete. eapply Forall_impl; [exact Hall|].
      intros y. apply valid_kept. intros lo fo Hlo.
      by rewrite lookup_insert_ne by (intros <-; by rewrite Ha in Hlo).
  - apply (same_collections_valid st); [done|].
    apply (delete_failure_restores st e x); [apply Hv|done].
Qed.

Lemma import_preserves_valid st e d :
  articles_valid st → articles_valid (DATA_STORE.importData st e d).1.
Proof.
  intros Hv. destruct (DATA_STORE.importData st e d) as [st' [|]] eqn:Himp;
    cbn [fst].
  - destruct (importData_success _ _ _ _ Himp)
      as (la & lu & ls & Hla & Hlu & Hea & _ & ->).
    apply isArray_Some in Hla as [_ [xs Hxs]].
    apply isArray_Some in Hlu as [_ [ys Hys]].
    assert (Hsub : heap st ⊆
              (copy_array (copy_array (heap st) (articles st)).1 (users st)).1).
    { unfold copy_array. cbn [fst].
      etrans; [apply insert_fresh_subseteq|]. apply insert_fresh_subseteq. }
    split; [split; cbn [heap articles users]|].
    + exists xs. by apply (lookup_weaken _ _ _ _ Hxs).
    + exists ys. by apply (lookup_weaken _ _ _ _ Hys).
    + cbn [heap articles].
      rewrite (arr_is_array _ _ _ (lookup_weaken _ _ _ _ Hxs Hsub)).
      rewrite (arr_is_array _ _ _ Hxs) in Hea. apply every_true in Hea.
      eapply Forall_impl; [exact Hea|]. intros y. apply valid_kept.
      intros lo fo Hlo. by apply (lookup_weaken _ _ _ _ Hlo).
  - apply (same_collections_valid st); [done|].
    apply (import_failure_restores st e d); [apply Hv|done].
Qed.

Lemma run_preserves_valid st e c :
  articles_valid st → articles_valid (run st e c).1.
Proof.
  intros Hv. destruct c as [d|id u|id s|id|d]; cbn [run].
  - pose proof (add_preserves_valid st e d Hv).
    by destruct (DATA_STORE.addArticle st e d).
  - by apply update_preserves_valid.
  - by apply status_preserves_valid.
  - by apply delete_preserves_valid.
  - by apply import_preserves_valid.
Qed.


(** ** Loading *)

Lemma parse_extends : ∀ j h, h ⊆ (parse j h).1.
Proof.
  fix IH 1. intros [| b | z | s | js | kvs] h; cbn [parse fst]; try done.
  - assert (Hel : ∀ js h, h ⊆ (parse_elems parse js h).1).
    { clear js h. induction js as [|j' js IHjs]; intros h; [done|].
      cbn [parse_elems].
      pose proof (IH j' h) as H1. destruct (parse j' h) as [h1 v].
      pose proof (IHjs h1) as H2. destruct (parse_elems parse js h1) as [h2 vs].
      cbn [fst] in *. by etrans. }
    pose proof (Hel js h) as H. destruct (parse_elems parse js h) as [h1 vs].
    cbn [fst] in *. etrans; [exact H|]. apply insert_fresh_subseteq.
  - assert (Hm : ∀ kvs h f, h ⊆ (parse_members parse kvs h f).1).
    { clear kvs h. induction kvs as [|[k j'] kvs IHkvs]; intros h f; [done|].
      cbn [parse_members].
      pose proof (IH j' h) as H1. destruct (parse j' h) as [h1 v].
      pose proof (IHkvs h1 (<[k := v]> f)) as H2.
      cbn [fst] in *. by etrans. }
    pose proof (Hm kvs h ∅) as H. destruct (parse_members parse kvs h ∅) as [h1 f].
    cbn [fst] in *. etrans; [exact H|]. apply insert_fresh_subseteq.
Qed.


Lemma get_extends ls h key fallback :
  h ⊆ (StorageUtils.safeLocalStorageGet ls h key fallback).1.
Proof.
  unfold StorageUtils.safeLocalStorageGet.
  destruct (ls !! key) as [[j|]|]; [apply parse_extends|done..].
Qed.

(** A stored value that is not an array is not taken for one, however the
    heap grows afterwards. *)
Lemma get_not_array ls h key fallback h' :
  (∀ js, ls !! key ≠ Some (Parses (JArr js))) →
  (StorageUtils.safeLocalStorageGet ls h key fallback).1 ⊆ h' →
  (StorageUtils.safeLocalStorageGet ls h key fallback).2 = fallback
  ∨ isArray h' (StorageUtils.safeLocalStorageGet ls h key fallback).2 = None.
Proof.
  intros Hno. unfold StorageUtils.safeLocalStorageGet.
  destruct (ls !! key) as [[j|]|]; [|by left..].
  destruct j as [| b | z | s | js | kvs]; try (by right).
  { by destruct (Hno js). }
  cbn [parse]. destruct (parse_members parse kvs h ∅) as [h1 f].
  cbn [fst snd isArray]. intros Hsub. right.
  by rewrite (lookup_weaken _ _ _ _ (lookup_insert_eq _ _ _) Hsub).
Qed.

Lemma seed_articles ls :
  heap (DATA_STORE.created ls) !! INITIAL_DATA.articles
  = Some (CArr (VRef <$> [7; 8; 9; 10]%nat))
  ∧ heap (DATA_STORE.created ls) !! INITIAL_DATA.users
    = Some (CArr (VRef <$> [0; 1; 2; 3; 4; 5; 6]%nat))
  ∧ Forall (λ a, Validators.isValidArticle (heap (DATA_STORE.created ls)) a
                 = Ret true) (VRef <$> [7; 8; 9; 10]%nat).
Proof.
  split; [vm_compute; reflexivity|]. split; [vm_compute; reflexivity|].
  repeat constructor; vm_compute; reflexivity.
Qed.

(** Unless the articles key holds an array, the store starts with the seed
    articles, which pass the shape check. *)
Lemma init_valid ls :
  (∀ js, ls !! STORAGE_KEYS.ARTICLES ≠ Some (Parses (JArr js))) →
  articles_valid (DATA_STORE.init (DATA_STORE.created ls)).
Proof.
  intros Hno. destruct (seed_articles ls) as (Hsa & Hsu & Hvalid).
  unfold DATA_STORE.init, DATA_STORE.loadFromLocalStorage.
  cbn [localStorage DATA_STORE.created].
  change (<[14%nat := CArr []]> (<[13%nat := CArr []]> INITIAL_DATA.cells))
    with (heap (DATA_STORE.created ls)).
  set (h0 := heap (DATA_STORE.created ls)) in *.
  pose proof (get_extends ls h0 STORAGE_KEYS.ARTICLES (VRef INITIAL_DATA.articles))
    as H01.
  pose proof (get_not_array ls h0 STORAGE_KEYS.ARTICLES
                (VRef INITIAL_DATA.articles)) as Hna.
  destruct (StorageUtils.safeLocalStorageGet ls h0 STORAGE_KEYS.ARTICLES _)
    as [h1 va].
  pose proof (get_extends ls h1 STORAGE_KEYS.USERS (VRef INITIAL_DATA.users))
    as H12.
  destruct (StorageUtils.safeLocalStorageGet ls h1 STORAGE_KEYS.USERS _)
    as [h2 vu].
  cbn [fst snd] in *.
  assert (H02 : h0 ⊆ h2) by (by etrans).
  pose proof (lookup_weaken _ _ _ _ Hsa H02) as Hsa2.
  pose proof (lookup_weaken _ _ _ _ Hsu H02) as Hsu2.
  assert (Ha : default INITIAL_DATA.articles (isArray h2 va)
               = INITIAL_DATA.articles).
  { destruct (Hna h2 Hno H12) as [->| ->]; [|done].
    cbn [isArray]. by rewrite Hsa2. }
  rewrite Ha. split; [split; cbn [heap articles users]|].
  - by eexists.
  - destruct (isArray h2 vu) as [lu|] eqn:Hlu; cbn [default].
    + by apply isArray_Some in Hlu as [_ ?].
    + by eexists.
  - cbn [heap articles]. rewrite (arr_is_array _ _ _ Hsa2).
    eapply Forall_impl; [exact Hvalid|]. intros x. apply valid_kept.
    intros l f Hl. by apply (lookup_weaken _ _ _ _ Hl).
Qed.

(** ** C3: the shape of the stored articles *)

(** C3, as stated, fails: started on storage that holds an article with only
    a title, the store takes it over as it is. *)
Lemma C3_loaded_articles_unchecked :
  reachable Scenario.stale_run
  ∧ (∃ a, a ∈ arr (heap Scenario.stale_run) (articles Scenario.stale_run)
          ∧ Validators.isValidArticle (heap Scenario.stale_run) a = Ret false)
  ∧ ¬ articles_valid Scenario.stale_run.
Proof.
  split; [apply reachable_init|].
  assert (Hbad : ∃ a,
            a ∈ arr (heap Scenario.stale_run) (articles Scenario.stale_run)
            ∧ Validators.isValidArticle (heap Scenario.stale_run) a = Ret false).
  { exists (VRef 15%nat). split; [|vm_compute; reflexivity].
    replace (arr (heap Scenario.stale_run) (articles Scenario.stale_run))
      with [VRef 15%nat] by (vm_compute; reflexivity).
    apply list_elem_of_here. }
  split; [exact Hbad|]. intros [_ Hall].
  destruct Hbad as (a & Hin & Ha). rewrite Forall_forall in Hall.
  specialize (Hall a Hin). by rewrite Ha in Hall.
Qed.

(** C3, amended: the start checks of what it loads only that it is an
    array, so the stored articles pass the shape check after a start on
    storage whose articles key holds no array (the seed articles are used);
    from a state in which they pass it, they pass it after every write
    operation, whatever its outcome; and [addArticle] returns [null] and
    leaves the store as it is when its input does not pass the check. *)
Theorem C3_writes_keep_articles_valid :
  (∀ ls, (∀ js, ls !! STORAGE_KEYS.ARTICLES ≠ Some (Parses (JArr js))) →
         articles_valid (DATA_STORE.init (DATA_STORE.created ls)))
  ∧ (∀ st e c, articles_valid st → articles_valid (run st e c).1)
  ∧ (∀ st e d, Validators.isValidArticle (heap st) d ≠ Ret true →
               DATA_STORE.addArticle st e d = (st, VNull)).
Proof.
  split; [exact init_valid|]. split; [exact run_preserves_valid|].
  intros st e d Hd. unfold DATA_STORE.addArticle.
  by destruct (Validators.isValidArticle (heap st) d) as [[|]|].
Qed.

Lemma C3_writes_keep_articles_valid_witness :
  (∀ js, (∅ : gmap string item) !! STORAGE_KEYS.ARTICLES
         ≠ Some (Parses (JArr js)))
  ∧ articles_valid Scenario.first_run
  ∧ articles_valid
      (run Scenario.first_run Scenario.users_full
         (DeleteArticle (VStr "2"))).1
  ∧ Validators.isValidArticle (heap Scenario.first_run) (VNum 3) ≠ Ret true
  ∧ DATA_STORE.addArticle Scenario.first_run Scenario.all_ok (VNum 3)
    = (Scenario.first_run, VNull).
Proof.
  assert (H0 : ∀ js, (∅ : gmap string item) !! STORAGE_KEYS.ARTICLES
                     ≠ Some (Parses (JArr js))) by (intros js; by rewrite lookup_empty).
  assert (H1 : articles_valid Scenario.first_run)
    by exact (proj1 C3_writes_keep_articles_valid ∅ H0).
  assert (H2 : Validators.isValidArticle (heap Scenario.first_run) (VNum 3)
               ≠ Ret true) by (vm_compute; discriminate).
  split; [exact H0|]. split; [exact H1|].
  split; [exact (proj1 (proj2 C3_writes_keep_articles_valid) _ _ _ H1)|].
  split; [exact H2|].
  exact (proj2 (proj2 C3_writes_keep_articles_valid) _ _ _ H2).
Defined.


(** ** C2: the record that addArticle stores *)

Lemma addArticle_stores st e d st' r :
  store_wf st → DATA_STORE.addArticle st e d = (st', r) → r ≠ VNull →
  ∃ ids l,
    mapR (λ a, getProp (heap st) a "id") (arr (heap st) (articles st)) = Ret ids
    ∧ r = VRef l ∧ heap st !! l = None
    ∧ heap st' !! l =
      Some (CObj (DATA_STORE.newArticle
                    (StorageUtils.generateUniqueId (now e) (random e) ids)
                    (fields_of (heap st) d) (toISOString (clock e))))
    ∧ arr (heap st') (articles st') = arr (heap st) (articles st) ++ [r].
Proof.
  intros [[es Ha] _] Hadd Hr.
  destruct (addArticle_success _ _ _ _ _ Hadd Hr) as (ids & ls & _ & Hids & -> & ->).
  pose proof (fresh_ne _ _ _ Ha) as Hne.
  exists ids, (fresh (dom (heap st))). cbn [heap articles]. unfold push.
  split; [done|]. split; [done|]. split; [apply fresh_not_allocated|].
  split.
  - rewrite lookup_insert_ne by done. apply lookup_insert_eq.
  - rewrite arr_insert_eq. by rewrite arr_insert_ne.
Qed.

(** Over the integers the loop of [generateUniqueId] ends on an id that is
    not in use. *)
Lemma id_from_succ_le n ids :
  (List.length (List.filter (id_from (n + 1)) ids)
   ≤ List.length (List.filter (id_from n) ids))%nat.
Proof.
  induction ids as [|y ys IH]; [done|]. cbn [List.filter].
  destruct y as [| | |z| | |]; cbn [id_from]; try done.
  destruct (Z.leb_spec (n + 1) z), (Z.leb_spec n z); simpl; lia.
Qed.

Lemma id_from_succ_lt n ids :
  includes (VNum n) ids = true →
  (List.length (List.filter (id_from (n + 1)) ids)
   < List.length (List.filter (id_from n) ids))%nat.
Proof.
  unfold includes. induction ids as [|y ys IH]; [done|].
  cbn [existsb List.filter]. case_bool_decide as Hy.
  - intros _. subst y. cbn [id_from]. pose proof (id_from_succ_le n ys).
    destruct (Z.leb_spec (n + 1) n), (Z.leb_spec n n); simpl; lia.
  - cbn [orb]. intros Hin. specialize (IH Hin).
    destruct y as [| | |z| | |]; cbn [id_from]; try done.
    destruct (Z.leb_spec (n + 1) z), (Z.leb_spec n z); simpl; lia.
Qed.

Lemma bump_fresh fuel ids n :
  (List.length (List.filter (id_from n) ids) ≤ fuel)%nat →
  includes (VNum (StorageUtils.bump fuel ids n)) ids = false.
Proof.
  revert n. induction fuel as [|fuel IH]; intros n Hlen;
    cbn [StorageUtils.bump].
  - destruct (includes (VNum n) ids) eqn:Hin; [|done].
    pose proof (id_from_succ_lt n ids Hin). lia.
  - destruct (includes (VNum n) ids) eqn:Hin; [|done].
    apply IH. pose proof (id_from_succ_lt n ids Hin). lia.
Qed.

Lemma generateUniqueId_fresh timestamp random ids :
  includes (VNum (StorageUtils.generateUniqueId timestamp random ids)) ids
  = false.
Proof. apply bump_fresh, List.filter_length_le. Qed.

(** C2 fails on the code.  A caller passes [addArticle] an article that
    carries [id: 1], [views: 5] and a [createdAt] of its own.  The stored
    record has the store's timestamp and the caller's view count, but its id
    is the caller's 1, which the first seed article already has, and not the
    generated 17294256000004712. *)
Theorem C2_caller_id_replaces_generated_id :
  let st := Scenario.with_forged in
  let r := DATA_STORE.addArticle st Scenario.all_ok Scenario.forged_ref in
  Validators.isValidArticle (heap st) Scenario.forged_ref = Ret true
  ∧ mapR (λ a, getProp (heap st) a "id") (arr (heap st) (articles st))
    = Ret [VNum 1; VNum 2; VNum 3; VNum 4]
  ∧ StorageUtils.generateUniqueId (now Scenario.all_ok) (random Scenario.all_ok)
      [VNum 1; VNum 2; VNum 3; VNum 4] = 17294256000004712
  ∧ r.2 = VRef 16%nat
  ∧ fields_of (heap r.1) r.2 !! "id" = Some (VNum 1)
  ∧ fields_of (heap r.1) r.2 !! "createdAt"
    = Some (VStr "2024-10-20T12:00:00.000Z")
  ∧ fields_of (heap r.1) r.2 !! "views" = Some (VNum 5)
  ∧ fields_of (heap r.1) r.2 !! "engagement" = Some (VNum 0)
  ∧ fields_of (heap r.1) r.2 !! "publishDate" = Some VNull
  ∧ DATA_STORE.getArticleById r.1 (VNum 1) = VRef 7%nat.
Proof. vm_compute. repeat split. Qed.


(** ** The filters *)

Lemma filterR_filter p xs :
  Forall (λ x, p x ≠ Throw) xs →
  filterR p xs = Ret (filter (λ x, p x = Ret true) xs).
Proof.
  induction 1 as [|x xs Hx _ IH]; [done|].
  cbn [filterR]. rewrite IH. destruct (p x) as [[|]|] eqn:Hp; [| |done]; cbn [bind].
  - by rewrite filter_cons_True by exact Hp.
  - by rewrite filter_cons_False by (rewrite Hp; discriminate).
Qed.

Lemma filterR_throw p xs x : x ∈ xs → p x = Throw → filterR p xs = Throw.
Proof.
  intros Hin Hx. induction xs as [|y xs IH]; [by apply elem_of_nil in Hin|].
  cbn [filterR]. apply elem_of_cons in Hin as [<-|Hin].
  - by rewrite Hx.
  - rewrite (IH Hin). by destruct (p y).
Qed.

Lemma filterR_sound p xs ys :
  filterR p xs = Ret ys →
  ys `sublist_of` xs ∧ Forall (λ y, p y = Ret true) ys.
Proof.
  revert ys. induction xs as [|x xs IH]; intros ys; cbn [filterR].
  - intros [= <-]. by split.
  - destruct (p x) as [b|] eqn:Hp; [|done]. cbn [bind].
    destruct (filterR p xs) as [zs|]; [|done]. cbn [bind].
    destruct (IH zs eq_refl) as [Hsub Hall].
    destruct b; intros [= <-].
    + split; [by apply sublist_skip|by constructor].
    + split; [by apply sublist_cons|done].
Qed.

Lemma field_is_defined h k x a :
  a ≠ VUndef → a ≠ VNull → DATA_STORE.field_is h k x a ≠ Throw.
Proof.
  intros Hu Hn. unfold DATA_STORE.field_is, getProp.
  destruct a as [| | | | | |l]; try done.
  by destruct (h !! l) as [[f|zs]|].
Qed.

Lemma strict_equal_eq i x : x ≠ VNaN → strict_equal i x = bool_decide (i = x).
Proof. intros Hx. destruct i, x; try reflexivity; by destruct Hx. Qed.

Lemma field_is_true h k x a :
  x ≠ VNaN →
  DATA_STORE.field_is h k x a = Ret true ↔ getProp h a k = Ret x.
Proof.
  intros Hx. unfold DATA_STORE.field_is.
  destruct (getProp h a k) as [i|]; cbn [bind]; [|done].
  rewrite (strict_equal_eq _ _ Hx). split.
  - intros [= H]. by apply bool_decide_eq_true in H as ->.
  - intros [= ->]. by rewrite bool_decide_eq_true_2.
Qed.

Lemma filterR_selects h k x xs ys :
  x ≠ VNaN →
  catch (filterR (DATA_STORE.field_is h k x) xs) [] = ys →
  selects h k x xs ys.
Proof.
  intros Hx Hys. split; [|split].
  - destruct (filterR _ xs) as [zs|] eqn:Hf; cbn [catch] in Hys; subst.
    + by apply filterR_sound in Hf as [? _].
    + apply sublist_nil_l.
  - destruct (filterR _ xs) as [zs|] eqn:Hf; cbn [catch] in Hys; subst; [|done].
    apply filterR_sound in Hf as [_ Hall].
    eapply Forall_impl; [exact Hall|]. intros y. by apply field_is_true.
  - intros Hobj. rewrite filterR_filter in Hys.
    + cbn [catch] in Hys. subst. apply list_filter_iff. intros a.
      by apply field_is_true.
    + eapply Forall_impl; [exact Hobj|]. intros a [? ?]. by apply field_is_defined.
Qed.

Lemma new_array_returns st ys :
  returns_new_array st (DATA_STORE.new_array st ys) ys.
Proof. eexists. split; [reflexivity|apply fresh_not_allocated]. Qed.

Lemma includes_status x :
  includes x ARTICLE_STATUS.values = true → x ≠ VNaN.
Proof. by intros H ->. Qed.

Lemma getArticlesByStatus_selects st x :
  ∃ ys, returns_new_array st (DATA_STORE.getArticlesByStatus st x) ys
        ∧ ys `sublist_of` arr (heap st) (articles st)
        ∧ if includes x ARTICLE_STATUS.values
          then selects (heap st) "status" x (arr (heap st) (articles st)) ys
          else ys = [].
Proof.
  eexists. split; [apply new_array_returns|].
  destruct (includes x ARTICLE_STATUS.values) eqn:Hin; cbn [negb].
  - assert (selects (heap st) "status" x (arr (heap st) (articles st))
              (catch (filterR (DATA_STORE.field_is (heap st) "status" x)
                        (arr (heap st) (articles st))) [])) as Hsel
      by (apply filterR_selects; [by apply includes_status|done]).
    split; [apply Hsel|exact Hsel].
  - split; [apply sublist_nil_l|done].
Qed.

Lemma getArticlesByAuthor_selects st x :
  ∃ ys, returns_new_array st (DATA_STORE.getArticlesByAuthor st x) ys
        ∧ ys `sublist_of` arr (heap st) (articles st)
        ∧ match parseInt (heap st) x with
          | Some n => selects (heap st) "authorId" (VNum n)
                        (arr (heap st) (articles st)) ys
          | None => ys = []
          end.
Proof.
  eexists. split; [apply new_array_returns|].
  destruct (parseInt (heap st) x) as [n|].
  - assert (selects (heap st) "authorId" (VNum n) (arr (heap st) (articles st))
              (catch (filterR (DATA_STORE.field_is (heap st) "authorId" (VNum n))
                        (arr (heap st) (articles st))) [])) as Hsel
      by (by apply filterR_selects).
    split; [apply Hsel|exact Hsel].
  - split; [apply sublist_nil_l|done].
Qed.

(** ** C4: what the store hands out *)

(** C4, as stated, fails: [getArticleById] returns the stored record itself,
    so that a caller who assigns to its title has changed the first article
    of the store. *)
Lemma C4_returned_record_is_the_stored_one :
  let st := Scenario.first_run in
  let defaced := setProp (heap st) 7%nat "title" (VStr "Defaced") in
  DATA_STORE.getArticleById st (VNum 1) = VRef 7%nat
  ∧ arr (heap st) (articles st) !! 0%nat = Some (VRef 7%nat)
  ∧ getProp defaced (VRef 7%nat) "title" = Ret (VStr "Defaced")
  ∧ getProp defaced (VRef 7%nat) "title" ≠ getProp (heap st) (VRef 7%nat) "title"
  ∧ ¬ (∀ a, a ∈ arr (heap st) (articles st) →
            fields_of defaced a = fields_of (heap st) a).
Proof.
  intros st defaced.
  assert (H1 : arr (heap st) (articles st) !! 0%nat = Some (VRef 7%nat))
    by (vm_compute; reflexivity).
  assert (H2 : getProp defaced (VRef 7%nat) "title" = Ret (VStr "Defaced"))
    by (vm_compute; reflexivity).
  assert (H3 : getProp (heap st) (VRef 7%nat) "title"
               = Ret (VStr "The Resurrection of Park Street's Colonial Architecture"))
    by (vm_compute; reflexivity).
  split; [vm_compute; reflexivity|]. split; [exact H1|]. split; [exact H2|].
  split; [by rewrite H2, H3|].
  intros Hsame. specialize (Hsame _ (list_elem_of_lookup_2 _ _ _ H1)).
  apply (f_equal (λ f : gmap string value, f !! "title")) in Hsame.
  vm_compute in Hsame. discriminate Hsame.
Qed.

(** C4, amended: [getArticles] and [getUsers] return a new array with the
    same elements, so that whatever a caller writes to that array leaves
    every cell the store had as it was; the records in it are the store's
    own.  [getArticlesByStatus] and [getArticlesByAuthor] return a new array
    as well, of elements of the store's array in their order.
    [getArticleById] returns an element of the store's array, [exportData]
    returns an object whose [articles] and [users] are the store's own
    arrays, and a successful [addArticle] returns the record it has just put
    at the end of the store's array. *)
Theorem C4_only_the_array_is_copied (st : store) (e : env) :
  (∃ l, DATA_STORE.getArticles st
        = (set_heap st (<[l := CArr (arr (heap st) (articles st))]> (heap st)),
           VRef l)
        ∧ heap st !! l = None
        ∧ ∀ c l0, is_Some (heap st !! l0) →
            (<[l := c]> (heap (DATA_STORE.getArticles st).1)) !! l0
            = heap st !! l0)
  ∧ (∃ l, DATA_STORE.getUsers st
          = (set_heap st (<[l := CArr (arr (heap st) (users st))]> (heap st)),
             VRef l)
          ∧ heap st !! l = None
          ∧ ∀ c l0, is_Some (heap st !! l0) →
              (<[l := c]> (heap (DATA_STORE.getUsers st).1)) !! l0
              = heap st !! l0)
  ∧ (∀ x, ∃ ys,
       returns_new_array st (DATA_STORE.getArticlesByStatus st x) ys
       ∧ ys `sublist_of` arr (heap st) (articles st))
  ∧ (∀ x, ∃ ys,
       returns_new_array st (DATA_STORE.getArticlesByAuthor st x) ys
       ∧ ys `sublist_of` arr (heap st) (articles st))
  ∧ (∀ id l, DATA_STORE.getArticleById st id = VRef l →
             VRef l ∈ arr (heap st) (articles st))
  ∧ (∃ l, (DATA_STORE.exportData st e).2 = VRef l
          ∧ fields_of (heap (DATA_STORE.exportData st e).1) (VRef l) !! "articles"
            = Some (VRef (articles st))
          ∧ fields_of (heap (DATA_STORE.exportData st e).1) (VRef l) !! "users"
            = Some (VRef (users st)))
  ∧ (∀ d st' r, store_wf st → DATA_STORE.addArticle st e d = (st', r) →
                r ≠ VNull →
                arr (heap st') (articles st') = arr (heap st) (articles st) ++ [r]).
Proof.
  assert (Hcopy : ∀ a c l0, is_Some (heap st !! l0) →
            (<[fresh (dom (heap st)) := c]>
               (<[fresh (dom (heap st)) := CArr (arr (heap st) a)]> (heap st)))
            !! l0 = heap st !! l0).
  { intros a c l0 [c0 Hl0]. rewrite insert_insert_eq.
    rewrite lookup_insert_ne; [done|]. by apply (fresh_ne _ _ c0). }
  split; [|split; [|split; [|split; [|split; [|split]]]]].
  - exists (fresh (dom (heap st))). split; [done|].
    split; [apply fresh_not_allocated|]. apply Hcopy.
  - exists (fresh (dom (heap st))). split; [done|].
    split; [apply fresh_not_allocated|]. apply Hcopy.
  - intros x.
    destruct (getArticlesByStatus_selects st x) as (ys & Hnew & Hsub & _).
    by exists ys.
  - intros x.
    destruct (getArticlesByAuthor_selects st x) as (ys & Hnew & Hsub & _).
    by exists ys.
  - intros id l Hget.
    by destruct (getArticleById_found _ _ _ Hget) as (z & f & _ & Hin & _).
  - exists (fresh (dom (heap st))). unfold DATA_STORE.exportData.
    cbn [fst snd set_heap heap fields_of]. rewrite lookup_insert_eq.
    split; [done|]. split; by vm_compute.
  - intros d st' r Hwf Hadd Hr.
    by destruct (addArticle_stores _ _ _ _ _ Hwf Hadd Hr)
      as (ids & l & _ & _ & _ & _ & Harr).
Qed.

Lemma C4_only_the_array_is_copied_witness :
  let st := Scenario.with_draft in
  let r := DATA_STORE.addArticle st Scenario.all_ok Scenario.draft_ref in
  store_wf st
  ∧ r.2 ≠ VNull
  ∧ arr (heap r.1) (articles r.1) = arr (heap st) (articles st) ++ [r.2]
  ∧ VRef 7%nat ∈ arr (heap st) (articles st)
  ∧ ∃ ys,
      returns_new_array st
        (DATA_STORE.getArticlesByStatus st (VStr ARTICLE_STATUS.PUBLISHED)) ys
      ∧ ys `sublist_of` arr (heap st) (articles st).
Proof.
  intros st r.
  assert (H1 : store_wf st) by concrete_wf.
  assert (H2 : r.2 ≠ VNull) by (vm_compute; discriminate).
  assert (H3 : DATA_STORE.getArticleById st (VNum 1) = VRef 7%nat)
    by (vm_compute; reflexivity).
  pose proof (C4_only_the_array_is_copied st Scenario.all_ok)
    as (_ & _ & Hstatus & _ & Hby & _ & Hadd).
  split; [exact H1|]. split; [exact H2|].
  split; [exact (Hadd _ r.1 r.2 H1 (surjective_pairing r) H2)|].
  split; [exact (Hby _ _ H3)|].
  exact (Hstatus (VStr ARTICLE_STATUS.PUBLISHED)).
Defined.

(** ** C6: the lookup of updateArticleStatus *)

(** C6, as stated, fails: the stored id is the number 1, the call passes the
    string "1", and [updateArticleStatus] finds the article and succeeds. *)
Lemma C6_string_id_finds_the_article :
  let st := Scenario.first_run in
  let r := DATA_STORE.updateArticleStatus st Scenario.all_ok (VStr "1")
             (VStr ARTICLE_STATUS.REVIEW) in
  getProp (heap st) (VRef 7%nat) "id" = Ret (VNum 1)
  ∧ typeof_number (VStr "1") = false
  ∧ DATA_STORE.getArticleById st (VStr "1") = VRef 7%nat
  ∧ r.2 = true
  ∧ getProp (heap r.1) (VRef 7%nat) "status" = Ret (VStr ARTICLE_STATUS.REVIEW).
Proof. vm_compute. repeat split. Qed.

(** C6, amended: [updateArticleStatus] looks its article up with
    [getArticleById], which applies [parseInt] to the id just as
    [updateArticle] and [deleteArticle] do; each of the three returns
    [false] without a change when the id parses to no integer (its text does
    not start with one, or its conversion to text raises), and behaves on an
    id that parses to a safe integer as on that integer. *)
Theorem C6_all_three_lookups_coerce (st : store) (e : env) (id x : value) :
  match parseInt (heap st) id with
  | Some z =>
      safe_integer z →
      DATA_STORE.updateArticleStatus st e id x
      = DATA_STORE.updateArticleStatus st e (VNum z) x
      ∧ DATA_STORE.updateArticle st e id x
        = DATA_STORE.updateArticle st e (VNum z) x
      ∧ DATA_STORE.deleteArticle st e id
        = DATA_STORE.deleteArticle st e (VNum z)
  | None =>
      DATA_STORE.updateArticleStatus st e id x = (st, false)
      ∧ DATA_STORE.updateArticle st e id x = (st, false)
      ∧ DATA_STORE.deleteArticle st e id = (st, false)
  end.
Proof.
  destruct (parseInt (heap st) id) as [z|] eqn:Hp.
  - intros _.
    unfold DATA_STORE.updateArticleStatus, DATA_STORE.updateArticle,
      DATA_STORE.deleteArticle.
    by rewrite (getArticleById_coerces _ _ _ Hp), Hp, parseInt_num.
  - unfold DATA_STORE.updateArticleStatus, DATA_STORE.updateArticle,
      DATA_STORE.deleteArticle.
    rewrite (getArticleById_NaN _ _ Hp), Hp.
    by destruct (negb (includes x ARTICLE_STATUS.values)).
Qed.

Lemma C6_all_three_lookups_coerce_witness :
  let st := Scenario.first_run in
  let e := Scenario.all_ok in
  let review := VStr ARTICLE_STATUS.REVIEW in
  let st' := Scenario.with_pair in
  parseInt (heap st) (VStr Scenario.nbsp_2) = Some 2
  ∧ safe_integer 2
  ∧ DATA_STORE.updateArticleStatus st e (VStr Scenario.nbsp_2) review
    = DATA_STORE.updateArticleStatus st e (VNum 2) review
  ∧ (DATA_STORE.updateArticleStatus st e (VNum 2) review).2 = true
  ∧ toString (heap st') Scenario.pair_ref = Throw
  ∧ parseInt (heap st') Scenario.pair_ref = None
  ∧ DATA_STORE.updateArticleStatus st' e Scenario.pair_ref review = (st', false)
  ∧ DATA_STORE.deleteArticle st' e Scenario.pair_ref = (st', false).
Proof.
  intros st e review st'.
  assert (Hp : parseInt (heap st) (VStr Scenario.nbsp_2) = Some 2)
    by (vm_compute; reflexivity).
  assert (Hs : safe_integer 2) by safe.
  assert (Hq : parseInt (heap st') Scenario.pair_ref = None)
    by (vm_compute; reflexivity).
  pose proof (C6_all_three_lookups_coerce st e (VStr Scenario.nbsp_2) review)
    as H.
  pose proof (C6_all_three_lookups_coerce st' e Scenario.pair_ref review) as H0.
  rewrite Hp in H. rewrite Hq in H0.
  split; [exact Hp|]. split; [exact Hs|].
  split; [exact (proj1 (H Hs))|]. split; [vm_compute; reflexivity|].
  split; [vm_compute; reflexivity|]. split; [exact Hq|].
  split; [exact (proj1 H0)|exact (proj2 (proj2 H0))].
Defined.

(** ** C10: import is all or nothing *)

(** C10: when the articles of the payload are an array with an element that
    the article validator does not accept, or its users an array with an
    element that the user validator does not accept, [importData] returns
    [false] and the store is exactly as before. *)
Theorem C10_import_rejects_invalid (st : store) (e : env) (data : value) :
  (∃ la a,
      isArray (heap st) (catch (getProp (heap st) data "articles") VUndef)
      = Some la
      ∧ a ∈ arr (heap st) la
      ∧ Validators.isValidArticle (heap st) a ≠ Ret true)
  ∨ (∃ lu u,
      isArray (heap st) (catch (getProp (heap st) data "users") VUndef)
      = Some lu
      ∧ u ∈ arr (heap st) lu
      ∧ Validators.isValidUser (heap st) u ≠ Ret true) →
  DATA_STORE.importData st e data = (st, false).
Proof.
  intros Hbad. unfold DATA_STORE.importData, DATA_STORE.every_of. cbv zeta.
  destruct (negb _ || negb _ || negb _); [done|].
  destruct (isArray (heap st) (catch (getProp (heap st) data "articles") VUndef))
    as [la|] eqn:Hla; [|done].
  destruct (every _ (arr (heap st) la)) as [[|]|] eqn:Hea; [| |done].
  - destruct (isArray (heap st) (catch (getProp (heap st) data "users") VUndef))
      as [lu|] eqn:Hlu; [|done].
    destruct (every _ (arr (heap st) lu)) as [[|]|] eqn:Heu; [|done..].
    exfalso. destruct Hbad as [(la' & a & [= <-] & Hin & Ha)
                              |(lu' & u & [= <-] & Hin & Hu)].
    + by apply (every_not_true _ _ _ Hin Ha).
    + by apply (every_not_true _ _ _ Hin Hu).
  - destruct (isArray (heap st) (catch (getProp (heap st) data "users") VUndef))
      as [lu|]; [|done].
    by destruct (every _ (arr (heap st) lu)) as [[|]|].
Qed.

Lemma C10_import_rejects_invalid_witness :
  let st := Scenario.with_payload in
  isArray (heap st) (catch (getProp (heap st) Scenario.payload_ref "articles")
                       VUndef) = Some 17%nat
  ∧ VRef 16%nat ∈ arr (heap st) 17%nat
  ∧ Validators.isValidArticle (heap st) (VRef 7%nat) = Ret true
  ∧ Validators.isValidArticle (heap st) (VRef 16%nat) ≠ Ret true
  ∧ DATA_STORE.importData st Scenario.all_ok Scenario.payload_ref = (st, false).
Proof.
  intros st.
  assert (H1 : isArray (heap st)
                 (catch (getProp (heap st) Scenario.payload_ref "articles") VUndef)
               = Some 17%nat) by (vm_compute; reflexivity).
  assert (H2 : VRef 16%nat ∈ arr (heap st) 17%nat).
  { replace (arr (heap st) 17%nat) with [VRef 7%nat; VRef 16%nat]
      by (vm_compute; reflexivity).
    apply list_elem_of_further, list_elem_of_here. }
  assert (H3 : Validators.isValidArticle (heap st) (VRef 16%nat) ≠ Ret true)
    by (vm_compute; discriminate).
  split; [exact H1|]. split; [exact H2|].
  split; [vm_compute; reflexivity|]. split; [exact H3|].
  apply (C10_import_rejects_invalid st Scenario.all_ok Scenario.payload_ref).
  left. exists 17%nat, (VRef 16%nat). auto.
Defined.

(** * The readers, and how the operations compose *)

(** ** Looking a record up by id *)

Lemma find_first p xs x :
  find p xs = Ret x →
  (x = VUndef ∧ Forall (λ y, p y = Ret false) xs)
  ∨ ∃ i, xs !! i = Some x ∧ p x = Ret true
         ∧ ∀ j y, (j < i)%nat → xs !! j = Some y → p y = Ret false.
Proof.
  induction xs as [|a xs IH]; simpl.
  - intros [= <-]. left. split; [done|constructor].
  - destruct (p a) as [[|]|] eqn:Hp; simpl; [| |done].
    + intros [= <-]. right. exists 0%nat. repeat split; [done|]. intros; lia.
    + intros H. destruct (IH H) as [[-> Hall]|(i & Hi & Hx & Hlt)].
      * left. split; [done|]. by constructor.
      * right. exists (S i). repeat split; [done..|].
        intros [|j] y Hj Hy; simplify_eq/=; [done|].
        apply (Hlt j); [lia|done].
Qed.

Lemma lookup_first st xs id :
  match parseInt (heap st) id with
  | None => lookup_result st xs id = VNull
  | Some n =>
      (lookup_result st xs id = VNull
       ∧ (Forall (λ y, y ≠ VUndef ∧ y ≠ VNull) xs →
          Forall (λ y, DATA_STORE.id_is (heap st) n y = Ret false) xs))
      ∨ ∃ l, lookup_result st xs id = VRef l
             ∧ first_with_id (heap st) xs n l
  end.
Proof.
  unfold lookup_result. destruct (parseInt (heap st) id) as [n|]; [|done].
  destruct (find _ xs) as [x|] eqn:Hf; simpl.
  - destruct (find_first _ _ _ Hf) as [[-> Hall]|(i & Hi & Hx & Hlt)].
    + left. split; [done|]. by intros _.
    + right. destruct (id_is_true _ _ _ Hx) as (l & f & -> & Hl & Hid).
      exists l. split; [done|]. by exists i, f.
  - left. split; [done|]. intros Hobj. exfalso.
    assert (∀ ys, Forall (λ y, y ≠ VUndef ∧ y ≠ VNull) ys →
                  find (DATA_STORE.id_is (heap st) n) ys ≠ Throw) as Hno.
    { clear. induction 1 as [|y ys [Hu Hn] _ IH]; simpl; [done|].
      assert (∃ b, DATA_STORE.id_is (heap st) n y = Ret b) as [b ->].
      { unfold DATA_STORE.id_is, getProp.
        destruct y as [| | | | | |l]; try done; simpl; eauto.
        destruct (heap st !! l) as [[f|zs]|]; simpl; eauto. }
      simpl. by destruct b. }
    by apply (Hno xs).
Qed.

(** X1.  [getArticleById] and [getUserById] return [null] when their
    argument parses to no integer: its text does not start, after white
    space, with an integer, or its conversion to text raises.  When it
    parses to a safe integer each returns either [null], or the first
    record of its collection whose [id] is that integer: no element before
    it has that id.  In a collection without [null] and [undefined]
    elements the answer is [null] only if no element has the id. *)
Theorem X1_lookup_by_id_first_match (st : store) (id : value) :
  match parseInt (heap st) id with
  | None =>
      DATA_STORE.getArticleById st id = VNull
      ∧ DATA_STORE.getUserById st id = VNull
  | Some n =>
      safe_integer n →
      ((DATA_STORE.getArticleById st id = VNull
        ∧ (Forall (λ y, y ≠ VUndef ∧ y ≠ VNull) (arr (heap st) (articles st)) →
           Forall (λ y, DATA_STORE.id_is (heap st) n y = Ret false)
             (arr (heap st) (articles st))))
       ∨ ∃ l, DATA_STORE.getArticleById st id = VRef l
              ∧ first_with_id (heap st) (arr (heap st) (articles st)) n l)
      ∧ ((DATA_STORE.getUserById st id = VNull
          ∧ (Forall (λ y, y ≠ VUndef ∧ y ≠ VNull) (arr (heap st) (users st)) →
             Forall (λ y, DATA_STORE.id_is (heap st) n y = Ret false)
               (arr (heap st) (users st))))
         ∨ ∃ l, DATA_STORE.getUserById st id = VRef l
                ∧ first_with_id (heap st) (arr (heap st) (users st)) n l)
  end.
Proof.
  pose proof (lookup_first st (arr (heap st) (articles st)) id) as Ha.
  pose proof (lookup_first st (arr (heap st) (users st)) id) as Hu.
  destruct (parseInt (heap st) id); [intros _|]; by split.
Qed.

Lemma X1_lookup_by_id_first_match_witness :
  let st := Scenario.first_run in
  let id := VStr Scenario.nbsp_2 in
  parseInt (heap st) id = Some 2
  ∧ safe_integer 2
  ∧ DATA_STORE.getArticleById st id = VRef 8%nat
  ∧ first_with_id (heap st) (arr (heap st) (articles st)) 2 8%nat
  ∧ DATA_STORE.getArticleById st (VStr "two") = VNull.
Proof.
  intros st id.
  assert (Hp : parseInt (heap st) id = Some 2) by (vm_compute; reflexivity).
  assert (Hs : safe_integer 2) by safe.
  assert (Hg : DATA_STORE.getArticleById st id = VRef 8%nat)
    by (vm_compute; reflexivity).
  assert (Hq : parseInt (heap st) (VStr "two") = None)
    by (vm_compute; reflexivity).
  split; [exact Hp|]. split; [exact Hs|]. split; [exact Hg|].
  pose proof (X1_lookup_by_id_first_match st id) as H.
  pose proof (X1_lookup_by_id_first_match st (VStr "two")) as H0.
  rewrite Hp in H. rewrite Hq in H0.
  split; [|exact (proj1 H0)].
  destruct (H Hs) as [[[Hnull _]|(l & Hl & Hfirst)] _].
  - rewrite Hg in Hnull. discriminate Hnull.
  - rewrite Hg in Hl. injection Hl as <-. exact Hfirst.
Defined.

(** ** Deleting *)

Lemma findIndex_first p xs i :
  findIndex p xs = Ret (Some i) →
  ∃ x, xs !! i = Some x ∧ p x = Ret true
       ∧ ∀ j y, (j < i)%nat → xs !! j = Some y → p y = Ret false.
Proof.
  revert i. induction xs as [|a xs IH]; intros i; simpl; [done|].
  destruct (p a) as [[|]|] eqn:Hp; simpl; [| |done].
  - intros [= <-]. exists a. repeat split; [done|]. intros; lia.
  - destruct (findIndex p xs) as [[k|]|]; simpl; intros [= <-].
    destruct (IH k eq_refl) as (x & Hx & Hpx & Hlt).
    exists x. repeat split; [done..|].
    intros [|j] y Hj Hy; simplify_eq/=; [done|]. apply (Hlt j); [lia|done].
Qed.

Lemma deleteArticle_first_match st e id st' :
  DATA_STORE.deleteArticle st e id = (st', true) →
  ∃ n i x,
    parseInt (heap st) id = Some n
    ∧ arr (heap st) (articles st) !! i = Some x
    ∧ DATA_STORE.id_is (heap st) n x = Ret true
    ∧ (∀ j y, (j < i)%nat → arr (heap st) (articles st) !! j = Some y →
              DATA_STORE.id_is (heap st) n y = Ret false)
    ∧ heap st' =
      <[articles st := CArr (delete i (arr (heap st) (articles st)))]> (heap st)
    ∧ articles st' = articles st ∧ users st' = users st.
Proof.
  unfold DATA_STORE.deleteArticle.
  destruct (parseInt (heap st) id) as [n|]; [|done].
  destruct (findIndex _ _) as [[i|]|] eqn:Hi; [|done..].
  destruct (findIndex_first _ _ _ Hi) as (x & Hx & Hpx & Hlt).
  save_outcome ls b Hb. destruct b; [|done]. intros [= <-].
  exists n, i, x. repeat (split; [assumption || reflexivity|]). reflexivity.
Qed.

(** X2.  A successful [deleteArticle] on an argument that parses to a safe
    integer removes the first article whose [id] is that integer: the
    articles before it do not have that id, the other articles keep their
    order, every other cell of the heap and the users are untouched, and
    both keys hold the new state. *)
Theorem X2_delete_removes_first_match (st : store) (e : env) (id : value)
    (n : Z) (st' : store) :
  parseInt (heap st) id = Some n →
  safe_integer n →
  DATA_STORE.deleteArticle st e id = (st', true) →
  ∃ i x,
    arr (heap st) (articles st) !! i = Some x
    ∧ DATA_STORE.id_is (heap st) n x = Ret true
    ∧ (∀ j y, (j < i)%nat → arr (heap st) (articles st) !! j = Some y →
              DATA_STORE.id_is (heap st) n y = Ret false)
    ∧ heap st' =
      <[articles st := CArr (delete i (arr (heap st) (articles st)))]> (heap st)
    ∧ articles st' = articles st ∧ users st' = users st
    ∧ in_sync st'.
Proof.
  intros Hp _ H.
  destruct (deleteArticle_first_match _ _ _ _ H)
    as (n' & i & x & Hn & Hx & Hid & Hlt & Hh & Ha & Hu).
  rewrite Hp in Hn. injection Hn as <-.
  exists i, x. do 6 (split; [assumption|]).
  exact (run_success_in_sync st e (DeleteArticle id) st' H).
Qed.

Lemma X2_delete_removes_first_match_witness :
  let st := Scenario.first_run in
  let id := VStr Scenario.nbsp_2 in
  let r := DATA_STORE.deleteArticle st Scenario.all_ok id in
  parseInt (heap st) id = Some 2
  ∧ safe_integer 2
  ∧ r = (r.1, true)
  ∧ ∃ i x,
      arr (heap st) (articles st) !! i = Some x
      ∧ DATA_STORE.id_is (heap st) 2 x = Ret true
      ∧ (∀ j y, (j < i)%nat → arr (heap st) (articles st) !! j = Some y →
                DATA_STORE.id_is (heap st) 2 y = Ret false)
      ∧ heap r.1 =
        <[articles st := CArr (delete i (arr (heap st) (articles st)))]> (heap st)
      ∧ articles r.1 = articles st ∧ users r.1 = users st
      ∧ in_sync r.1.
Proof.
  intros st id r.
  assert (Hp : parseInt (heap st) id = Some 2) by (vm_compute; reflexivity).
  assert (Hs : safe_integer 2) by safe.
  assert (H : r = (r.1, true)) by (vm_compute; reflexivity).
  split; [exact Hp|]. split; [exact Hs|]. split; [exact H|].
  exact (X2_delete_removes_first_match st Scenario.all_ok id 2 r.1 Hp Hs H).
Defined.

Lemma mapR_lookup f xs ys :
  mapR f xs = Ret ys →
  ∀ j y, xs !! j = Some y → ∃ v, f y = Ret v ∧ ys !! j = Some v.
Proof.
  revert ys. induction xs as [|a xs IH]; intros ys; simpl; [done|].
  destruct (f a) as [v|] eqn:Hf; simpl; [|done].
  destruct (mapR f xs) as [vs|]; simpl; [|done].
  intros [= <-] [|j] y Hy; simplify_eq/=; eauto.
Qed.

Lemma find_none p xs :
  Forall (λ y, p y = Ret false) xs → find p xs = Ret VUndef.
Proof. induction 1 as [|y ys Hy _ IH]; simpl; [done|]. by rewrite Hy. Qed.

Lemma getProp_arr_update (h : gmap loc cell) a xs ys v k :
  h !! a = Some (CArr xs) → getProp (<[a := CArr ys]> h) v k = getProp h v k.
Proof.
  intros Ha. destruct v as [| | | | | |l]; try done. simpl.
  destruct (decide (l = a)) as [->|Hne].
  - by rewrite lookup_insert_eq, Ha.
  - by rewrite lookup_insert_ne.
Qed.

Lemma arr_nonempty (h : gmap loc cell) a i x :
  arr h a !! i = Some x → h !! a = Some (CArr (arr h a)).
Proof.
  unfold arr. destruct (h !! a) as [[f|xs]|]; try done.
Qed.

Lemma parseInt_primitive (h h' : gmap loc cell) v :
  is_primitive v = true → parseInt h' v = parseInt h v.
Proof. by destruct v. Qed.

(** X3.  In a collection whose articles have pairwise different ids, a
    successful [deleteArticle] on an argument that parses to a safe integer
    leaves no article with that id: afterwards [getArticleById] yields
    [null] on every argument that parses to the integer, and so on the
    argument of the deletion when it is a number or a text. *)
Theorem X3_deleted_article_is_gone (st : store) (e : env) (id : value)
    (n : Z) (st' : store) :
  ids_distinct (heap st) (arr (heap st) (articles st)) →
  parseInt (heap st) id = Some n →
  safe_integer n →
  DATA_STORE.deleteArticle st e id = (st', true) →
  (∀ id', parseInt (heap st') id' = Some n →
          DATA_STORE.getArticleById st' id' = VNull)
  ∧ (is_primitive id = true → DATA_STORE.getArticleById st' id = VNull).
Proof.
  intros (ids & Hids & Hnd) Hn _ H.
  assert (Hall : ∀ id', parseInt (heap st') id' = Some n →
                        DATA_STORE.getArticleById st' id' = VNull).
  { intros id' Hn'.
    destruct (deleteArticle_first_match _ _ _ _ H)
      as (n' & i & x & Hn0 & Hx & Hid & _ & Hh & Ha & _).
    rewrite Hn in Hn0. injection Hn0 as <-.
    pose proof (arr_nonempty _ _ _ _ Hx) as Hcell.
    unfold DATA_STORE.getArticleById. rewrite Hn', Ha, Hh, arr_insert_eq.
    rewrite find_none; [done|].
    apply Forall_lookup_2. intros j y Hy.
    unfold DATA_STORE.id_is in *. rewrite (getProp_arr_update _ _ _ _ _ _ Hcell).
    set (j' := if decide (j < i)%nat then j else S j).
    assert (arr (heap st) (articles st) !! j' = Some y ∧ j' ≠ i) as [Hy' Hne].
    { unfold j'. destruct (decide (j < i)%nat).
      - rewrite list_lookup_delete_lt in Hy by done. split; [done|lia].
      - rewrite list_lookup_delete_ge in Hy by lia. split; [done|lia]. }
    destruct (mapR_lookup _ _ _ Hids _ _ Hy') as (v & Hv & Hjv).
    destruct (mapR_lookup _ _ _ Hids _ _ Hx) as (w & Hw & Hiw).
    rewrite Hv. rewrite Hw in Hid. simpl in *. f_equal.
    apply bool_decide_eq_false. intros ->.
    injection Hid as Hid. apply bool_decide_eq_true in Hid. subst w.
    apply Hne. by eapply NoDup_lookup. }
  split; [exact Hall|].
  intros Hprim. apply Hall. by rewrite (parseInt_primitive (heap st)).
Qed.

Lemma X3_deleted_article_is_gone_witness :
  let st := Scenario.first_run in
  let id := VStr Scenario.nbsp_2 in
  let r := DATA_STORE.deleteArticle st Scenario.all_ok id in
  ids_distinct (heap st) (arr (heap st) (articles st))
  ∧ parseInt (heap st) id = Some 2
  ∧ safe_integer 2
  ∧ r = (r.1, true)
  ∧ is_primitive id = true
  ∧ DATA_STORE.getArticleById st id = VRef 8%nat
  ∧ DATA_STORE.getArticleById r.1 id = VNull.
Proof.
  intros st id r.
  assert (ids_distinct (heap st) (arr (heap st) (articles st))) as Hd.
  { exists [VNum 1; VNum 2; VNum 3; VNum 4]. split; [vm_compute; reflexivity|].
    apply (bool_decide_unpack _). vm_compute. exact I. }
  assert (Hn : parseInt (heap st) id = Some 2) by (vm_compute; reflexivity).
  assert (Hs : safe_integer 2) by safe.
  assert (H : r = (r.1, true)) by (vm_compute; reflexivity).
  split; [exact Hd|]. split; [exact Hn|]. split; [exact Hs|].
  split; [exact H|]. split; [reflexivity|].
  split; [vm_compute; reflexivity|].
  exact (proj2 (X3_deleted_article_is_gone st Scenario.all_ok id 2 r.1
                  Hd Hn Hs H) eq_refl).
Defined.

(** ** Adding, then looking up or deleting *)

Lemma find_snoc p xs x :
  Forall (λ y, p y = Ret false ∨ y = x) xs → p x = Ret true →
  find p (xs ++ [x]) = Ret x.
Proof.
  intros Hall Hx. induction Hall as [|y ys [Hy| ->] _ IH]; simpl.
  - by rewrite Hx.
  - by rewrite Hy.
  - by rewrite Hx.
Qed.

Lemma findIndex_snoc p xs x :
  Forall (λ y, p y = Ret false) xs → p x = Ret true →
  findIndex p (xs ++ [x]) = Ret (Some (List.length xs)).
Proof.
  intros Hall Hx. induction Hall as [|y ys Hy _ IH]; simpl.
  - by rewrite Hx.
  - by rewrite Hy, IH.
Qed.

Lemma includes_false v xs : includes v xs = false → v ∉ xs.
Proof.
  unfold includes. intros H Hin.
  assert (existsb (λ x, bool_decide (x = v)) xs = true) as Ht; [|congruence].
  apply existsb_exists. exists v. split; [by apply list_elem_of_In|].
  by apply bool_decide_eq_true.
Qed.

(** What a successful [addArticle] leaves, for data without an [id] of its
    own: the new record at the end, under an id no stored article has. *)
Lemma addArticle_fresh_id st e d st' l :
  store_wf st → DATA_STORE.addArticle st e d = (st', VRef l) →
  fields_of (heap st) d !! "id" = None →
  ∃ n f ls,
    heap st !! l = None
    ∧ f !! "id" = Some (VNum n)
    ∧ st' = {| heap := push (<[l := CObj f]> (heap st)) (articles st) (VRef l);
               articles := articles st; users := users st; localStorage := ls |}
    ∧ Forall (λ y, y = VRef l ∨
                   (DATA_STORE.id_is (heap st) n y = Ret false
                    ∧ ∀ k, getProp (heap st') y k = getProp (heap st) y k))
        (arr (heap st) (articles st)).
Proof.
  intros [[xs Ha] _] H Hno.
  destruct (addArticle_success _ _ _ _ _ H) as (ids & ls & _ & Hids & Hl & ->);
    [done|].
  injection Hl as ->.
  set (n := StorageUtils.generateUniqueId (now e) (random e) ids).
  exists n, (DATA_STORE.newArticle n (fields_of (heap st) d) (toISOString (clock e))), ls.
  split; [apply fresh_not_allocated|].
  split.
  { rewrite newArticle_default by done. reflexivity. }
  split; [reflexivity|].
  apply Forall_lookup_2. intros j y Hy.
  destruct (decide (y = VRef (fresh (dom (heap st))))) as [->|Hne]; [by left|].
  right. destruct (mapR_lookup _ _ _ Hids _ _ Hy) as (v & Hv & Hjv).
  split.
  - unfold DATA_STORE.id_is. rewrite Hv. simpl. f_equal.
    apply bool_decide_eq_false. intros ->.
    apply (includes_false _ _ (generateUniqueId_fresh (now e) (random e) ids)).
    by eapply list_elem_of_lookup_2.
  - intros k. cbn [heap]. unfold push.
    rewrite (getProp_arr_update _ _ xs).
    + destruct y as [| | | | | |l']; try done. simpl.
      rewrite lookup_insert_ne by congruence. done.
    + rewrite lookup_insert_ne; [done|]. by apply fresh_ne with (CArr xs).
Qed.

(** X4.  When [addArticle] succeeds on data that brings no [id] of its
    own, the record it stored carries a number as its [id], and looking
    that number up returns this very record. *)
Theorem X4_added_article_is_found (st : store) (e : env) (d : value)
    (st' : store) (l : loc) :
  store_wf st → DATA_STORE.addArticle st e d = (st', VRef l) →
  fields_of (heap st) d !! "id" = None →
  ∃ n f, heap st' !! l = Some (CObj f) ∧ f !! "id" = Some (VNum n)
         ∧ DATA_STORE.getArticleById st' (VNum n) = VRef l.
Proof.
  intros Hwf H Hno.
  destruct (addArticle_fresh_id _ _ _ _ _ Hwf H Hno)
    as (n & f & ls & Hl & Hid & -> & Hall).
  destruct Hwf as [[xs Ha] _].
  assert (l ≠ articles st) as Hne by (intros ->; congruence).
  exists n, f. cbn [heap articles] in *. unfold push in *.
  rewrite lookup_insert_ne by done. rewrite lookup_insert_eq.
  split; [done|]. split; [done|].
  unfold DATA_STORE.getArticleById. rewrite parseInt_num. cbn [heap articles].
  rewrite arr_insert_eq, arr_insert_ne by done.
  assert (DATA_STORE.id_is
            (<[articles st := CArr (arr (heap st) (articles st) ++ [VRef l])]>
               (<[l := CObj f]> (heap st))) n (VRef l) = Ret true) as Hnew.
  { unfold DATA_STORE.id_is, getProp.
    rewrite lookup_insert_ne by done. rewrite lookup_insert_eq, Hid. simpl.
    by rewrite bool_decide_eq_true_2. }
  rewrite (find_snoc _ _ (VRef l)); [done| |done].
  rewrite arr_insert_ne in Hall by done.
  eapply Forall_impl; [exact Hall|]. intros y [->|[Hy Hk]]; [by right|left].
  unfold DATA_STORE.id_is in *. by rewrite Hk.
Qed.

Lemma X4_added_article_is_found_witness :
  let st := Scenario.with_draft in
  let r := DATA_STORE.addArticle st Scenario.all_ok Scenario.draft_ref in
  store_wf st
  ∧ r = (r.1, VRef Scenario.draft_loc)
  ∧ fields_of (heap st) Scenario.draft_ref !! "id" = None
  ∧ ∃ n f, heap r.1 !! Scenario.draft_loc = Some (CObj f)
           ∧ f !! "id" = Some (VNum n)
           ∧ DATA_STORE.getArticleById r.1 (VNum n) = VRef Scenario.draft_loc.
Proof.
  assert (store_wf Scenario.with_draft) as Hwf by concrete_wf.
  assert (DATA_STORE.addArticle Scenario.with_draft Scenario.all_ok
            Scenario.draft_ref
          = ((DATA_STORE.addArticle Scenario.with_draft Scenario.all_ok
                Scenario.draft_ref).1, VRef Scenario.draft_loc)) as H.
  { vm_compute. reflexivity. }
  assert (fields_of (heap Scenario.with_draft) Scenario.draft_ref !! "id" = None)
    as Hno.
  { vm_compute. reflexivity. }
  split; [exact Hwf|]. split; [exact H|]. split; [exact Hno|].
  exact (X4_added_article_is_found _ _ _ _ _ Hwf H Hno).
Defined.

(** X5.  On a store whose articles all pass the shape check, adding an
    article (without an [id] of its own) and then deleting the id it
    received gives back the articles that were there before, in their
    order, when the deletion is saved; when it is not, the added article
    stays at the end. *)
Theorem X5_add_then_delete_restores (st : store) (e : env) (d : value)
    (st1 : store) (l : loc) :
  articles_valid st → DATA_STORE.addArticle st e d = (st1, VRef l) →
  fields_of (heap st) d !! "id" = None →
  ∃ n, fields_of (heap st1) (VRef l) !! "id" = Some (VNum n)
       ∧ ∀ e',
           let r := DATA_STORE.deleteArticle st1 e' (VNum n) in
           articles r.1 = articles st
           ∧ arr (heap r.1) (articles r.1) =
             if r.2 then arr (heap st) (articles st)
             else arr (heap st) (articles st) ++ [VRef l].
Proof.
  intros [Hwf Hval] H Hno.
  destruct (addArticle_fresh_id _ _ _ _ _ Hwf H Hno)
    as (n & f & ls & Hl & Hid & -> & Hall).
  destruct Hwf as [[xs Ha] _].
  assert (l ≠ articles st) as Hne by (intros ->; congruence).
  set (h1 := push (<[l := CObj f]> (heap st)) (articles st) (VRef l)) in *.
  assert (arr h1 (articles st) = arr (heap st) (articles st) ++ [VRef l]) as Harr.
  { unfold h1, push. by rewrite arr_insert_eq, arr_insert_ne. }
  assert (DATA_STORE.id_is h1 n (VRef l) = Ret true) as Hnew.
  { unfold DATA_STORE.id_is, getProp, h1, push.
    rewrite lookup_insert_ne by done. rewrite lookup_insert_eq, Hid. simpl.
    by rewrite bool_decide_eq_true_2. }
  assert (Forall (λ y, DATA_STORE.id_is h1 n y = Ret false)
            (arr (heap st) (articles st))) as Hold.
  { apply Forall_lookup_2. intros j y Hy.
    pose proof (Forall_lookup_1 _ _ _ _ Hall Hy) as [->|[Hf Hk]].
    - pose proof (Forall_lookup_1 _ _ _ _ Hval Hy) as Hv.
      destruct (isValidArticle_true _ _ Hv) as (l' & g & [= <-] & Hg & _).
      congruence.
    - unfold DATA_STORE.id_is in *. cbn [heap] in Hk. by rewrite Hk. }
  exists n. split.
  { cbn [heap fields_of]. unfold h1, push.
    rewrite lookup_insert_ne by done. by rewrite lookup_insert_eq. }
  intros e'. unfold DATA_STORE.deleteArticle. rewrite parseInt_num.
  cbn [heap articles]. rewrite Harr, (findIndex_snoc _ _ _ Hold Hnew).
  rewrite lookup_app_r, Nat.sub_diag by done. cbn [lookup list_lookup default].
  save_outcome ls' b Hb. destruct b; cbn [fst snd heap articles set_heap].
  - split; [done|]. unfold splice_out. rewrite arr_insert_eq, Harr.
    rewrite (delete_middle _ []). by rewrite app_nil_r.
  - split; [done|]. unfold splice_in, splice_out.
    rewrite !arr_insert_eq, Harr. apply splice_roundtrip.
    rewrite lookup_app_r, Nat.sub_diag by done. done.
Qed.

Lemma X5_add_then_delete_restores_witness :
  let st := Scenario.with_draft in
  let r := DATA_STORE.addArticle st Scenario.all_ok Scenario.draft_ref in
  articles_valid st
  ∧ r = (r.1, VRef Scenario.draft_loc)
  ∧ fields_of (heap st) Scenario.draft_ref !! "id" = None
  ∧ ∃ n, fields_of (heap r.1) (VRef Scenario.draft_loc) !! "id" = Some (VNum n)
         ∧ ∀ e',
             let r' := DATA_STORE.deleteArticle r.1 e' (VNum n) in
             articles r'.1 = articles st
             ∧ arr (heap r'.1) (articles r'.1) =
               if r'.2 then arr (heap st) (articles st)
               else arr (heap st) (articles st) ++ [VRef Scenario.draft_loc].
Proof.
  assert (articles_valid Scenario.with_draft) as Hv.
  { split; [concrete_wf|].
    replace (arr (heap Scenario.with_draft) (articles Scenario.with_draft))
      with (VRef <$> [7; 8; 9; 10]%nat) by (vm_compute; reflexivity).
    repeat (apply Forall_cons_2; [vm_compute; reflexivity|]). apply Forall_nil_2. }
  assert (DATA_STORE.addArticle Scenario.with_draft Scenario.all_ok
            Scenario.draft_ref
          = ((DATA_STORE.addArticle Scenario.with_draft Scenario.all_ok
                Scenario.draft_ref).1, VRef Scenario.draft_loc)) as H.
  { vm_compute. reflexivity. }
  assert (fields_of (heap Scenario.with_draft) Scenario.draft_ref !! "id" = None)
    as Hno.
  { vm_compute. reflexivity. }
  split; [exact Hv|]. split; [exact H|]. split; [exact Hno|].
  exact (X5_add_then_delete_restores _ _ _ _ _ Hv H Hno).
Defined.

(** ** What the validators look at *)

(** X6.  The shape check reads the presence of the required properties,
    the value of [status] and the type of [authorId], and nothing else: a
    record that passes still passes after any property other than
    [hasOwnProperty] is set to any value, provided a new [status] is one of
    the three and a new [authorId] is a number.  A [title] that is
    [undefined] and an [authorId] that is [NaN] pass. *)
Theorem X6_shape_check_reads_presence_only (h : gmap loc cell) (l : loc)
    (k : string) (x : value) :
  Validators.isValidArticle h (VRef l) = Ret true →
  k ≠ "hasOwnProperty" →
  (k = "status" → includes x ARTICLE_STATUS.values = true) →
  (k = "authorId" → typeof_number x = true) →
  Validators.isValidArticle (setProp h l k x) (VRef l) = Ret true.
Proof.
  intros Hv Hk Hs Ha.
  destruct (isValidArticle_true _ _ Hv) as (l' & f & [= <-] & Hl & Hf).
  rewrite (setProp_obj _ _ _ _ _ Hl).
  rewrite (isValidArticle_obj _ _ (<[k := x]> f)) by apply lookup_insert_eq.
  apply article_fields_valid_true in Hf as (Hown & Hreq & Hst & Hau).
  apply article_fields_valid_true. split; [|split; [|split]].
  - by rewrite lookup_insert_ne.
  - intros k' Hk'. destruct (decide (k' = k)) as [->|Hne].
    + rewrite lookup_insert_eq. eauto.
    + rewrite lookup_insert_ne by done. by apply Hreq.
  - destruct (decide (k = "status")) as [->|Hne].
    + rewrite lookup_insert_eq. by apply Hs.
    + by rewrite lookup_insert_ne.
  - destruct (decide (k = "authorId")) as [->|Hne].
    + rewrite lookup_insert_eq. by apply Ha.
    + by rewrite lookup_insert_ne.
Qed.

Lemma X6_shape_check_reads_presence_only_witness :
  let h := heap Scenario.first_run in
  Validators.isValidArticle h (VRef 7%nat) = Ret true
  ∧ Validators.isValidArticle (setProp h 7%nat "title" VUndef) (VRef 7%nat)
    = Ret true
  ∧ Validators.isValidArticle (setProp h 7%nat "authorId" VNaN) (VRef 7%nat)
    = Ret true.
Proof.
  assert (Validators.isValidArticle (heap Scenario.first_run) (VRef 7%nat)
          = Ret true) as H by (vm_compute; reflexivity).
  split; [exact H|]. split.
  - apply (X6_shape_check_reads_presence_only _ _ "title" VUndef H);
      [discriminate | discriminate | discriminate].
  - apply (X6_shape_check_reads_presence_only _ _ "authorId" VNaN H);
      [discriminate | discriminate | reflexivity].
Defined.

Lemma hasRequired_not_obj (h : gmap loc cell) l ks :
  (∀ f, h !! l ≠ Some (CObj f)) →
  ∃ b, Validators.hasRequired h (VRef l) ks = Ret b.
Proof.
  intros Hl. destruct ks as [|k ks]; simpl; [eauto|].
  destruct (h !! l) as [[f|xs]|] eqn:E; simpl; eauto. by destruct (Hl f).
Qed.

Lemma isValidUser_obj (h : gmap loc cell) l f :
  h !! l = Some (CObj f) →
  Validators.isValidUser h (VRef l) =
  match f !! "hasOwnProperty" with
  | Some _ => Throw
  | None =>
      Ret (forallb (λ k, bool_decide (is_Some (f !! k))) Validators.user_required
           && includes (default VUndef (f !! "role")) USER_ROLES.values
           && typeof_number (default VUndef (f !! "id")))
  end.
Proof.
  intros Hl. unfold Validators.isValidUser.
  cbn [truthy typeof_object negb orb]. unfold Validators.user_required.
  rewrite (hasRequired_obj _ _ _ _ _ Hl), !(getProp_obj _ _ _ _ Hl).
  destruct (f !! "hasOwnProperty"); [done|]. cbn [bind].
  destruct (forallb _ _); [|done]. cbn [negb andb].
  destruct (includes _ _); [|done]. cbn [negb andb].
  by destruct (typeof_number _).
Qed.

Lemma sanitize_loop_obj (h : gmap loc cell) l f keys acc :
  h !! l = Some (CObj f) →
  Validators.sanitize_loop h (VRef l) keys acc = Throw ↔
  keys ≠ [] ∧ is_Some (f !! "hasOwnProperty").
Proof.
  intros Hl. revert acc. induction keys as [|k ks IH]; intros acc.
  - simpl. split; [done|]. by intros [? _].
  - cbn [Validators.sanitize_loop hasOwnProperty]. rewrite Hl.
    destruct (f !! "hasOwnProperty") as [v|] eqn:Hown; cbn [bind].
    + split; [|done]. intros _. split; [done|eauto].
    + assert (∀ acc', Validators.sanitize_loop h (VRef l) ks acc' ≠ Throw) as Hno.
      { intros acc' Ht. apply IH in Ht as [_ [? ?]]. done. }
      split; [|by intros [_ [? ?]]].
      destruct (bool_decide _).
      * rewrite (getProp_obj _ _ _ _ Hl). cbn [bind]. intros Ht. by apply Hno in Ht.
      * intros Ht. by apply Hno in Ht.
Qed.

Lemma sanitize_loop_prim h u keys acc :
  u ≠ VUndef → u ≠ VNull → (∀ l f, u = VRef l → h !! l ≠ Some (CObj f)) →
  Validators.sanitize_loop h u keys acc = Ret acc.
Proof.
  intros Hu Hn Hobj. induction keys as [|k ks IH]; simpl; [done|].
  assert (hasOwnProperty h u k = Ret false) as ->.
  { destruct u as [| | | | | |l]; try done. simpl.
    destruct (h !! l) as [[f|xs]|] eqn:E; try done. by destruct (Hobj l f). }
  done.
Qed.

Lemma validators_not_object h v :
  (∀ f, ¬ plain_object h v f) →
  Validators.isValidArticle h v = Ret false
  ∧ Validators.isValidUser h v = Ret false.
Proof.
  intros Hno.
  destruct v as [| | | | | |l];
    try (split; unfold Validators.isValidArticle, Validators.isValidUser;
         cbn [truthy typeof_object negb orb]; by rewrite ?orb_true_r).
  assert (∀ f, h !! l ≠ Some (CObj f)) as Hl.
  { intros f Hf. apply (Hno f). by exists l. }
  unfold Validators.isValidArticle, Validators.isValidUser,
    Validators.article_required, Validators.user_required.
  cbn [truthy typeof_object negb orb Validators.hasRequired hasOwnProperty].
  destruct (h !! l) as [[f|xs]|] eqn:E; [by destruct (Hl f)|done..].
Qed.

(** X7.  On a plain object the two shape checks and the sanitizer raise
    exactly when the object has an own property named [hasOwnProperty].  On
    any other value the shape checks return [false]; the sanitizer raises on
    [null] and [undefined] and returns the empty object on the rest. *)
Theorem X7_validators_raise_on_shadowed_method (h : gmap loc cell) (v : value) :
  (∀ f, plain_object h v f →
        (Validators.isValidArticle h v = Throw ↔ is_Some (f !! "hasOwnProperty"))
        ∧ (Validators.isValidUser h v = Throw ↔ is_Some (f !! "hasOwnProperty"))
        ∧ (Validators.sanitizeArticleUpdates h v = Throw
           ↔ is_Some (f !! "hasOwnProperty")))
  ∧ ((∀ f, ¬ plain_object h v f) →
     Validators.isValidArticle h v = Ret false
     ∧ Validators.isValidUser h v = Ret false
     ∧ (Validators.sanitizeArticleUpdates h v = Throw ↔ v = VUndef ∨ v = VNull)
     ∧ (v ≠ VUndef → v ≠ VNull →
        Validators.sanitizeArticleUpdates h v = Ret ∅)).
Proof.
  split.
  - intros f (l & -> & Hl).
    rewrite (isValidArticle_obj _ _ _ Hl), (isValidUser_obj _ _ _ Hl).
    unfold article_fields_valid, Validators.sanitizeArticleUpdates.
    rewrite (sanitize_loop_obj _ _ _ _ _ Hl).
    destruct (f !! "hasOwnProperty") as [x|].
    + repeat split; eauto.
    + repeat split; try done; by intros [? ?] || (intros [_ [? ?]]; done).
  - intros Hno. destruct (validators_not_object _ _ Hno) as [-> ->].
    split; [done|]. split; [done|].
    assert (v ≠ VUndef → v ≠ VNull →
            Validators.sanitizeArticleUpdates h v = Ret ∅) as Hs.
    { intros Hu Hn. apply sanitize_loop_prim; [done..|].
      intros l f -> Hl. apply (Hno f). by exists l. }
    split; [|done].
    split.
    + intros Ht. destruct (decide (v = VUndef)) as [|Hu]; [by left|].
      destruct (decide (v = VNull)) as [|Hn]; [by right|].
      rewrite Hs in Ht by done. done.
    + by intros [-> | ->].
Qed.

Lemma X7_validators_raise_on_shadowed_method_witness :
  let h : gmap loc cell :=
    {[ 0%nat := CObj {[ "hasOwnProperty" := VBool true ]} ]} in
  plain_object h (VRef 0%nat) {[ "hasOwnProperty" := VBool true ]}
  ∧ Validators.isValidArticle h (VRef 0%nat) = Throw
  ∧ (∀ f, ¬ plain_object h (VStr "draft") f)
  ∧ Validators.isValidArticle h (VStr "draft") = Ret false.
Proof.
  assert (plain_object ({[ 0%nat := CObj {[ "hasOwnProperty" := VBool true ]} ]})
            (VRef 0%nat) {[ "hasOwnProperty" := VBool true ]}) as Hobj.
  { exists 0%nat. split; reflexivity. }
  assert (∀ f, ¬ plain_object
                   ({[ 0%nat := CObj {[ "hasOwnProperty" := VBool true ]} ]})
                   (VStr "draft") f) as Hno.
  { intros f (l & Hl & _). discriminate Hl. }
  split; [exact Hobj|]. split.
  - apply (proj1 (X7_validators_raise_on_shadowed_method _ _) _ Hobj).
    rewrite lookup_singleton_eq. eauto.
  - split; [exact Hno|].
    exact (proj1 (proj2 (X7_validators_raise_on_shadowed_method _ _) Hno)).
Defined.

(** X8.  What [sanitizeArticleUpdates] returns is part of the own
    properties of its argument: it has a property exactly when the name is
    on the allow-list and the argument has it, with the argument's value.
    It never has [id], [author], [authorId], [createdAt] or [updatedAt]. *)
Theorem X8_sanitize_keeps_allowed_own_properties (h : gmap loc cell)
    (updates : value) (s : gmap string value) :
  Validators.sanitizeArticleUpdates h updates = Ret s →
  s ⊆ fields_of h updates
  ∧ (∀ k, is_Some (s !! k) ↔
          k ∈ Validators.allowed ∧ is_Some (fields_of h updates !! k))
  ∧ Forall (λ k, s !! k = None)
      ["id"; "author"; "authorId"; "createdAt"; "updatedAt"].
Proof.
  intros H. pose proof (sanitize_lookup _ _ _ H) as Hs.
  split; [|split].
  - apply map_subseteq_spec. intros k x. rewrite Hs.
    by case_bool_decide.
  - intros k. rewrite Hs. case_bool_decide.
    + split; [by intros|by intros [_ ?]].
    + split; [by intros [? ?]|by intros [? _]].
  - repeat (apply Forall_cons_2;
            [rewrite Hs, bool_decide_eq_false_2;
             [reflexivity|apply (bool_decide_unpack _); vm_compute; exact I]
            |]).
    apply Forall_nil_2.
Qed.

Lemma X8_sanitize_keeps_allowed_own_properties_witness :
  let h := heap Scenario.with_updates in
  Validators.sanitizeArticleUpdates h Scenario.updates_ref
  = Ret {[ "title" := VStr "New" ]}
  ∧ ({[ "title" := VStr "New" ]} : gmap string value)
    ⊆ fields_of h Scenario.updates_ref.
Proof.
  assert (Validators.sanitizeArticleUpdates (heap Scenario.with_updates)
            Scenario.updates_ref = Ret {[ "title" := VStr "New" ]}) as H.
  { vm_compute. reflexivity. }
  split; [exact H|].
  exact (proj1 (X8_sanitize_keeps_allowed_own_properties _ _ _ H)).
Defined.

(** ** The two collections stay arrays *)

Lemma same_collections_wf st st' :
  store_wf st → same_collections st st' → store_wf st'.
Proof.
  intros [[xs Ha] [ys Hu]] (_ & Ha' & Hu'). split.
  - exists xs. by rewrite Ha'.
  - exists ys. by rewrite Hu'.
Qed.

Lemma wf_cell_update st l f g ls :
  store_wf st → heap st !! l = Some (CObj f) →
  store_wf {| heap := <[l := CObj g]> (heap st); articles := articles st;
              users := users st; localStorage := ls |}.
Proof.
  intros [[xs Ha] [ys Hu]] Hl. split; cbn [heap articles users].
  - exists xs. rewrite lookup_insert_ne; [done|congruence].
  - exists ys. rewrite lookup_insert_ne; [done|congruence].
Qed.

Lemma wf_array_update st xs ls :
  store_wf st →
  store_wf {| heap := <[articles st := CArr xs]> (heap st);
              articles := articles st; users := users st;
              localStorage := ls |}.
Proof.
  intros [_ [ys Hu]]. split; cbn [heap articles users].
  - exists xs. apply lookup_insert_eq.
  - destruct (decide (users st = articles st)) as [->|Hne].
    + exists xs. apply lookup_insert_eq.
    + exists ys. by rewrite lookup_insert_ne.
Qed.

Lemma add_preserves_wf st e d :
  store_wf st → store_wf (DATA_STORE.addArticle st e d).1.
Proof.
  intros Hwf. destruct (DATA_STORE.addArticle st e d) as [st' r] eqn:H.
  cbn [fst]. destruct (decide (r = VNull)) as [->|Hr].
  - eapply same_collections_wf; [done|]. by eapply add_failure_restores.
  - destruct (addArticle_success _ _ _ _ _ H Hr) as (ids & ls & _ & _ & _ & ->).
    destruct Hwf as [[xs Ha] [ys Hu]]. unfold push. split; cbn [heap articles users].
    + eexists. apply lookup_insert_eq.
    + destruct (decide (users st = articles st)) as [->|Hne].
      * eexists. apply lookup_insert_eq.
      * exists ys. rewrite lookup_insert_ne by done.
        rewrite lookup_insert_ne; [done|]. by eapply fresh_ne.
Qed.

Lemma update_preserves_wf st e id updates :
  store_wf st → store_wf (DATA_STORE.updateArticle st e id updates).1.
Proof.
  intros Hwf.
  destruct (updateArticle_cases st e id updates)
    as [->|(l & f & s & ls & ok & g & _ & Hl & _ & -> & _)]; [done|].
  by eapply wf_cell_update.
Qed.

Lemma status_preserves_wf st e id newStatus :
  store_wf st → store_wf (DATA_STORE.updateArticleStatus st e id newStatus).1.
Proof.
  intros Hwf.
  destruct (includes newStatus ARTICLE_STATUS.values) eqn:Hin.
  - destruct (DATA_STORE.getArticleById st id) as [| | | | | |l] eqn:Hget;
      try (unfold DATA_STORE.updateArticleStatus; by rewrite Hin, Hget).
    destruct (getArticleById_found _ _ _ Hget) as (z & f & _ & _ & Hl & _).
    destruct (updateArticleStatus_spec st e id newStatus l f Hin Hget Hl)
      as (ls & saved & -> & _).
    by eapply wf_cell_update.
  - unfold DATA_STORE.updateArticleStatus. by rewrite Hin.
Qed.

Lemma delete_preserves_wf st e x :
  store_wf st → store_wf (DATA_STORE.deleteArticle st e x).1.
Proof.
  intros Hwf. destruct (DATA_STORE.deleteArticle st e x) as [st' [|]] eqn:H;
    cbn [fst].
  - destruct (deleteArticle_success _ _ _ _ H) as (i & ls & ->).
    by apply wf_array_update.
  - eapply same_collections_wf; [done|]. by eapply delete_failure_restores.
Qed.

Lemma import_preserves_wf st e d :
  store_wf st → store_wf (DATA_STORE.importData st e d).1.
Proof.
  intros Hwf. destruct (DATA_STORE.importData st e d) as [st' [|]] eqn:H;
    cbn [fst].
  - destruct (importData_success _ _ _ _ H) as (la & lu & ls & Hla & Hlu & _ & _ & ->).
    apply isArray_Some in Hla as [_ [xs Hla]].
    apply isArray_Some in Hlu as [_ [ys Hlu]].
    assert (heap st ⊆ (copy_array (copy_array (heap st) (articles st)).1
                         (users st)).1) as Hsub.
    { unfold copy_array. cbn [fst].
      etrans; [apply insert_fresh_subseteq|apply insert_fresh_subseteq]. }
    split; cbn [heap articles users].
    + exists xs. by eapply lookup_weaken.
    + exists ys. by eapply lookup_weaken.
  - eapply same_collections_wf; [done|]. by eapply import_failure_restores.
Qed.

Lemma run_preserves_wf st e c :
  store_wf st → store_wf (run st e c).1.
Proof.
  intros Hwf. destruct c; cbn [run].
  - pose proof (add_preserves_wf st e articleData Hwf) as H.
    by destruct (DATA_STORE.addArticle st e articleData).
  - by apply update_preserves_wf.
  - by apply status_preserves_wf.
  - by apply delete_preserves_wf.
  - by apply import_preserves_wf.
Qed.

Lemma init_wf ls : store_wf (DATA_STORE.init (DATA_STORE.created ls)).
Proof.
  unfold DATA_STORE.init, DATA_STORE.loadFromLocalStorage.
  pose proof (get_extends (localStorage (DATA_STORE.created ls))
                (heap (DATA_STORE.created ls)) STORAGE_KEYS.ARTICLES
                (VRef INITIAL_DATA.articles)) as H1.
  destruct (StorageUtils.safeLocalStorageGet _ _ STORAGE_KEYS.ARTICLES _)
    as [h1 loadedArticles].
  pose proof (get_extends (localStorage (DATA_STORE.created ls)) h1
                STORAGE_KEYS.USERS (VRef INITIAL_DATA.users)) as H2.
  destruct (StorageUtils.safeLocalStorageGet _ _ STORAGE_KEYS.USERS _)
    as [h2 loadedUsers].
  cbn [fst] in H1, H2.
  destruct (seed_articles ls) as (Ha & Hu & _).
  split; cbn [heap articles users].
  - destruct (isArray h2 loadedArticles) as [l|] eqn:E; cbn [default].
    + by apply isArray_Some in E as [_ ?].
    + eexists. eapply lookup_weaken; [|exact H2].
      eapply lookup_weaken; [exact Ha|exact H1].
  - destruct (isArray h2 loadedUsers) as [l|] eqn:E; cbn [default].
    + by apply isArray_Some in E as [_ ?].
    + eexists. eapply lookup_weaken; [|exact H2].
      eapply lookup_weaken; [exact Hu|exact H1].
Qed.

Lemma is_array_weaken (h h' : gmap loc cell) l :
  h ⊆ h' → is_array h l → is_array h' l.
Proof. intros Hsub [xs Hl]. exists xs. by eapply lookup_weaken. Qed.

Lemma is_array_cell_update (h : gmap loc cell) l0 f g l :
  h !! l0 = Some (CObj f) → is_array h l → is_array (<[l0 := CObj g]> h) l.
Proof.
  intros Hl0 [xs Hl]. exists xs. rewrite lookup_insert_ne; [done|congruence].
Qed.

Lemma is_array_array_update (h : gmap loc cell) a xs l :
  is_array h l → is_array (<[a := CArr xs]> h) l.
Proof.
  intros [ys Hl]. destruct (decide (l = a)) as [->|Hne].
  - exists xs. apply lookup_insert_eq.
  - exists ys. by rewrite lookup_insert_ne.
Qed.

(** No call turns an array into something else. *)
Lemma run_keeps_arrays st e c l :
  store_wf st → is_array (heap st) l → is_array (heap (run st e c).1) l.
Proof.
  intros Hwf Hl. destruct c; cbn [run].
  - destruct (DATA_STORE.addArticle st e articleData) as [st' r] eqn:H.
    cbn [fst]. destruct (decide (r = VNull)) as [->|Hr].
    + eapply is_array_weaken; [|done].
      by apply (add_failure_restores _ _ _ _ Hwf H).
    + destruct (addArticle_success _ _ _ _ _ H Hr)
        as (ids & ls & _ & _ & _ & ->).
      cbn [heap]. unfold push. apply is_array_array_update.
      eapply is_array_weaken; [apply insert_fresh_subseteq|done].
  - destruct (updateArticle_cases st e articleId updates)
      as [->|(l0 & f & s & ls & ok & g & _ & Hl0 & _ & -> & _)]; [done|].
    by eapply is_array_cell_update.
  - destruct (includes newStatus ARTICLE_STATUS.values) eqn:Hin.
    + destruct (DATA_STORE.getArticleById st articleId) as [| | | | | |l0] eqn:Hget;
        try (unfold DATA_STORE.updateArticleStatus; by rewrite Hin, Hget).
      destruct (getArticleById_found _ _ _ Hget) as (z & f & _ & _ & Hl0 & _).
      destruct (updateArticleStatus_spec st e articleId newStatus l0 f Hin Hget Hl0)
        as (ls & saved & -> & _).
      by eapply is_array_cell_update.
    + unfold DATA_STORE.updateArticleStatus. by rewrite Hin.
  - destruct (DATA_STORE.deleteArticle st e articleId) as [st' [|]] eqn:H;
      cbn [fst].
    + destruct (deleteArticle_success _ _ _ _ H) as (i & ls & ->).
      by apply is_array_array_update.
    + eapply is_array_weaken; [|done].
      by apply (delete_failure_restores _ _ _ _ Hwf H).
  - destruct (DATA_STORE.importData st e data) as [st' [|]] eqn:H; cbn [fst].
    + destruct (importData_success _ _ _ _ H) as (la & lu & ls & _ & _ & _ & _ & ->).
      eapply is_array_weaken; [|done]. unfold copy_array. cbn [fst heap].
      etrans; [apply insert_fresh_subseteq|apply insert_fresh_subseteq].
    + eapply is_array_weaken; [|done].
      by apply (import_failure_restores _ _ _ _ Hwf H).
Qed.

Lemma init_seed_present ls :
  seed_present (heap (DATA_STORE.init (DATA_STORE.created ls))).
Proof.
  unfold DATA_STORE.init, DATA_STORE.loadFromLocalStorage.
  pose proof (get_extends (localStorage (DATA_STORE.created ls))
                (heap (DATA_STORE.created ls)) STORAGE_KEYS.ARTICLES
                (VRef INITIAL_DATA.articles)) as H1.
  destruct (StorageUtils.safeLocalStorageGet _ _ STORAGE_KEYS.ARTICLES _)
    as [h1 loadedArticles].
  pose proof (get_extends (localStorage (DATA_STORE.created ls)) h1
                STORAGE_KEYS.USERS (VRef INITIAL_DATA.users)) as H2.
  destruct (StorageUtils.safeLocalStorageGet _ _ STORAGE_KEYS.USERS _)
    as [h2 loadedUsers].
  cbn [fst] in H1, H2. cbn [heap].
  destruct (seed_articles ls) as (Ha & Hu & _).
  split; (eapply is_array_weaken; [exact H2|]);
    (eapply is_array_weaken; [exact H1|]); eexists; eassumption.
Qed.

(** X10.  In every state the store reaches, from its start on any content
    of [localStorage] and through any sequence of write operations, both
    collections are arrays, and the two arrays of the seed data are still
    arrays of the heap. *)
Theorem X10_collections_stay_arrays (st : store) :
  reachable st → store_wf st ∧ seed_present (heap st).
Proof.
  induction 1 as [ls|st e c _ [IHwf [IHa IHu]]].
  - split; [apply init_wf|apply init_seed_present].
  - split; [by apply run_preserves_wf|].
    split; by apply run_keeps_arrays.
Qed.

Lemma X10_collections_stay_arrays_witness :
  reachable Scenario.stale_run
  ∧ store_wf Scenario.stale_run ∧ seed_present (heap Scenario.stale_run).
Proof.
  assert (reachable Scenario.stale_run) as H by apply reachable_init.
  split; [exact H|]. exact (X10_collections_stay_arrays _ H).
Defined.

(** ** Saving and starting again *)

Lemma stringify_stable n h v :
  json_stable v = true → stringify_fuel n h v = Ret (Some (to_json v)).
Proof. destruct v; try done; by destruct n. Qed.

Lemma parse_stable v h : json_stable v = true → parse (to_json v) h = (h, v).
Proof. by destruct v. Qed.

Lemma fieldsJ_stable n h (kvs : list (string * value)) :
  Forall (λ kv, json_stable kv.2 = true) kvs →
  fieldsJ (stringify_fuel n h) kvs = Ret (prod_map id to_json <$> kvs).
Proof.
  induction 1 as [|[k v] kvs Hv _ IH]; [done|].
  cbn [fieldsJ]. rewrite (stringify_stable _ _ _ Hv), IH. done.
Qed.

Lemma stable_fields (f : gmap string value) :
  map_Forall (λ _ x, json_stable x = true) f →
  Forall (λ kv, json_stable kv.2 = true) (map_to_list f).
Proof.
  intros Hf. apply Forall_forall. intros [k v] Hin.
  apply elem_of_map_to_list in Hin. by apply (Hf k v).
Qed.

Lemma stringify_flat_record n (h : gmap loc cell) l f :
  h !! l = Some (CObj f) → map_Forall (λ _ x, json_stable x = true) f →
  stringify_fuel (S n) h (VRef l) = Ret (Some (record_json f)).
Proof.
  intros Hl Hf. cbn [stringify_fuel]. rewrite Hl.
  by rewrite (fieldsJ_stable _ _ _ (stable_fields _ Hf)).
Qed.

Lemma stringify_fuel_array n (h : gmap loc cell) a xs js :
  h !! a = Some (CArr xs) →
  mapJ (λ x, do j <- stringify_fuel n h x in Ret (default JNull j)) xs = Ret js →
  stringify_fuel (S n) h (VRef a) = Ret (Some (JArr js)).
Proof. intros Ha Hjs. cbn [stringify_fuel]. by rewrite Ha, Hjs. Qed.

Lemma stringify_flat_array (h : gmap loc cell) a xs :
  h !! a = Some (CArr xs) → Forall (flat_record h) xs →
  stringify h (VRef a)
  = Ret (Some (JArr ((λ x, record_json (fields_of h x)) <$> xs))).
Proof.
  intros Ha Hflat.
  apply (stringify_fuel_mono 2 _ h); [|done|].
  { assert (size h ≠ 0%nat); [|lia]. intros Hz.
    apply map_size_empty_inv in Hz. by rewrite Hz in Ha. }
  apply (stringify_fuel_array 1 _ _ _ _ Ha). clear Ha.
  induction Hflat as [|x xs (f & (l & -> & Hl) & Hf) _ IH]; [done|].
  cbn [mapJ fmap list_fmap]. rewrite (stringify_flat_record _ _ _ _ Hl Hf).
  cbn [bind default fields_of]. rewrite Hl.
  change (list_fmap _ _ ?g xs) with (g <$> xs). by rewrite IH.
Qed.

Lemma parse_members_stable (kvs : list (string * value)) h
    (acc : gmap string value) :
  Forall (λ kv, json_stable kv.2 = true) kvs →
  parse_members parse (prod_map id to_json <$> kvs) h acc
  = (h, foldl (λ (m : gmap string value) kv, <[kv.1 := kv.2]> m) acc kvs).
Proof.
  intros Hall. revert acc.
  induction Hall as [|[k v] kvs Hv _ IH]; intros acc; [done|].
  cbn [fmap list_fmap parse_members prod_map fst snd id].
  rewrite (parse_stable _ _ Hv). apply IH.
Qed.

Lemma foldl_insert_lookup (kvs : list (string * value))
    (acc : gmap string value) k :
  NoDup kvs.*1 →
  foldl (λ (m : gmap string value) kv, <[kv.1 := kv.2]> m) acc kvs !! k
  = match (list_to_map kvs : gmap string value) !! k with
    | Some v => Some v
    | None => acc !! k
    end.
Proof.
  revert acc. induction kvs as [|[k0 v0] kvs IH]; intros acc Hnd; [done|].
  apply NoDup_cons in Hnd as [Hk0 Hnd]. cbn [foldl fst snd list_to_map foldr].
  rewrite IH by done.
  destruct (decide (k = k0)) as [->|Hne].
  - rewrite (not_elem_of_list_to_map_1 _ k0) by done.
    by rewrite !lookup_insert_eq.
  - rewrite !(lookup_insert_ne _ k0 k) by done. done.
Qed.

Lemma foldl_insert_map_to_list (f : gmap string value) :
  foldl (λ (m : gmap string value) kv, <[kv.1 := kv.2]> m) ∅ (map_to_list f)
  = f.
Proof.
  apply map_eq. intros k.
  rewrite foldl_insert_lookup by apply NoDup_fst_map_to_list.
  rewrite list_to_map_to_list, lookup_empty. by destruct (f !! k).
Qed.

Lemma parse_record_json f h :
  map_Forall (λ _ x, json_stable x = true) f →
  parse (record_json f) h
  = (<[fresh (dom h) := CObj f]> h, VRef (fresh (dom h))).
Proof.
  intros Hf. unfold record_json. cbn [parse].
  rewrite (parse_members_stable _ _ _ (stable_fields _ Hf)).
  by rewrite foldl_insert_map_to_list.
Qed.

Lemma plain_object_weaken h h' v f :
  h ⊆ h' → plain_object h v f → plain_object h' v f.
Proof. intros Hsub (l & -> & Hl). exists l. split; [done|]. by eapply lookup_weaken. Qed.

Lemma parse_elems_flat h0 xs :
  Forall (flat_record h0) xs →
  ∀ h, ∃ h' vs,
    parse_elems parse ((λ x, record_json (fields_of h0 x)) <$> xs) h = (h', vs)
    ∧ h ⊆ h'
    ∧ Forall2 (λ x v', ∃ f, plain_object h0 x f ∧ plain_object h' v' f) xs vs.
Proof.
  induction 1 as [|x xs (f & Hx & Hf) _ IH]; intros h.
  - exists h, []. by repeat split.
  - cbn [fmap list_fmap parse_elems].
    assert (fields_of h0 x = f) as ->.
    { destruct Hx as (l & -> & Hl). cbn. by rewrite Hl. }
    rewrite (parse_record_json _ _ Hf).
    destruct (IH (<[fresh (dom h) := CObj f]> h)) as (h' & vs & Hp & Hsub & Hall).
    change (list_fmap _ _ ?g xs) with (g <$> xs). rewrite Hp.
    exists h', (VRef (fresh (dom h)) :: vs). split; [done|]. split.
    + etrans; [apply insert_fresh_subseteq|exact Hsub].
    + constructor; [|done]. exists f. split; [done|].
      exists (fresh (dom h)). split; [done|].
      eapply lookup_weaken; [apply lookup_insert_eq|exact Hsub].
Qed.

(** X11.  When the store and [localStorage] agree and every article is a
    record whose properties are numbers, strings, booleans or [null], a new
    start on that storage loads as many articles, in the same order, each
    with exactly the properties of the article it was saved from. *)
Theorem X11_reload_restores_flat_articles (st : store) :
  store_wf st → in_sync st →
  Forall (flat_record (heap st)) (arr (heap st) (articles st)) →
  let st' := DATA_STORE.init (DATA_STORE.created (localStorage st)) in
  Forall2 (same_record (heap st) (heap st'))
    (arr (heap st) (articles st)) (arr (heap st') (articles st')).
Proof.
  intros [[xs Ha] _] [(j & Hj & Hls) _] Hflat.
  rewrite (arr_is_array _ _ _ Ha) in *.
  rewrite (stringify_flat_array _ _ _ Ha Hflat) in Hj. injection Hj as <-.
  assert (∀ h fallback,
            StorageUtils.safeLocalStorageGet (localStorage st) h
              STORAGE_KEYS.ARTICLES fallback
            = parse (JArr ((λ x, record_json (fields_of (heap st) x)) <$> xs)) h)
    as Hget.
  { intros h fallback. unfold StorageUtils.safeLocalStorageGet. by rewrite Hls. }
  unfold DATA_STORE.init, DATA_STORE.loadFromLocalStorage.
  cbn [localStorage DATA_STORE.created heap]. rewrite Hget. cbn [parse].
  destruct (parse_elems_flat _ _ Hflat
              (<[14%nat := CArr []]> (<[13%nat := CArr []]> INITIAL_DATA.cells)))
    as (h1 & vs & -> & _ & Hall).
  set (l := fresh (dom h1)).
  pose proof (get_extends (localStorage st) (<[l := CArr vs]> h1)
                STORAGE_KEYS.USERS (VRef INITIAL_DATA.users)) as Hsub.
  destruct (StorageUtils.safeLocalStorageGet _ _ STORAGE_KEYS.USERS _)
    as [h2 loadedUsers].
  cbn [fst] in Hsub. cbn [heap articles].
  assert (h2 !! l = Some (CArr vs)) as Hl.
  { eapply lookup_weaken; [apply lookup_insert_eq|exact Hsub]. }
  unfold isArray. rewrite Hl.
  change (default INITIAL_DATA.articles (Some l)) with l.
  rewrite (arr_is_array _ _ _ Hl).
  eapply Forall2_impl; [exact Hall|].
  intros x v' (f & Hx & Hv'). exists f. split; [done|].
  eapply plain_object_weaken; [|exact Hv'].
  etrans; [apply insert_fresh_subseteq|exact Hsub].
Qed.

(** ** The fuel of toString *)

Lemma joining_bound (h : gmap loc cell) (joining : list loc) :
  NoDup joining → (∀ l, l ∈ joining → is_Some (h !! l)) →
  (List.length joining ≤ size h)%nat.
Proof.
  intros Hnd Hin. rewrite <- (size_dom h).
  change (size (dom h)) with (List.length (elements (dom h))).
  apply submseteq_length, NoDup_submseteq; [done|].
  intros l Hl. apply elem_of_elements, elem_of_dom. by apply Hin.
Qed.

(** The arrays being joined are distinct cells of the heap, so that with
    one unit of fuel for each of the others [toString] never runs out: its
    result does not depend on the fuel. *)
Lemma toString_fuel_enough (h : gmap loc cell) n m joining v :
  NoDup joining → (∀ l, l ∈ joining → is_Some (h !! l)) →
  (size h ≤ n + List.length joining)%nat →
  (size h ≤ m + List.length joining)%nat →
  toString_fuel n h joining v = toString_fuel m h joining v.
Proof.
  revert m joining v.
  induction n as [|n IH]; intros [|m] joining v Hnd Hin Hn Hm; try reflexivity;
    (destruct v as [| | | | | |l]; try reflexivity);
    cbn [toString_fuel];
    (destruct (h !! l) as [[f|xs]|] eqn:Hl; try reflexivity);
    (case_bool_decide as Hj; try reflexivity);
    (assert (List.length (l :: joining) ≤ size h)%nat as Hb;
     [apply joining_bound; [by constructor|];
      intros l' [->|?]%elem_of_cons; [by eauto|by apply Hin]|]);
    cbn [List.length] in Hb; try lia.
  apply joinR_ext. intros x.
  destruct x; try done;
    (apply IH; [by constructor| |cbn [List.length]; lia..];
     intros l' [->|?]%elem_of_cons; [by eauto|by apply Hin]).
Qed.

Lemma toString_fuel_independent (h : gmap loc cell) n v :
  (size h ≤ n)%nat → toString_fuel n h [] v = toString h v.
Proof.
  intros Hn. unfold toString.
  apply toString_fuel_enough; [constructor|by intros l ?%elem_of_nil|..];
    cbn [List.length]; lia.
Qed.

(** ** Filters and statistics *)

(** X12.  [getArticlesByStatus] and [getArticlesByAuthor] return a new
    array and leave every cell of the store as it was.  The array holds
    articles of the store, in their order.  For a status of the three they
    are articles with that [status], for an argument that parses to a safe
    integer articles whose [authorId] is that integer, and all of them when
    no element of the collection is [null] or [undefined].  The array is
    empty for a status other than the three and for an argument that parses
    to no integer. *)
Theorem X12_filters_select_matching_articles (st : store) (x : value) :
  let h := heap st in
  let stored := arr h (articles st) in
  (∃ ys, returns_new_array st (DATA_STORE.getArticlesByStatus st x) ys
         ∧ ys `sublist_of` stored
         ∧ if includes x ARTICLE_STATUS.values
           then selects h "status" x stored ys
           else ys = [])
  ∧ (∃ ys, returns_new_array st (DATA_STORE.getArticlesByAuthor st x) ys
           ∧ ys `sublist_of` stored
           ∧ match parseInt h x with
             | Some n => safe_integer n → selects h "authorId" (VNum n) stored ys
             | None => ys = []
             end).
Proof.
  intros h stored. split; [apply getArticlesByStatus_selects|].
  destruct (getArticlesByAuthor_selects st x) as (ys & Hnew & Hsub & Hsel).
  exists ys. split; [exact Hnew|]. split; [exact Hsub|].
  unfold h. destruct (parseInt (heap st) x); [by intros _|done].
Qed.

Lemma X12_filters_select_matching_articles_witness :
  let st := Scenario.first_run in
  let x := VStr Scenario.nbsp_2 in
  parseInt (heap st) x = Some 2
  ∧ safe_integer 2
  ∧ ∃ ys, returns_new_array st (DATA_STORE.getArticlesByAuthor st x) ys
          ∧ selects (heap st) "authorId" (VNum 2)
              (arr (heap st) (articles st)) ys
          ∧ ys = [VRef 8%nat].
Proof.
  intros st x.
  assert (Hp : parseInt (heap st) x = Some 2) by (vm_compute; reflexivity).
  assert (Hs : safe_integer 2) by safe.
  split; [exact Hp|]. split; [exact Hs|].
  destruct (X12_filters_select_matching_articles st x)
    as (_ & ys & Hnew & _ & Hsel).
  cbv zeta in Hsel. rewrite Hp in Hsel.
  exists ys. split; [exact Hnew|]. split; [exact (Hsel Hs)|].
  destruct Hnew as (l & Hr & _).
  assert (Hc : DATA_STORE.getArticlesByAuthor st x
               = (set_heap st (<[15%nat := CArr [VRef 8%nat]]> (heap st)),
                  VRef 15%nat)) by (vm_compute; reflexivity).
  rewrite Hc in Hr.
  assert (l = 15%nat) as -> by (apply (f_equal snd) in Hr; by injection Hr).
  apply (f_equal (λ r : store * value, arr (heap r.1) 15%nat)) in Hr.
  cbn [fst heap set_heap] in Hr. rewrite !arr_insert_eq in Hr. by symmetry.
Defined.

Lemma stats_of_eq st :
  stats_of st
  = catch
      (do published <-
         DATA_STORE.count (heap st) "status" (VStr ARTICLE_STATUS.PUBLISHED)
           (arr (heap st) (articles st)) in
       do review <-
         DATA_STORE.count (heap st) "status" (VStr ARTICLE_STATUS.REVIEW)
           (arr (heap st) (articles st)) in
       do draft <-
         DATA_STORE.count (heap st) "status" (VStr ARTICLE_STATUS.DRAFT)
           (arr (heap st) (articles st)) in
       do totalViews <-
         DATA_STORE.total (heap st) "views" (arr (heap st) (articles st)) in
       do totalEngagement <-
         DATA_STORE.total (heap st) "engagement" (arr (heap st) (articles st)) in
       do totalAuthors <-
         DATA_STORE.count (heap st) "role" (VStr USER_ROLES.AUTHOR)
           (arr (heap st) (users st)) in
       Ret (list_to_map
              [("totalArticles",
                VNum (Z.of_nat (List.length (arr (heap st) (articles st)))));
               ("published", published); ("review", review); ("draft", draft);
               ("totalViews", totalViews);
               ("totalEngagement", totalEngagement);
               ("totalAuthors", totalAuthors)]))
      DATA_STORE.zero_stats.
Proof.
  unfold stats_of, DATA_STORE.getStats. cbn [fst snd set_heap heap fields_of].
  by rewrite lookup_insert_eq.
Qed.

Lemma null_field_is h k x a :
  a = VNull ∨ a = VUndef → DATA_STORE.field_is h k x a = Throw.
Proof. by intros [-> | ->]. Qed.

(** X13.  One [null] or [undefined] element among the articles makes
    [getArticlesByStatus] and [getArticlesByAuthor] return an empty array
    for every argument, and [getStats] return zero for every figure. *)
Theorem X13_null_element_empties_reads (st : store) (a : value) :
  a ∈ arr (heap st) (articles st) → a = VNull ∨ a = VUndef →
  (∀ status, returns_new_array st (DATA_STORE.getArticlesByStatus st status) [])
  ∧ (∀ authorId,
       returns_new_array st (DATA_STORE.getArticlesByAuthor st authorId) [])
  ∧ stats_of st = DATA_STORE.zero_stats.
Proof.
  intros Hin Ha. split; [|split].
  - intros status. unfold DATA_STORE.getArticlesByStatus.
    rewrite (filterR_throw _ _ a Hin) by by apply null_field_is.
    cbn [catch]. destruct (negb _); apply new_array_returns.
  - intros authorId. unfold DATA_STORE.getArticlesByAuthor.
    destruct (parseInt (heap st) authorId) as [n|].
    + rewrite (filterR_throw _ _ a Hin) by by apply null_field_is.
      apply new_array_returns.
    + apply new_array_returns.
  - rewrite stats_of_eq. unfold DATA_STORE.count at 1.
    rewrite (filterR_throw _ _ a Hin) by by apply null_field_is.
    reflexivity.
Qed.

Lemma count_defined h k x xs :
  x ≠ VNaN → Forall (λ a, a ≠ VUndef ∧ a ≠ VNull) xs →
  DATA_STORE.count h k x xs = Ret (VNum (count_of h k x xs)).
Proof.
  intros Hx Hobj. unfold DATA_STORE.count, count_of.
  rewrite filterR_filter.
  - cbn [bind]. do 4 f_equal. apply list_filter_iff. intros a.
    by apply field_is_true.
  - eapply Forall_impl; [exact Hobj|]. intros a [? ?]. by apply field_is_defined.
Qed.

Lemma valid_not_null h xs :
  Forall (λ a, Validators.isValidArticle h a = Ret true) xs →
  Forall (λ a, a ≠ VUndef ∧ a ≠ VNull) xs.
Proof.
  intros H. eapply Forall_impl; [exact H|]. intros a Ha.
  destruct (isValidArticle_true _ _ Ha) as (l & f & -> & _). done.
Qed.

Lemma valid_status h a :
  Validators.isValidArticle h a = Ret true →
  getProp h a "status" = Ret (VStr ARTICLE_STATUS.DRAFT)
  ∨ getProp h a "status" = Ret (VStr ARTICLE_STATUS.REVIEW)
  ∨ getProp h a "status" = Ret (VStr ARTICLE_STATUS.PUBLISHED).
Proof.
  intros Ha. destruct (isValidArticle_true _ _ Ha) as (l & f & -> & Hl & Hf).
  apply article_fields_valid_true in Hf as (_ & _ & Hst & _).
  rewrite (getProp_obj _ _ _ _ Hl).
  unfold includes, ARTICLE_STATUS.values in Hst. cbn [existsb] in Hst.
  rewrite orb_false_r in Hst.
  apply orb_true_iff in Hst as [Hst|Hst];
    [|apply orb_true_iff in Hst as [Hst|Hst]];
    apply bool_decide_eq_true in Hst; rewrite <- Hst; eauto.
Qed.

Lemma status_counts_partition h xs :
  Forall (λ a, Validators.isValidArticle h a = Ret true) xs →
  count_of h "status" (VStr ARTICLE_STATUS.PUBLISHED) xs
  + count_of h "status" (VStr ARTICLE_STATUS.REVIEW) xs
  + count_of h "status" (VStr ARTICLE_STATUS.DRAFT) xs
  = Z.of_nat (List.length xs).
Proof.
  unfold count_of. induction 1 as [|a xs Ha _ IH]; [done|].
  destruct (valid_status _ _ Ha) as [Hs|[Hs|Hs]].
  - rewrite (filter_cons_False _ a) by (rewrite Hs; discriminate).
    rewrite (filter_cons_False _ a) by (rewrite Hs; discriminate).
    rewrite (filter_cons_True _ a) by exact Hs.
    cbn [List.length]. lia.
  - rewrite (filter_cons_False _ a) by (rewrite Hs; discriminate).
    rewrite (filter_cons_True _ a) by exact Hs.
    rewrite (filter_cons_False _ a) by (rewrite Hs; discriminate).
    cbn [List.length]. lia.
  - rewrite (filter_cons_True _ a) by exact Hs.
    rewrite (filter_cons_False _ a) by (rewrite Hs; discriminate).
    rewrite (filter_cons_False _ a) by (rewrite Hs; discriminate).
    cbn [List.length]. lia.
Qed.

(** X14.  When every stored article passes the shape check, the figures
    [published], [review] and [draft] that [getStats] returns add up to
    [totalArticles], which is the number of articles unless the statistics
    fell back to all zeros. *)
Theorem X14_status_counts_add_up (st : store) :
  articles_valid st →
  ∃ t p r d : Z,
    stats_of st !! "totalArticles" = Some (VNum t)
    ∧ stats_of st !! "published" = Some (VNum p)
    ∧ stats_of st !! "review" = Some (VNum r)
    ∧ stats_of st !! "draft" = Some (VNum d)
    ∧ p + r + d = t
    ∧ (t = Z.of_nat (List.length (arr (heap st) (articles st)))
       ∨ stats_of st = DATA_STORE.zero_stats).
Proof.
  intros [_ Hval]. pose proof (valid_not_null _ _ Hval) as Hobj.
  pose proof (status_counts_partition _ _ Hval) as Hsum.
  rewrite stats_of_eq.
  rewrite !(count_defined (heap st) "status") by done. cbn [bind].
  destruct (DATA_STORE.total (heap st) "views" _) as [tv|]; cbn [bind catch];
    [|by exists 0, 0, 0, 0; repeat split; try reflexivity; right].
  destruct (DATA_STORE.total (heap st) "engagement" _) as [te|]; cbn [bind catch];
    [|by exists 0, 0, 0, 0; repeat split; try reflexivity; right].
  destruct (DATA_STORE.count (heap st) "role" _ _) as [ta|]; cbn [bind catch];
    [|by exists 0, 0, 0, 0; repeat split; try reflexivity; right].
  eexists _, _, _, _. split; [reflexivity|]. split; [reflexivity|].
  split; [reflexivity|]. split; [reflexivity|]. split; [exact Hsum|by left].
Qed.

(** ** Sums of numbers *)





(** ** Resetting *)

Lemma set_outcome ls h key l ok :
  let r := StorageUtils.safeLocalStorageSet ls h key (VRef l) ok in
  (r.1 = ls ∧ r.2 = false)
  ∨ (∃ j, stringify h (VRef l) = Ret (Some j)
          ∧ r.1 = <[key := Parses j]> ls ∧ r.2 = true ∧ ok = true).
Proof.
  unfold StorageUtils.safeLocalStorageSet.
  destruct (stringify h (VRef l)) as [t|] eqn:Hs; [|by left].
  destruct (stringify_ref _ _ _ Hs) as [j ->].
  destruct ok; [right; by exists j|by left].
Qed.

(** X16.  [clearAllData] does nothing and returns [false] when the dialog
    is declined, and when the removal of the articles key raises.  When the
    removal of the users key raises it returns [false] with the heap and the
    collections as they were and the articles key removed.  When both
    removals return it returns [true] whatever the outcome of saving: the
    collections are two new arrays holding the elements of the seed arrays,
    and each of the two keys is either absent or holds the serialization of
    the new collection, and is absent when its write fails. *)
Theorem X16_reset_outcome (st : store) (e : env) :
  seed_present (heap st) →
  DATA_STORE.clearAllData st e false = (st, false)
  ∧ let r := DATA_STORE.clearAllData st e true in
    (removeItem_ok e STORAGE_KEYS.ARTICLES = false → r = (st, false))
    ∧ (removeItem_ok e STORAGE_KEYS.ARTICLES = true →
       removeItem_ok e STORAGE_KEYS.USERS = false →
       r.2 = false
       ∧ heap r.1 = heap st
       ∧ articles r.1 = articles st ∧ users r.1 = users st
       ∧ localStorage r.1 = delete STORAGE_KEYS.ARTICLES (localStorage st))
    ∧ (removeItem_ok e STORAGE_KEYS.ARTICLES = true →
       removeItem_ok e STORAGE_KEYS.USERS = true →
       r.2 = true
       ∧ heap st ⊆ heap r.1
       ∧ heap st !! articles r.1 = None ∧ heap st !! users r.1 = None
       ∧ arr (heap r.1) (articles r.1) = arr (heap st) INITIAL_DATA.articles
       ∧ arr (heap r.1) (users r.1) = arr (heap st) INITIAL_DATA.users
       ∧ (localStorage r.1 !! STORAGE_KEYS.ARTICLES = None
          ∨ persisted r.1 STORAGE_KEYS.ARTICLES (articles r.1))
       ∧ (localStorage r.1 !! STORAGE_KEYS.USERS = None
          ∨ persisted r.1 STORAGE_KEYS.USERS (users r.1))
       ∧ (setItem_ok e STORAGE_KEYS.ARTICLES = false →
          localStorage r.1 !! STORAGE_KEYS.ARTICLES = None)
       ∧ (setItem_ok e STORAGE_KEYS.USERS = false →
          localStorage r.1 !! STORAGE_KEYS.USERS = None)).
Proof.
  intros [_ [us Hseed]]. split; [reflexivity|].
  unfold DATA_STORE.clearAllData. cbn [negb].
  split; [by intros ->|]. split; [by intros -> ->|]. intros -> ->.
  unfold DATA_STORE.saveToLocalStorage, copy_array.
  cbn [negb heap articles users localStorage].
  set (la := fresh (dom (heap st))).
  set (h1 := <[la := CArr (arr (heap st) INITIAL_DATA.articles)]> (heap st)).
  set (lu := fresh (dom h1)).
  set (h2 := <[lu := CArr (arr h1 INITIAL_DATA.users)]> h1).
  set (ls := delete STORAGE_KEYS.USERS
               (delete STORAGE_KEYS.ARTICLES (localStorage st))).
  assert (ls !! STORAGE_KEYS.ARTICLES = None) as Hla.
  { unfold ls. rewrite lookup_delete_ne by done. apply lookup_delete_eq. }
  assert (ls !! STORAGE_KEYS.USERS = None) as Hlu by apply lookup_delete_eq.
  assert (heap st !! la = None) as Hfa by apply fresh_not_allocated.
  assert (h1 !! lu = None) as Hfu by apply fresh_not_allocated.
  assert (la ≠ lu) as Hne.
  { intros E. rewrite <- E in Hfu. unfold h1 in Hfu.
    by rewrite lookup_insert_eq in Hfu. }
  assert (heap st !! lu = None) as Hfu'.
  { unfold h1 in Hfu. by rewrite lookup_insert_ne in Hfu. }
  assert (heap st ⊆ h2) as Hsub.
  { etrans; [apply insert_fresh_subseteq|apply insert_fresh_subseteq]. }
  assert (arr h1 INITIAL_DATA.users = arr (heap st) INITIAL_DATA.users) as Hus.
  { unfold h1. apply arr_insert_ne. intros E. congruence. }
  destruct (set_outcome ls h2 STORAGE_KEYS.ARTICLES la
              (setItem_ok e STORAGE_KEYS.ARTICLES)) as [[H1 H1b]|(j1 & Hj1 & H1 & H1b & Hok1)];
  destruct (StorageUtils.safeLocalStorageSet ls h2 STORAGE_KEYS.ARTICLES _ _)
    as [ls1 b1]; cbn [fst snd] in H1, H1b; subst ls1 b1;
  match goal with |- context [StorageUtils.safeLocalStorageSet ?l h2 STORAGE_KEYS.USERS _ _] =>
    destruct (set_outcome l h2 STORAGE_KEYS.USERS lu
                (setItem_ok e STORAGE_KEYS.USERS)) as [[H2 H2b]|(j2 & Hj2 & H2 & H2b & Hok2)];
    destruct (StorageUtils.safeLocalStorageSet l h2 STORAGE_KEYS.USERS _ _)
      as [ls2 b2]; cbn [fst snd] in H2, H2b; subst ls2 b2
  end;
  cbn [fst snd heap articles users localStorage];
  (split; [reflexivity|]); (split; [exact Hsub|]);
  (split; [exact Hfa|]); (split; [exact Hfu'|]);
  (split; [unfold h2; rewrite arr_insert_ne by done; apply arr_insert_eq|]);
  (split; [unfold h2; rewrite arr_insert_eq; exact Hus|]);
  unfold persisted; cbn [heap localStorage].
  - split; [by left|]. split; [by left|]. by split.
  - split; [left; by rewrite lookup_insert_ne|].
    split; [right; exists j2; split; [done|apply lookup_insert_eq]|].
    split; [intros _; by rewrite lookup_insert_ne|congruence].
  - split; [right; exists j1; split; [done|apply lookup_insert_eq]|].
    split; [left; by rewrite lookup_insert_ne|].
    split; [congruence|intros _; by rewrite lookup_insert_ne].
  - split; [right; exists j1; split;
            [done|rewrite lookup_insert_ne by done; apply lookup_insert_eq]|].
    split; [right; exists j2; split; [done|apply lookup_insert_eq]|].
    split; congruence.
Qed.

Lemma X16_reset_outcome_witness :
  let st := Scenario.synced in
  let r := DATA_STORE.clearAllData st Scenario.full true in
  seed_present (heap st)
  ∧ is_Some (localStorage st !! STORAGE_KEYS.ARTICLES)
  ∧ r.2 = true
  ∧ localStorage r.1 !! STORAGE_KEYS.ARTICLES = None
  ∧ DATA_STORE.clearAllData st Scenario.no_removal true = (st, false)
  ∧ (DATA_STORE.clearAllData st Scenario.one_removal true).2 = false
  ∧ articles (DATA_STORE.clearAllData st Scenario.one_removal true).1
    = articles st
  ∧ localStorage (DATA_STORE.clearAllData st Scenario.one_removal true).1
    = delete STORAGE_KEYS.ARTICLES (localStorage st).
Proof.
  assert (seed_present (heap Scenario.synced)) as Hseed.
  { split; eexists; vm_compute; reflexivity. }
  split; [exact Hseed|]. split; [vm_compute; eauto|].
  destruct (X16_reset_outcome Scenario.synced Scenario.full Hseed)
    as (_ & _ & _ & Hboth).
  destruct (Hboth eq_refl eq_refl) as (Hr & _ & _ & _ & _ & _ & _ & _ & Hfull & _).
  split; [exact Hr|]. split; [apply Hfull; reflexivity|].
  destruct (X16_reset_outcome Scenario.synced Scenario.no_removal Hseed)
    as (_ & Hnone & _).
  split; [exact (Hnone eq_refl)|].
  destruct (X16_reset_outcome Scenario.synced Scenario.one_removal Hseed)
    as (_ & _ & Hone & _).
  destruct (Hone eq_refl eq_refl) as (H1 & _ & H2 & _ & H3).
  split; [exact H1|]. split; [exact H2|exact H3].
Defined.

(** X17.  While the articles of the store are the seed array itself, as
    after a start without stored articles, an article added is added to
    the seed array: a later [clearAllData] whose two removals return resets
    the store to the seed articles followed by that article. *)
Theorem X17_reset_keeps_article_added_to_seed (st : store) (e e' : env)
    (d : value) (st1 : store) (l : loc) :
  store_wf st → articles st = INITIAL_DATA.articles →
  DATA_STORE.addArticle st e d = (st1, VRef l) →
  removeItem_ok e' STORAGE_KEYS.ARTICLES = true →
  removeItem_ok e' STORAGE_KEYS.USERS = true →
  let r := DATA_STORE.clearAllData st1 e' true in
  arr (heap st1) INITIAL_DATA.articles
  = arr (heap st) INITIAL_DATA.articles ++ [VRef l]
  ∧ r.2 = true
  ∧ articles r.1 ≠ INITIAL_DATA.articles
  ∧ arr (heap r.1) (articles r.1)
    = arr (heap st) INITIAL_DATA.articles ++ [VRef l].
Proof.
  intros Hwf Hseed H Hra Hru.
  destruct (addArticle_stores _ _ _ _ _ Hwf H) as (ids & l' & _ & [= <-] & _ & _ & Harr);
    [done|].
  assert (articles st1 = articles st) as Ha.
  { destruct (addArticle_success _ _ _ _ _ H) as (? & ? & _ & _ & _ & ->); done. }
  rewrite Ha, Hseed in Harr. split; [exact Harr|].
  assert (is_Some (heap st1 !! INITIAL_DATA.articles)) as Hcell.
  { destruct (heap st1 !! INITIAL_DATA.articles) eqn:E; [done|]. exfalso.
    assert (arr (heap st1) INITIAL_DATA.articles = []) as E2
      by (unfold arr; by rewrite E).
    rewrite E2 in Harr. by destruct (arr (heap st) INITIAL_DATA.articles). }
  unfold DATA_STORE.clearAllData, copy_array. rewrite Hra, Hru. cbn [negb].
  save_outcome ls b Hb.
  cbn [fst snd heap articles]. split; [done|]. split.
  { intros E. pose proof (fresh_not_allocated (heap st1)) as Hf.
    rewrite E in Hf. rewrite Hf in Hcell. by destruct Hcell. }
  rewrite arr_insert_ne.
  - by rewrite arr_insert_eq.
  - intros E. pose proof (fresh_not_allocated
                  (<[fresh (dom (heap st1)) :=
                       CArr (arr (heap st1) INITIAL_DATA.articles)]> (heap st1))) as Hf.
    rewrite E, lookup_insert_eq in Hf. done.
Qed.

Lemma X17_reset_keeps_article_added_to_seed_witness :
  let st := Scenario.with_draft in
  let r1 := DATA_STORE.addArticle st Scenario.all_ok Scenario.draft_ref in
  let r := DATA_STORE.clearAllData r1.1 Scenario.users_full true in
  store_wf st ∧ articles st = INITIAL_DATA.articles
  ∧ r1 = (r1.1, VRef Scenario.draft_loc)
  ∧ removeItem_ok Scenario.users_full STORAGE_KEYS.ARTICLES = true
  ∧ removeItem_ok Scenario.users_full STORAGE_KEYS.USERS = true
  ∧ r.2 = true
  ∧ arr (heap r.1) (articles r.1)
    = arr (heap st) INITIAL_DATA.articles ++ [VRef Scenario.draft_loc].
Proof.
  assert (store_wf Scenario.with_draft) as Hwf by concrete_wf.
  assert (DATA_STORE.addArticle Scenario.with_draft Scenario.all_ok
            Scenario.draft_ref
          = ((DATA_STORE.addArticle Scenario.with_draft Scenario.all_ok
                Scenario.draft_ref).1, VRef Scenario.draft_loc)) as H.
  { vm_compute. reflexivity. }
  split; [exact Hwf|]. split; [reflexivity|]. split; [exact H|].
  split; [reflexivity|]. split; [reflexivity|].
  destruct (X17_reset_keeps_article_added_to_seed _ _ Scenario.users_full _ _ _
              Hwf eq_refl H eq_refl eq_refl) as (_ & Hr & _ & Harr).
  split; [exact Hr|exact Harr].
Defined.

(** ** The record that addArticle stores *)

(** X18.  The record a successful [addArticle] stores is a new object that
    passes the shape check: [createdAt] is the time of the call, every
    other property of the caller's data is taken over with its value, [id]
    included, and [id], [views], [engagement] and [publishDate] are the
    generated id, 0, 0 and [null] only where the data lacks them.  It has
    no other property. *)
Theorem X18_added_record_layers (st : store) (e : env) (d : value)
    (st' : store) (l : loc) :
  store_wf st → DATA_STORE.addArticle st e d = (st', VRef l) →
  ∃ f newId,
    heap st' !! l = Some (CObj f)
    ∧ heap st !! l = None
    ∧ f !! "createdAt" = Some (VStr (toISOString (clock e)))
    ∧ (∀ k v, k ≠ "createdAt" → fields_of (heap st) d !! k = Some v →
              f !! k = Some v)
    ∧ (fields_of (heap st) d !! "id" = None → f !! "id" = Some (VNum newId))
    ∧ (fields_of (heap st) d !! "views" = None → f !! "views" = Some (VNum 0))
    ∧ (fields_of (heap st) d !! "engagement" = None →
       f !! "engagement" = Some (VNum 0))
    ∧ (fields_of (heap st) d !! "publishDate" = None →
       f !! "publishDate" = Some VNull)
    ∧ (∀ k, is_Some (f !! k) →
            is_Some (fields_of (heap st) d !! k)
            ∨ k ∈ ["id"; "views"; "engagement"; "publishDate"; "createdAt"])
    ∧ Validators.isValidArticle (heap st') (VRef l) = Ret true.
Proof.
  intros Hwf H.
  destruct (addArticle_stores _ _ _ _ _ Hwf H)
    as (ids & l' & _ & [= <-] & Hfresh & Hl & _); [done|].
  destruct (addArticle_success _ _ _ _ _ H) as (_ & _ & Hvalid & _); [done|].
  eexists _, _. split; [exact Hl|]. split; [exact Hfresh|].
  split; [apply newArticle_createdAt|].
  split; [intros k v; apply newArticle_from_caller|].
  split; [intros Hno; by rewrite newArticle_default|].
  split; [intros Hno; by rewrite newArticle_default|].
  split; [intros Hno; by rewrite newArticle_default|].
  split; [intros Hno; by rewrite newArticle_default|].
  split.
  - intros k Hk. destruct (fields_of (heap st) d !! k) as [v|] eqn:Hd; [by left|].
    right. destruct (decide (k = "createdAt")) as [->|Hne].
    { apply (bool_decide_unpack _). vm_compute. exact I. }
    rewrite newArticle_default in Hk by done.
    destruct (decide (k = "publishDate")) as [->|H1];
      [apply (bool_decide_unpack _); vm_compute; exact I|].
    rewrite lookup_insert_ne in Hk by done.
    destruct (decide (k = "engagement")) as [->|H2];
      [apply (bool_decide_unpack _); vm_compute; exact I|].
    rewrite lookup_insert_ne in Hk by done.
    destruct (decide (k = "views")) as [->|H3];
      [apply (bool_decide_unpack _); vm_compute; exact I|].
    rewrite lookup_insert_ne in Hk by done.
    destruct (decide (k = "id")) as [->|H4];
      [apply (bool_decide_unpack _); vm_compute; exact I|].
    rewrite lookup_singleton_ne in Hk by done. by destruct Hk.
  - rewrite (isValidArticle_obj _ _ _ Hl). apply newArticle_valid.
    destruct (isValidArticle_true _ _ Hvalid) as (l0 & f0 & -> & Hl0 & Hf0).
    cbn [fields_of]. by rewrite Hl0.
Qed.

Lemma X18_added_record_layers_witness :
  let st := Scenario.with_forged in
  let r := DATA_STORE.addArticle st Scenario.all_ok Scenario.forged_ref in
  store_wf st
  ∧ r = (r.1, VRef 16%nat)
  ∧ ∃ f newId,
      heap r.1 !! 16%nat = Some (CObj f)
      ∧ heap st !! 16%nat = None
      ∧ f !! "createdAt" = Some (VStr (toISOString (clock Scenario.all_ok)))
      ∧ (∀ k v, k ≠ "createdAt" →
                fields_of (heap st) Scenario.forged_ref !! k = Some v →
                f !! k = Some v)
      ∧ (fields_of (heap st) Scenario.forged_ref !! "id" = None →
         f !! "id" = Some (VNum newId))
      ∧ (fields_of (heap st) Scenario.forged_ref !! "views" = None →
         f !! "views" = Some (VNum 0))
      ∧ (fields_of (heap st) Scenario.forged_ref !! "engagement" = None →
         f !! "engagement" = Some (VNum 0))
      ∧ (fields_of (heap st) Scenario.forged_ref !! "publishDate" = None →
         f !! "publishDate" = Some VNull)
      ∧ (∀ k, is_Some (f !! k) →
              is_Some (fields_of (heap st) Scenario.forged_ref !! k)
              ∨ k ∈ ["id"; "views"; "engagement"; "publishDate"; "createdAt"])
      ∧ Validators.isValidArticle (heap r.1) (VRef 16%nat) = Ret true.
Proof.
  assert (store_wf Scenario.with_forged) as Hwf by concrete_wf.
  assert (DATA_STORE.addArticle Scenario.with_forged Scenario.all_ok
            Scenario.forged_ref
          = ((DATA_STORE.addArticle Scenario.with_forged Scenario.all_ok
                Scenario.forged_ref).1, VRef 16%nat)) as H.
  { vm_compute. reflexivity. }
  split; [exact Hwf|]. split; [exact H|].
  exact (X18_added_record_layers _ _ _ _ _ Hwf H).
Defined.

(** ** What a failed update leaves *)



(** ** Looking a user up by address *)

Lemma email_is_true toLowerCase h n u :
  DATA_STORE.email_is toLowerCase h n u = Ret true →
  ∃ l f s, u = VRef l ∧ h !! l = Some (CObj f)
           ∧ f !! "email" = Some (VStr s) ∧ toLowerCase s = n.
Proof.
  unfold DATA_STORE.email_is, getProp.
  destruct u as [| | | | | |l]; try done.
  destruct (h !! l) as [[f|xs]|] eqn:Hl; try done. cbn [bind].
  destruct (f !! "email") as [[| | | | |s|]|] eqn:Hf; try done.
  cbn [default]. intros [= H]. apply String.eqb_eq in H.
  by exists l, f, s.
Qed.

Lemma find_throw p xs i u :
  xs !! i = Some u → p u = Throw →
  (∀ j y, (j < i)%nat → xs !! j = Some y → p y = Ret false) →
  find p xs = Throw.
Proof.
  revert i. induction xs as [|a xs IH]; intros [|i] Hu Hp Hlt; simplify_eq/=.
  - by rewrite Hp.
  - rewrite (Hlt 0%nat a) by (lia || done). cbn [bind].
    apply (IH i); [done..|]. intros j y Hj Hy. apply (Hlt (S j)); [lia|done].
Qed.

(** X20.  [getUserByEmail], for any case mapping and trimming of text,
    returns [null] or the first user whose [email], in lower case, is the
    trimmed lower-case argument; it returns [null] for an argument that is
    not text or is empty, and when a user without a text [email] comes
    before any match. *)
Theorem X20_lookup_by_email (toLowerCase trim : string → string) (st : store)
    (email : value) :
  let found := DATA_STORE.getUserByEmail toLowerCase trim st email in
  let stored := arr (heap st) (users st) in
  (found = VNull
   ∨ ∃ l f s s' i,
       found = VRef l ∧ email = VStr s ∧ s ≠ EmptyString
       ∧ stored !! i = Some (VRef l)
       ∧ heap st !! l = Some (CObj f) ∧ f !! "email" = Some (VStr s')
       ∧ toLowerCase s' = trim (toLowerCase s)
       ∧ ∀ j y, (j < i)%nat → stored !! j = Some y →
                DATA_STORE.email_is toLowerCase (heap st)
                  (trim (toLowerCase s)) y = Ret false)
  ∧ ((∀ s, email ≠ VStr s) ∨ email = VStr EmptyString → found = VNull)
  ∧ (∀ s i u, email = VStr s → stored !! i = Some u →
       DATA_STORE.email_is toLowerCase (heap st) (trim (toLowerCase s)) u
       = Throw →
       (∀ j y, (j < i)%nat → stored !! j = Some y →
               DATA_STORE.email_is toLowerCase (heap st)
                 (trim (toLowerCase s)) y = Ret false) →
       found = VNull).
Proof.
  intros found stored. unfold found, DATA_STORE.getUserByEmail. fold stored.
  split; [|split].
  - destruct email as [| | | | |s|]; try by left.
    destruct s as [|c s]; [by left|]. cbn [truthy String.eqb negb].
    destruct (find _ stored) as [x|] eqn:Hf; cbn [catch bind]; [|by left].
    destruct (find_first _ _ _ Hf) as [[-> _]|(i & Hi & Hx & Hlt)]; [by left|].
    destruct (email_is_true _ _ _ _ Hx) as (l & f & s' & -> & Hl & Hmail & Hlow).
    right. exists l, f, (String c s), s', i. by repeat split.
  - intros [Hno| ->]; [|done]. destruct email; try done. by destruct (Hno s).
  - intros s i u -> Hu Hthrow Hlt. destruct s as [|c s]; [done|].
    cbn [truthy String.eqb negb].
    by rewrite (find_throw _ _ _ _ Hu Hthrow Hlt).
Qed.

(** ** The readers of home.js *)

(** X21.  [getUserAvatar] always returns a value that counts as true:
    the default picture, or the [avatar] property of the user that
    [getUserById] finds. *)
Theorem X21_avatar_never_empty (st : store) (authorId : value) :
  let avatar := DataManager.getUserAvatar st authorId in
  truthy avatar = true
  ∧ (avatar = VStr DataManager.default_avatar
     ∨ ∃ l f, DATA_STORE.getUserById st authorId = VRef l
              ∧ heap st !! l = Some (CObj f)
              ∧ f !! "avatar" = Some avatar).
Proof.
  intros avatar. unfold avatar, DataManager.getUserAvatar.
  pose proof (lookup_first st (arr (heap st) (users st)) authorId) as H.
  change (lookup_result st (arr (heap st) (users st)) authorId)
    with (DATA_STORE.getUserById st authorId) in H.
  destruct (parseInt (heap st) authorId) as [n|].
  - destruct H as [[-> _]|(l & -> & i & f & _ & Hl & _)].
    + split; [done|by left].
    + rewrite (getProp_obj _ _ _ _ Hl). cbn [bind catch].
      destruct (f !! "avatar") as [v|] eqn:Hv; cbn [default Datatypes.id].
      * destruct (truthy v) eqn:Ht; [|split; [done|by left]].
        split; [done|]. right. by exists l, f.
      * split; [done|by left].
  - rewrite H. split; [done|by left].
Qed.





(** ** Importing *)

Lemma isValidUser_true h v :
  Validators.isValidUser h v = Ret true →
  ∃ l f, v = VRef l ∧ h !! l = Some (CObj f).
Proof.
  destruct v as [| | | | | |l];
    try (unfold Validators.isValidUser; cbn [typeof_object truthy negb];
         by rewrite ?orb_true_r).
  destruct (h !! l) as [[f|xs]|] eqn:Hl.
  - eauto.
  - unfold Validators.isValidUser, Validators.user_required.
    cbn [truthy typeof_object negb orb Validators.hasRequired hasOwnProperty].
    by rewrite Hl.
  - unfold Validators.isValidUser, Validators.user_required.
    cbn [truthy typeof_object negb orb Validators.hasRequired hasOwnProperty].
    by rewrite Hl.
Qed.

Lemma valid_user_kept (h h' : gmap loc cell) x :
  h ⊆ h' →
  Validators.isValidUser h x = Ret true →
  Validators.isValidUser h' x = Ret true.
Proof.
  intros Hsub Hx. destruct (isValidUser_true _ _ Hx) as (l & f & -> & Hl).
  rewrite (isValidUser_obj _ _ _ Hl) in Hx.
  by rewrite (isValidUser_obj _ _ f (lookup_weaken _ _ _ _ Hl Hsub)).
Qed.

Lemma every_Forall p xs :
  Forall (λ x, p x = Ret true) xs → every p xs = Ret true.
Proof. induction 1 as [|x xs Hx _ IH]; [done|]. cbn [every]. by rewrite Hx. Qed.

Lemma catch_getProp_ref h d k l :
  catch (getProp h d k) VUndef = VRef l → getProp h d k = Ret (VRef l).
Proof. destruct (getProp h d k); cbn [catch]; congruence. Qed.

(** X23.  After a successful [importData] the collections of the store
    are the two arrays of the caller's object themselves, not copies, with
    their elements unchanged; every article and every user passes its
    shape check, and both keys hold the new state. *)
Theorem X23_import_adopts_callers_arrays (st : store) (e : env) (data : value)
    (st' : store) :
  DATA_STORE.importData st e data = (st', true) →
  ∃ la lu,
    getProp (heap st) data "articles" = Ret (VRef la)
    ∧ getProp (heap st) data "users" = Ret (VRef lu)
    ∧ articles st' = la ∧ users st' = lu
    ∧ heap st ⊆ heap st'
    ∧ arr (heap st') la = arr (heap st) la
    ∧ arr (heap st') lu = arr (heap st) lu
    ∧ articles_valid st' ∧ users_valid st'
    ∧ in_sync st'.
Proof.
  intros H. pose proof (run_success_in_sync st e (ImportData data) st' H) as Hsync.
  destruct (importData_success _ _ _ _ H)
    as (la & lu & ls & Hla & Hlu & Hva & Hvu & ->).
  apply isArray_Some in Hla as [Hla [xs Hxs]].
  apply isArray_Some in Hlu as [Hlu [ys Hys]].
  apply catch_getProp_ref in Hla, Hlu.
  assert (heap st ⊆ (copy_array (copy_array (heap st) (articles st)).1
                       (users st)).1) as Hsub.
  { unfold copy_array. cbn [fst].
    etrans; [apply insert_fresh_subseteq|apply insert_fresh_subseteq]. }
  exists la, lu. cbn [heap articles users] in *.
  pose proof (lookup_weaken _ _ _ _ Hxs Hsub) as Hxs'.
  pose proof (lookup_weaken _ _ _ _ Hys Hsub) as Hys'.
  do 5 (split; [done|]).
  split; [by rewrite (arr_is_array _ _ _ Hxs), (arr_is_array _ _ _ Hxs')|].
  split; [by rewrite (arr_is_array _ _ _ Hys), (arr_is_array _ _ _ Hys')|].
  split; [|split; [|done]].
  - split; [split; cbn [heap articles users]; eexists; eassumption|].
    cbn [heap articles]. rewrite (arr_is_array _ _ _ Hxs').
    rewrite (arr_is_array _ _ _ Hxs) in Hva. apply every_true in Hva.
    eapply Forall_impl; [exact Hva|]. intros a. apply valid_kept.
    intros l f Hl. by eapply lookup_weaken.
  - unfold users_valid. cbn [heap users]. rewrite (arr_is_array _ _ _ Hys').
    rewrite (arr_is_array _ _ _ Hys) in Hvu. apply every_true in Hvu.
    eapply Forall_impl; [exact Hvu|]. intros a. by apply valid_user_kept.
Qed.

(** X24.  When the store and [localStorage] agree, every article and user
    passes its shape check and both writes succeed, importing what
    [exportData] returned succeeds and leaves the collections, every
    earlier cell and the text under both keys as they were. *)
Theorem X24_export_then_import (st : store) (e e' : env) :
  articles_valid st → users_valid st → in_sync st →
  setItem_ok e' STORAGE_KEYS.ARTICLES = true →
  setItem_ok e' STORAGE_KEYS.USERS = true →
  let exported := DATA_STORE.exportData st e in
  let r := DATA_STORE.importData exported.1 e' exported.2 in
  r.2 = true
  ∧ articles r.1 = articles st ∧ users r.1 = users st
  ∧ heap st ⊆ heap r.1
  ∧ localStorage r.1 !! STORAGE_KEYS.ARTICLES
    = localStorage st !! STORAGE_KEYS.ARTICLES
  ∧ localStorage r.1 !! STORAGE_KEYS.USERS
    = localStorage st !! STORAGE_KEYS.USERS.
Proof.
  intros [Hwf Hva] Hvu Hsync Hoka Hoku exported r.
  destruct Hwf as [[xs Hxs] [ys Hys]].
  unfold r, exported, DATA_STORE.exportData, DATA_STORE.importData.
  cbn [fst snd heap articles users localStorage set_heap].
  set (l := fresh (dom (heap st))).
  set (h1 := <[l := CObj _]> (heap st)).
  assert (heap st ⊆ h1) as Hsub1 by apply insert_fresh_subseteq.
  assert (getProp h1 (VRef l) "articles" = Ret (VRef (articles st))) as Hga.
  { unfold getProp, h1. rewrite lookup_insert_eq. reflexivity. }
  assert (getProp h1 (VRef l) "users" = Ret (VRef (users st))) as Hgu.
  { unfold getProp, h1. rewrite lookup_insert_eq. reflexivity. }
  rewrite Hga, Hgu. cbn [catch truthy negb orb].
  pose proof (lookup_weaken _ _ _ _ Hxs Hsub1) as Hxs1.
  pose proof (lookup_weaken _ _ _ _ Hys Hsub1) as Hys1.
  unfold DATA_STORE.every_of, isArray. rewrite Hxs1, Hys1.
  rewrite (arr_is_array _ _ _ Hxs1), (arr_is_array _ _ _ Hys1).
  rewrite (arr_is_array _ _ _ Hxs) in Hva.
  unfold users_valid in Hvu. rewrite (arr_is_array _ _ _ Hys) in Hvu.
  rewrite every_Forall;
    [|eapply Forall_impl; [exact Hva|]; intros a; apply valid_kept;
      intros l0 f Hl0; by eapply lookup_weaken].
  rewrite every_Forall;
    [|eapply Forall_impl; [exact Hvu|]; intros a; by apply valid_user_kept].
  cbn [negb orb default Datatypes.id]. unfold copy_array.
  set (h2 := <[fresh (dom h1) := CArr (arr h1 (articles st))]> h1).
  set (h3 := <[fresh (dom h2) := CArr (arr h2 (users st))]> h2).
  assert (heap st ⊆ h3) as Hsub.
  { etrans; [exact Hsub1|].
    etrans; [apply insert_fresh_subseteq|apply insert_fresh_subseteq]. }
  assert (in_sync {| heap := h3; articles := articles st; users := users st;
                     localStorage := localStorage st |})
    as [(ja & Hja & Hpa) (ju & Hju & Hpu)].
  { apply (same_collections_in_sync st); [by split; eexists| |done|done].
    split; [done|]. cbn [heap articles users].
    split; [by rewrite (lookup_weaken _ _ _ _ Hxs Hsub)
           |by rewrite (lookup_weaken _ _ _ _ Hys Hsub)]. }
  cbn [heap articles users localStorage] in *.
  destruct Hsync as [(ja' & Hja' & Hpa') (ju' & Hju' & Hpu')].
  unfold DATA_STORE.saveToLocalStorage, StorageUtils.safeLocalStorageSet.
  cbn [heap articles users localStorage].
  rewrite Hja, Hju, Hoka, Hoku. cbn [andb fst snd heap articles users localStorage].
  split; [done|]. split; [done|]. split; [done|]. split; [done|].
  split.
  - rewrite lookup_insert_ne by done. rewrite lookup_insert_eq. by rewrite Hpa.
  - rewrite lookup_insert_eq. by rewrite Hpu.
Qed.

(** ** Which arrays a start takes *)

Lemma parse_elems_spec js h :
  h ⊆ (parse_elems parse js h).1
  ∧ List.length (parse_elems parse js h).2 = List.length js.
Proof.
  revert h. induction js as [|j js IH]; intros h; [done|].
  cbn [parse_elems]. pose proof (parse_extends j h) as H1.
  destruct (parse j h) as [h1 v]. destruct (IH h1) as [H2 Hlen].
  destruct (parse_elems parse js h1) as [h2 vs]. cbn [fst snd] in *.
  split; [by etrans|]. cbn [List.length]. by rewrite Hlen.
Qed.

Lemma get_array ls h key fallback js :
  ls !! key = Some (Parses (JArr js)) →
  ∃ h1 vs l,
    StorageUtils.safeLocalStorageGet ls h key fallback
    = (<[l := CArr vs]> h1, VRef l)
    ∧ h ⊆ h1 ∧ h1 !! l = None ∧ List.length vs = List.length js.
Proof.
  intros Hls. unfold StorageUtils.safeLocalStorageGet. rewrite Hls. cbn [parse].
  destruct (parse_elems_spec js h) as [Hsub Hlen].
  destruct (parse_elems parse js h) as [h1 vs]. cbn [fst snd] in *.
  exists h1, vs, (fresh (dom h1)). split; [done|]. split; [done|].
  split; [apply fresh_not_allocated|done].
Qed.

Lemma not_array_cases (it : option item) :
  (∃ js, it = Some (Parses (JArr js)))
  ∨ (∀ js, it ≠ Some (Parses (JArr js))).
Proof.
  destruct it as [[[| | | |js|]|]|]; try (by right). left. by exists js.
Qed.

(** X25.  A start takes, for each of the two keys on its own, the array
    that the key holds, built anew in the heap with as many elements as the
    stored array; when the key holds no array (absent, unparseable or
    another document) the collection is the seed array itself, not a
    copy. *)
Theorem X25_start_takes_seed_array_itself (ls : gmap string item) :
  let st := DATA_STORE.init (DATA_STORE.created ls) in
  ((∀ js, ls !! STORAGE_KEYS.ARTICLES ≠ Some (Parses (JArr js))) →
   articles st = INITIAL_DATA.articles)
  ∧ (∀ js, ls !! STORAGE_KEYS.ARTICLES = Some (Parses (JArr js)) →
       heap (DATA_STORE.created ls) !! articles st = None
       ∧ List.length (arr (heap st) (articles st)) = List.length js)
  ∧ ((∀ js, ls !! STORAGE_KEYS.USERS ≠ Some (Parses (JArr js))) →
     users st = INITIAL_DATA.users)
  ∧ (∀ js, ls !! STORAGE_KEYS.USERS = Some (Parses (JArr js)) →
       heap (DATA_STORE.created ls) !! users st = None
       ∧ List.length (arr (heap st) (users st)) = List.length js).
Proof.
  intros st. unfold st, DATA_STORE.init, DATA_STORE.loadFromLocalStorage.
  destruct (seed_articles ls) as (Hsa & Hsu & _).
  set (h0 := heap (DATA_STORE.created ls)) in *.
  change (localStorage (DATA_STORE.created ls)) with ls.
  pose proof (get_extends ls h0 STORAGE_KEYS.ARTICLES
                (VRef INITIAL_DATA.articles)) as H1.
  pose proof (get_not_array ls h0 STORAGE_KEYS.ARTICLES
                (VRef INITIAL_DATA.articles)) as Hna.
  pose proof (get_array ls h0 STORAGE_KEYS.ARTICLES
                (VRef INITIAL_DATA.articles)) as Hga.
  destruct (StorageUtils.safeLocalStorageGet ls h0 STORAGE_KEYS.ARTICLES _)
    as [h1 loadedArticles].
  pose proof (get_extends ls h1 STORAGE_KEYS.USERS (VRef INITIAL_DATA.users))
    as H2.
  pose proof (get_not_array ls h1 STORAGE_KEYS.USERS (VRef INITIAL_DATA.users))
    as Hnu.
  pose proof (get_array ls h1 STORAGE_KEYS.USERS (VRef INITIAL_DATA.users))
    as Hgu.
  destruct (StorageUtils.safeLocalStorageGet ls h1 STORAGE_KEYS.USERS _)
    as [h2 loadedUsers].
  cbn [fst snd heap articles users] in *.
  assert (h0 ⊆ h2) as H02 by by etrans.
  pose proof (lookup_weaken _ _ _ _ Hsa H02) as Hsa2.
  pose proof (lookup_weaken _ _ _ _ Hsu H02) as Hsu2.
  split; [|split; [|split]].
  - intros Hno. destruct (Hna h2 Hno H2) as [-> | ->]; [|done].
    unfold isArray. by rewrite Hsa2.
  - intros js Hjs.
    destruct (Hga js Hjs) as (h1' & vs & l & [= -> ->] & Hsub & Hfresh & Hlen).
    assert (h2 !! l = Some (CArr vs)) as Hl.
    { eapply lookup_weaken; [apply lookup_insert_eq|exact H2]. }
    unfold isArray. rewrite Hl. cbn [default Datatypes.id].
    rewrite (arr_is_array _ _ _ Hl). split; [|done].
    destruct (h0 !! l) as [c|] eqn:E; [|done].
    by rewrite (lookup_weaken _ _ _ _ E Hsub) in Hfresh.
  - intros Hno. destruct (Hnu h2 Hno (reflexivity _)) as [-> | ->]; [|done].
    unfold isArray. by rewrite Hsu2.
  - intros js Hjs.
    destruct (Hgu js Hjs) as (h1' & vs & l & [= -> ->] & Hsub & Hfresh & Hlen).
    unfold isArray. rewrite lookup_insert_eq. cbn [default Datatypes.id].
    rewrite arr_insert_eq.
    split; [|done].
    destruct (h0 !! l) as [c|] eqn:E; [|done].
    rewrite (lookup_weaken _ _ _ _ E (transitivity H1 Hsub)) in Hfresh. done.
Qed.

Lemma X25_start_takes_seed_array_itself_witness :
  (∀ js, (∅ : gmap string item) !! STORAGE_KEYS.ARTICLES
         ≠ Some (Parses (JArr js)))
  ∧ articles Scenario.first_run = INITIAL_DATA.articles
  ∧ Scenario.stale_storage !! STORAGE_KEYS.ARTICLES
    = Some (Parses (JArr [JObj [("title", JStr "Untitled")]]))
  ∧ heap (DATA_STORE.created Scenario.stale_storage)
    !! articles Scenario.stale_run = None.
Proof.
  assert (∀ js, (∅ : gmap string item) !! STORAGE_KEYS.ARTICLES
                ≠ Some (Parses (JArr js))) as Hno.
  { intros js. rewrite lookup_empty. discriminate. }
  split; [exact Hno|].
  split; [exact (proj1 (X25_start_takes_seed_array_itself ∅) Hno)|].
  split; [reflexivity|].
  exact (proj1 (proj1 (proj2 (X25_start_takes_seed_array_itself
                                Scenario.stale_storage)) _ eq_refl)).
Defined.

(** ** Text among the numbers *)

Lemma toString_primitive h v :
  is_primitive v = true → ∃ s, toString h v = Ret s.
Proof. destruct v as [| |[|]| | | |]; try done; eauto. Qed.

Lemma plus_primitive h a b :
  is_primitive a = true → is_primitive b = true →
  ∃ r, plus h a b = Ret r ∧ is_primitive r = true
       ∧ (match a with VStr _ => true | _ => false end
          || match b with VStr _ => true | _ => false end = true →
          ∃ t, r = VStr t).
Proof.
  intros Ha Hb.
  destruct (toString_primitive h a Ha) as [sa Hsa].
  destruct (toString_primitive h b Hb) as [sb Hsb].
  unfold plus. destruct a as [| |ba|za| |ta|]; try done;
    destruct b as [| |bb|zb| |tb|]; try done;
    cbn [toPrimitive bind]; rewrite ?Hsa, ?Hsb; cbn [bind toNumber];
    eexists; (split; [reflexivity|]); (split; [reflexivity|]);
    cbn [orb]; (try discriminate); eauto.
Qed.

Lemma total_text h k xs :
  Forall (λ a, ∃ f, plain_object h a f
                    ∧ is_primitive (default VUndef (f !! k)) = true) xs →
  ∃ r, DATA_STORE.total h k xs = Ret r
       ∧ ((∃ a f, a ∈ xs ∧ plain_object h a f
                  ∧ is_text (default VUndef (f !! k)) = true) →
          ∃ t, r = VStr t).
Proof.
  unfold DATA_STORE.total. intros Hall.
  assert (∀ acc, is_primitive acc = true →
            ∃ r, reduce (λ sum a, do x <- getProp h a k in
                                  plus h sum (if truthy x then x else VNum 0))
                   xs acc = Ret r
                 ∧ is_primitive r = true
                 ∧ ((∃ t, acc = VStr t)
                    ∨ (∃ a f, a ∈ xs ∧ plain_object h a f
                              ∧ is_text (default VUndef (f !! k)) = true) →
                    ∃ t, r = VStr t)) as H.
  { induction Hall as [|a xs (f & (l & -> & Hl) & Hp) _ IH]; intros acc Hacc.
    - exists acc. split; [done|]. split; [done|].
      intros [?|(a & f & Ha & _)]; [done|]. by apply elem_of_nil in Ha.
    - cbn [reduce]. rewrite (getProp_obj _ _ _ _ Hl). cbn [bind].
      set (x := default VUndef (f !! k)) in *.
      assert (is_primitive (if truthy x then x else VNum 0) = true) as Hx
        by by destruct (truthy x).
      destruct (plus_primitive h acc _ Hacc Hx) as (r1 & -> & Hr1 & Htext).
      cbn [bind]. destruct (IH r1 Hr1) as (r & Hr & Hprim & Hstr).
      exists r. split; [done|]. split; [done|].
      intros Hcase. apply Hstr.
      destruct Hcase as [[t ->]|(a & g & Ha & (l' & -> & Hl') & Hg)].
      + left. by apply Htext.
      + apply elem_of_cons in Ha as [[= ->]|Ha].
        * left. apply Htext. rewrite Hl in Hl'. injection Hl' as <-.
          fold x in Hg. destruct x as [| | | | |s|]; try done.
          cbn [is_text] in Hg. cbn [truthy]. rewrite Hg.
          by rewrite orb_true_r.
        * right. exists (VRef l'), g. split; [done|]. split; [by exists l'|done]. }
  destruct (H (VNum 0) eq_refl) as (r & Hr & _ & Hstr).
  exists r. split; [done|]. intros Hex. apply Hstr. by right.
Qed.

(** X26.  When the [views] and [engagement] of every article are values
    other than objects and arrays, no user is [null] or [undefined], and
    some article has a non-empty text as its [views], the [totalViews] that
    [getStats] returns is text: from that article on [+] concatenates. *)
Theorem X26_text_views_make_total_text (st : store) (a : value)
    (f : gmap string value) :
  let h := heap st in
  Forall (λ a, ∃ f, plain_object h a f
                    ∧ is_primitive (default VUndef (f !! "views")) = true)
    (arr h (articles st)) →
  Forall (λ a, ∃ f, plain_object h a f
                    ∧ is_primitive (default VUndef (f !! "engagement")) = true)
    (arr h (articles st)) →
  Forall (λ u, u ≠ VUndef ∧ u ≠ VNull) (arr h (users st)) →
  a ∈ arr h (articles st) → plain_object h a f →
  is_text (default VUndef (f !! "views")) = true →
  ∃ t, stats_of st !! "totalViews" = Some (VStr t).
Proof.
  intros h Hviews Heng Husers Ha Hobj Htext.
  assert (Forall (λ a, a ≠ VUndef ∧ a ≠ VNull) (arr h (articles st))) as Hnn.
  { eapply Forall_impl; [exact Hviews|].
    by intros x (g & (l & -> & _) & _). }
  destruct (total_text h "views" _ Hviews) as (tv & Htv & Hstr).
  destruct (total_text h "engagement" _ Heng) as (te & Hte & _).
  destruct Hstr as [t ->]; [by exists a, f|].
  rewrite stats_of_eq. fold h.
  rewrite !count_defined by done. rewrite Htv, Hte.
  exists t. reflexivity.
Qed.

(** ** The properties above on the concrete runs *)

Lemma flat_record_check (h : gmap loc cell) l :
  match h !! l with
  | Some (CObj f) => forallb (λ kv, json_stable kv.2) (map_to_list f)
  | _ => false
  end = true →
  flat_record h (VRef l).
Proof.
  destruct (h !! l) as [[f|xs]|] eqn:Hl; [|done..]. intros Hall.
  exists f. split; [by exists l|]. intros k x Hk.
  apply elem_of_map_to_list in Hk.
  apply forallb_forall with (x := (k, x)) in Hall; [done|].
  by apply list_elem_of_In.
Qed.

Lemma X11_reload_restores_flat_articles_witness :
  let st := Scenario.synced in
  let st' := DATA_STORE.init (DATA_STORE.created (localStorage st)) in
  store_wf st ∧ in_sync st
  ∧ Forall (flat_record (heap st)) (arr (heap st) (articles st))
  ∧ Forall2 (same_record (heap st) (heap st'))
      (arr (heap st) (articles st)) (arr (heap st') (articles st')).
Proof.
  assert (store_wf Scenario.synced) as Hwf by concrete_wf.
  assert (Forall (flat_record (heap Scenario.synced))
            (arr (heap Scenario.synced) (articles Scenario.synced))) as Hflat.
  { replace (arr (heap Scenario.synced) (articles Scenario.synced))
      with (VRef <$> [7; 8; 9; 10; 16]%nat) by (vm_compute; reflexivity).
    repeat (apply Forall_cons_2;
            [apply flat_record_check; vm_compute; reflexivity|]).
    apply Forall_nil_2. }
  split; [exact Hwf|]. split; [exact synced_in_sync|]. split; [exact Hflat|].
  exact (X11_reload_restores_flat_articles _ Hwf synced_in_sync Hflat).
Defined.

Lemma X13_null_element_empties_reads_witness :
  let st := Scenario.null_run in
  VNull ∈ arr (heap st) (articles st)
  ∧ (∀ status,
       returns_new_array st (DATA_STORE.getArticlesByStatus st status) [])
  ∧ stats_of st = DATA_STORE.zero_stats.
Proof.
  assert (VNull ∈ arr (heap Scenario.null_run) (articles Scenario.null_run))
    as Hin.
  { replace (arr (heap Scenario.null_run) (articles Scenario.null_run))
      with [VNull] by (vm_compute; reflexivity).
    left. }
  split; [exact Hin|].
  destruct (X13_null_element_empties_reads Scenario.null_run VNull Hin
              (or_introl eq_refl)) as (Hs & _ & Hz).
  split; [exact Hs|exact Hz].
Defined.

Lemma first_run_valid : articles_valid Scenario.first_run.
Proof.
  split; [concrete_wf|].
  replace (arr (heap Scenario.first_run) (articles Scenario.first_run))
    with (VRef <$> [7; 8; 9; 10]%nat) by (vm_compute; reflexivity).
  repeat (apply Forall_cons_2; [vm_compute; reflexivity|]). apply Forall_nil_2.
Qed.

Lemma X14_status_counts_add_up_witness :
  articles_valid Scenario.first_run
  ∧ ∃ t p r d : Z,
      stats_of Scenario.first_run !! "totalArticles" = Some (VNum t)
      ∧ stats_of Scenario.first_run !! "published" = Some (VNum p)
      ∧ stats_of Scenario.first_run !! "review" = Some (VNum r)
      ∧ stats_of Scenario.first_run !! "draft" = Some (VNum d)
      ∧ p + r + d = t
      ∧ (t = Z.of_nat (List.length (arr (heap Scenario.first_run)
                                      (articles Scenario.first_run)))
         ∨ stats_of Scenario.first_run = DATA_STORE.zero_stats).
Proof.
  split; [exact first_run_valid|].
  exact (X14_status_counts_add_up _ first_run_valid).
Defined.


Lemma synced_valid : articles_valid Scenario.synced ∧ users_valid Scenario.synced.
Proof.
  split; [split; [concrete_wf|]|unfold users_valid].
  - replace (arr (heap Scenario.synced) (articles Scenario.synced))
      with (VRef <$> [7; 8; 9; 10; 16]%nat) by (vm_compute; reflexivity).
    repeat (apply Forall_cons_2; [vm_compute; reflexivity|]). apply Forall_nil_2.
  - replace (arr (heap Scenario.synced) (users Scenario.synced))
      with (VRef <$> [0; 1; 2; 3; 4; 5; 6]%nat) by (vm_compute; reflexivity).
    repeat (apply Forall_cons_2; [vm_compute; reflexivity|]). apply Forall_nil_2.
Qed.

Lemma X23_import_adopts_callers_arrays_witness :
  let st := Scenario.exported.1 in
  let r := DATA_STORE.importData st Scenario.all_ok Scenario.exported.2 in
  r = (r.1, true)
  ∧ ∃ la lu,
      getProp (heap st) Scenario.exported.2 "articles" = Ret (VRef la)
      ∧ getProp (heap st) Scenario.exported.2 "users" = Ret (VRef lu)
      ∧ articles r.1 = la ∧ users r.1 = lu
      ∧ heap st ⊆ heap r.1
      ∧ arr (heap r.1) la = arr (heap st) la
      ∧ arr (heap r.1) lu = arr (heap st) lu
      ∧ articles_valid r.1 ∧ users_valid r.1
      ∧ in_sync r.1.
Proof.
  assert (DATA_STORE.importData Scenario.exported.1 Scenario.all_ok
            Scenario.exported.2
          = ((DATA_STORE.importData Scenario.exported.1 Scenario.all_ok
                Scenario.exported.2).1, true)) as H.
  { vm_compute. reflexivity. }
  split; [exact H|].
  exact (X23_import_adopts_callers_arrays _ _ _ _ H).
Defined.

Lemma X24_export_then_import_witness :
  let st := Scenario.synced in
  let r := DATA_STORE.importData Scenario.exported.1 Scenario.all_ok
             Scenario.exported.2 in
  articles_valid st ∧ users_valid st ∧ in_sync st
  ∧ r.2 = true ∧ articles r.1 = articles st ∧ users r.1 = users st.
Proof.
  destruct synced_valid as [Ha Hu].
  split; [exact Ha|]. split; [exact Hu|]. split; [exact synced_in_sync|].
  destruct (X24_export_then_import Scenario.synced Scenario.all_ok
              Scenario.all_ok Ha Hu synced_in_sync eq_refl eq_refl)
    as (Hr & Harts & Husers & _).
  split; [exact Hr|]. split; [exact Harts|exact Husers].
Defined.

Lemma X26_text_views_make_total_text_witness :
  let st := Scenario.text_run in
  let h := heap st in
  Forall (λ a, ∃ f, plain_object h a f
                    ∧ is_primitive (default VUndef (f !! "views")) = true)
    (arr h (articles st))
  ∧ Forall (λ a, ∃ f, plain_object h a f
                      ∧ is_primitive (default VUndef (f !! "engagement")) = true)
      (arr h (articles st))
  ∧ Forall (λ u, u ≠ VUndef ∧ u ≠ VNull) (arr h (users st))
  ∧ VRef 15%nat ∈ arr h (articles st)
  ∧ plain_object h (VRef 15%nat) {[ "views" := VStr "12" ]}
  ∧ stats_of st !! "totalViews" = Some (VStr "0123")
  ∧ ∃ t, stats_of st !! "totalViews" = Some (VStr t).
Proof.
  assert (arr (heap Scenario.text_run) (articles Scenario.text_run)
          = [VRef 15%nat; VRef 16%nat]) as Harr by (vm_compute; reflexivity).
  assert (plain_object (heap Scenario.text_run) (VRef 15%nat)
            {[ "views" := VStr "12" ]}) as H15.
  { exists 15%nat. split; [reflexivity|vm_compute; reflexivity]. }
  assert (plain_object (heap Scenario.text_run) (VRef 16%nat)
            {[ "views" := VNum 3 ]}) as H16.
  { exists 16%nat. split; [reflexivity|vm_compute; reflexivity]. }
  assert (Forall (λ a, ∃ f, plain_object (heap Scenario.text_run) a f
                            ∧ is_primitive (default VUndef (f !! "views")) = true)
            (arr (heap Scenario.text_run) (articles Scenario.text_run))) as Hv.
  { rewrite Harr.
    apply Forall_cons_2; [eexists; split; [exact H15|reflexivity]|].
    apply Forall_cons_2; [eexists; split; [exact H16|reflexivity]|].
    apply Forall_nil_2. }
  assert (Forall (λ a, ∃ f, plain_object (heap Scenario.text_run) a f
                            ∧ is_primitive (default VUndef (f !! "engagement"))
                              = true)
            (arr (heap Scenario.text_run) (articles Scenario.text_run))) as He.
  { rewrite Harr.
    apply Forall_cons_2; [eexists; split; [exact H15|reflexivity]|].
    apply Forall_cons_2; [eexists; split; [exact H16|reflexivity]|].
    apply Forall_nil_2. }
  assert (Forall (λ u, u ≠ VUndef ∧ u ≠ VNull)
            (arr (heap Scenario.text_run) (users Scenario.text_run))) as Hu.
  { apply (bool_decide_unpack _). vm_compute. exact I. }
  assert (VRef 15%nat ∈ arr (heap Scenario.text_run) (articles Scenario.text_run))
    as Hin.
  { rewrite Harr. left. }
  split; [exact Hv|]. split; [exact He|]. split; [exact Hu|].
  split; [exact Hin|]. split; [exact H15|].
  split; [vm_compute; reflexivity|].
  exact (X26_text_views_make_total_text _ _ _ Hv He Hu Hin H15 eq_refl).
Defined.

(** ** The model on small inputs *)

Example parseInt_examples :
  parseInt ∅ (VStr "1") = Some 1 ∧ parseInt ∅ (VStr "  -42px") = Some (-42) ∧
  parseInt ∅ (VStr "0x1F") = Some 31 ∧ parseInt ∅ (VStr "abc") = None ∧
  parseInt ∅ (VStr EmptyString) = None ∧ parseInt ∅ (VNum 7) = Some 7 ∧
  parseInt ∅ VNull = None ∧
  parseInt {[ 0%nat := CArr [VStr "12"; VNum 5] ]} (VRef 0%nat) = Some 12.
Proof. vm_compute. repeat split. Qed.

Example parseInt_white_space :
  parseInt ∅ (VStr (String "194" (String "160" "7"))) = Some 7 ∧
  parseInt ∅ (VStr (String "239" (String "187" (String "191" " -3")))) = Some (-3) ∧
  parseInt ∅ (VStr (String "226" (String "128" (String "139" "7")))) = None ∧
  parseInt ∅ (VStr (String "194" (String "161" "7"))) = None.
Proof. vm_compute. repeat split. Qed.

Example parseInt_of_arrays :
  let h : gmap loc cell :=
    {[ 0%nat := CArr [VNum 1; VRef 1%nat]; 1%nat := CObj {[ "toString" := VNum 1 ]};
       2%nat := CArr [VNull; VNum 5]; 3%nat := CArr [VRef 4%nat; VNum 9];
       4%nat := CArr [VNum 6]; 5%nat := CObj ∅; 6%nat := CArr [VRef 6%nat] ]} in
  parseInt h (VRef 0%nat) = None ∧ toString h (VRef 0%nat) = Throw ∧
  parseInt h (VRef 2%nat) = None ∧ toString h (VRef 2%nat) = Ret ",5" ∧
  parseInt h (VRef 3%nat) = Some 6 ∧ toString h (VRef 3%nat) = Ret "6,9" ∧
  parseInt h (VRef 5%nat) = None ∧ toString h (VRef 5%nat) = Ret "[object Object]" ∧
  parseInt h (VRef 6%nat) = None ∧ toString h (VRef 6%nat) = Ret EmptyString.
Proof. vm_compute. repeat split. Qed.

Example read_YYYY_MM_DD_examples :
  read_YYYY_MM_DD "2024-10-05" = Some (2024, 10, 5) ∧
  read_YYYY_MM_DD "+010000-01-02" = None ∧
  read_YYYY_MM_DD "2024-10-05T07:03:59.042Z" = None ∧
  read_YYYY_MM_DD "2024/10/05" = None.
Proof. vm_compute. repeat split. Qed.

Example parse_example :
  parse (JArr [JObj [("a", JNum 1); ("a", JNum 2)]; JNull]) ∅ =
  ({[ 0%nat := CObj {[ "a" := VNum 2 ]}; 1%nat := CArr [VRef 0%nat; VNull] ]},
   VRef 1%nat).
Proof. vm_compute. reflexivity. Qed.

Example stringify_example :
  stringify {[ 0%nat := CObj {[ "a" := VNum 2; "b" := VUndef ]};
               1%nat := CArr [VRef 0%nat; VUndef; VNaN];
               2%nat := CArr [VRef 2%nat] ]} (VRef 1%nat)
  = Ret (Some (JArr [JObj [("a", JNum 2)]; JNull; JNull])) ∧
  stringify {[ 2%nat := CArr [VRef 2%nat] ]} (VRef 2%nat) = Throw.
Proof. vm_compute. split; reflexivity. Qed.

Example toISOString_example :
  toISOString {| year := 2024; month := 10; day := 5; hours := 7;
                 minutes := 3; seconds := 59; milliseconds := 42 |}
  = "2024-10-05T07:03:59.042Z".
Proof. vm_compute. reflexivity. Qed.
